(** * PlaneBrane front end: point extraction, mock meshes and the points history

    A shallow embedding of the TypeScript sources

    - [frontend/src/utils/geometryDetection.ts]: local feature detection
      and snapping ([findNearestFeature]);
    - [frontend/src/hooks/useAdjustPoints.ts]: the extraction hook with its
      mock points, and the application store with undo / redo of the points,
      the navigation between the steps and the project data;
    - the model hooks ([useGenerateModel], [useModelPreview],
      [useUpdateModelParams], [generateMockModel], [generateSphereModel],
      [generateTorusModel]);
    - the adjust section (adding and deleting points by hand, the point
      statistics);
    - the 3D view ([generateMockTorusFromPoints], the animation frames, the
      zoom) and [frontend/src/components/CymaticGeometry.tsx] (the edges of
      the wireframe, the visible lines).

    Conventions of the embedding.

    - A JavaScript [number] is a rational ([Q]) or, where the code only ever
      produces integers (pixel positions, array indices, Uint8Array cells,
      Sobel and Harris accumulators), an integer ([Z]).  NaN and the
      infinities are not modelled.
    - The rounding of IEEE 754 doubles is [JS.fl] (to the nearest double, ties
      to even, subnormals included); [JS.addF], [JS.subF], [JS.mulF],
      [JS.divF] and [JS.Math_sqrt] are the operations of the engine, each the
      exact result rounded.  They are used where a result of the code depends
      on the rounding: the grayscale conversion, the point counts
      [maxPoints] and [totalPoints], the mock points, and the distances of
      [findNearestFeature] in [NearestFeature].  Elsewhere the operands are
      integers or the statements do not depend on the rounding, and the
      arithmetic is written exactly; there a comparison with a [Math.sqrt] is
      made on the squared quantities.
    - [Math.cos], [Math.sin], [Math.atan2] are implementation-approximated in
      ECMAScript; they are section variables.  [Math.random] is a stream of
      draws threaded through the code with a counter.
    - [for] loops are folds over the indices they visit, arrays are lists,
      [push] appends at the end. *)

From Stdlib Require Import String ZArith QArith Qround Qabs Qminmax Qpower Qreals Reals.
From Stdlib Require Import List Bool Lia Lra Psatz Permutation Sorted.
From Stdlib Require Import MSets.MSetAVL Structures.OrdersEx SetoidList.
From Stdlib Require Import Ascii DecimalString DecimalZ DecimalPos.
Import ListNotations.

Set Implicit Arguments.

(** ** JavaScript primitives *)

Module JS.

(** [for (let i = lo; i < hi; i += step) body] with [0 < step]. *)
Fixpoint for_steps {S : Type} (n : nat) (i step : Z) (body : Z -> S -> S) (s : S) : S :=
  match n with
  | O => s
  | Datatypes.S n' => for_steps n' (i + step)%Z step body (body i s)
  end.

Definition for_range {S : Type} (lo hi step : Z) (body : Z -> S -> S) (s : S) : S :=
  for_steps (Z.to_nat ((hi - lo + step - 1) / step)) lo step body s.

(** Strict comparison on rationals. *)
Definition Qltb (a b : Q) : bool := negb (Qle_bool b a).

(** *** IEEE 754 doubles

    A finite double is an integer multiple [m * 2 ^ u] with [|m| < 2 ^ 53]
    and [-1074 <= u].  [fl q] is the double nearest to [q], the one with an
    even [m] when two are equally near.  Beyond the largest double the
    engine gives an infinity; [fl] keeps rounding to 53 bits there, and the
    statements that depend on it bound their arguments. *)

(** [binade q], for [0 < q]: the exponent [e] with
    [2 ^ e <= q < 2 ^ (e + 1)]. *)
Definition binade (q : Q) : Z :=
  let e := (Z.log2 (Qnum q) - Z.log2 (Zpos (Qden q)))%Z in
  if Qle_bool (2 ^ e) q then e else (e - 1)%Z.

(** The nearest integer, the even one of two that are equally near. *)
Definition roundTiesEven (q : Q) : Z :=
  let m := Qfloor q in
  match Qcompare (q - inject_Z m) (1 # 2) with
  | Lt => m
  | Gt => (m + 1)%Z
  | Eq => if Z.even m then m else (m + 1)%Z
  end.

(** The exponent of the last of the 53 bits, not below that of the
    subnormal numbers. *)
Definition ulpExponent (q : Q) : Z := Z.max (binade q - 52) (-1074).

Definition roundPositive (q : Q) : Q :=
  let u := ulpExponent q in
  Qred (inject_Z (roundTiesEven (q / 2 ^ u)) * 2 ^ u).

Definition fl (q : Q) : Q :=
  match Qnum q with
  | Z0 => 0
  | Zpos _ => roundPositive q
  | Zneg _ => - roundPositive (- q)
  end.

(** [a + b], [a - b], [a * b] and [a / b] on numbers: the exact result,
    rounded. *)
Definition addF (a b : Q) : Q := fl (a + b).
Definition subF (a b : Q) : Q := fl (a - b).
Definition mulF (a b : Q) : Q := fl (a * b).
Definition divF (a b : Q) : Q := fl (a / b).

(** [Math.sqrt]: the engines compute it with the square root of IEEE 754,
    the double nearest to the real root.  With [m] the integer part of the
    root of [s = q / 4 ^ u], the root is rounded up when it exceeds
    [m + 1/2], that is when [(2 m + 1) ^ 2 < 4 s].  The arguments in this
    code are sums of squares; the [NaN] of a negative argument does not
    occur. *)
Definition sqrtPositive (q : Q) : Q :=
  let u := Z.max (binade q / 2 - 52) (-1074) in
  let s := q / 2 ^ (2 * u) in
  let m := Z.sqrt (Qfloor s) in
  let odd := 2 * inject_Z m + 1 in
  let up := match Qcompare (odd * odd) (4 * s) with
            | Lt => true
            | Gt => false
            | Eq => negb (Z.even m)
            end in
  Qred (inject_Z (if up then m + 1 else m)%Z * 2 ^ u).

Definition Math_sqrt (q : Q) : Q :=
  match Qnum q with
  | Zpos _ => sqrtPositive q
  | _ => 0
  end.

(** Numbers far from the overflow threshold [2 ^ 1024] of the doubles. *)
Definition finite (q : Q) : Prop := Qabs q <= 2 ^ 1000.

(** [Math.floor]. *)
Definition Math_floor (q : Q) : Z := Qfloor q.

(** Truncation toward zero, and the conversion applied by a store into a
    [Uint8Array] (truncate, then reduce modulo 256). *)
Definition Qtrunc (q : Q) : Z := if Qltb q 0 then Qceiling q else Qfloor q.
Definition toUint8 (q : Q) : Z := (Qtrunc q mod 256)%Z.

(** [Math.sqrt(s) > t] and [Math.sqrt(s) < t] for a sum of squares [s],
    read on the squared quantities. *)
Definition sqrt_gtb (s t : Q) : bool := Qltb t 0 || Qltb (t * t) s.
Definition sqrt_ltb (s t : Q) : bool := Qltb 0 t && Qltb s (t * t).

(** [atLeast m d]: the real square root of [d] is at least [m]; with [d] a
    squared Euclidean distance, the distance is at least [m]. *)
Definition atLeast (m d : Q) : Prop := (Q2R m <= sqrt (Q2R d))%R.

(** Typed arrays and plain arrays read and written by index. *)
Definition get {A : Type} (d : A) (a : list A) (i : Z) : A :=
  if (i <? 0)%Z then d else nth (Z.to_nat i) a d.

Fixpoint upd_nat {A : Type} (a : list A) (n : nat) (v : A) : list A :=
  match a, n with
  | [], _ => []
  | _ :: t, O => v :: t
  | h :: t, Datatypes.S n' => h :: upd_nat t n' v
  end.

(** A store outside the bounds of a typed array is ignored. *)
Definition upd {A : Type} (a : list A) (i : Z) (v : A) : list A :=
  if (i <? 0)%Z then a else upd_nat a (Z.to_nat i) v.

(** [new Uint8Array(n)]. *)
Definition zeros (n : Z) : list Z := repeat 0%Z (Z.to_nat n).

(** [a.slice(0, e)]: a negative [e] counts from the end. *)
Definition slice0 {A : Type} (a : list A) (e : Z) : list A :=
  if (e <? 0)%Z then firstn (Z.to_nat (Z.max (Z.of_nat (length a) + e) 0)) a
  else firstn (Z.to_nat e) a.

(** [Math.max(0, Math.min(1, v))]. *)
Definition clamp01 (v : Q) : Q := Qmax 0 (Qmin 1 v).

(** [a % b] on numbers: the remainder has the sign of the dividend. *)
Definition Qrem (a b : Q) : Q := a - b * inject_Z (Qtrunc (a / b)).

(** [Math.PI] is the double 0x400921FB54442D18. *)
Definition Math_PI : Q := 884279719003555 # 281474976710656.

(** A string is truthy unless it is empty; [null] is falsy. *)
Definition truthy (s : option string) : bool :=
  match s with
  | Some t => negb (String.eqb t EmptyString)
  | None => false
  end.

(** A promise settles with a value or is rejected with an error. *)
Inductive Outcome (A : Type) : Type :=
| Resolved (a : A)
| Rejected (message : string).
Arguments Resolved {A} a.
Arguments Rejected {A} message.

End JS.

(** ** geometryDetection.ts *)

Module GeometryDetection.
Import JS.

Inductive FeatureType := corner | edge | curve | intersection.

(** [{ x, y, confidence }] as produced by the corner and curve detectors. *)
Record RawFeature := mkRaw { r_x : Q; r_y : Q; r_confidence : Q }.

Record GeometricFeature := mkFeature
  { f_type : FeatureType; f_x : Q; f_y : Q; f_confidence : Q }.

Record ImageData := mkImage { width : Z; height : Z; data : list Z }.

Record Options := mkOptions { threshold : Q; minSpacing : Q; density : Q }.

Definition sobelX : list Z := [-1; 0; 1; -2; 0; 2; -1; 0; 1]%Z.
Definition sobelY : list Z := [-1; -2; -1; 0; 0; 0; 1; 2; 1]%Z.

(** [0.299 * r + 0.587 * g + 0.114 * b] as the engine evaluates it: the
    literals are the nearest doubles, the three products and the two sums
    are rounded. *)
Definition luminance (r g b : Z) : Q :=
  addF (addF (mulF (fl (299 # 1000)) (inject_Z r))
             (mulF (fl (587 # 1000)) (inject_Z g)))
       (mulF (fl (114 # 1000)) (inject_Z b)).

(** The grayscale conversion loop of [detectFeaturesFromImageData].  The
    data of an [ImageData] are [4 * width * height] bytes, so every read of
    the loop is within the array. *)
Definition toGray (w h : Z) (d : list Z) : list Z :=
  for_range 0 (Z.of_nat (length d)) 4
    (fun i gray =>
       let idx := (i / 4)%Z in
       upd gray idx
         (toUint8 (luminance (get 0%Z d i) (get 0%Z d (i + 1)) (get 0%Z d (i + 2)))))
    (zeros (w * h)).

(** An image all of whose pixels have the colour [(r, g, b)] (the alpha
    channel is free) has a grayscale buffer of one level. *)
Definition uniformData (r g b : Z) (alphas : list Z) : list Z :=
  flat_map (fun a => [r; g; b; a]) alphas.

Definition grayOf (r g b : Z) : Z := toUint8 (luminance r g b).

(** The two kernel loops of [applySobelFilter] at pixel [(x, y)]. *)
Definition sobelAt (gray : list Z) (w x y : Z) : Z * Z :=
  for_range (-1) 2 1
    (fun ky acc =>
       for_range (-1) 2 1
         (fun kx '(gx, gy) =>
            let idx := ((y + ky) * w + (x + kx))%Z in
            let kernelIdx := ((ky + 1) * 3 + (kx + 1))%Z in
            ((gx + get 0 gray idx * get 0 sobelX kernelIdx)%Z,
             (gy + get 0 gray idx * get 0 sobelY kernelIdx)%Z))
         acc)
    (0%Z, 0%Z).

Definition applySobelFilter (gray : list Z) (w h : Z) (threshold : Q) : list Z :=
  for_range 1 (h - 1) 1
    (fun y edges =>
       for_range 1 (w - 1) 1
         (fun x edges =>
            let '(gx, gy) := sobelAt gray w x y in
            upd edges (y * w + x)%Z
              (if sqrt_gtb (inject_Z (gx * gx + gy * gy)) threshold
               then 255%Z else 0%Z))
         edges)
    (zeros (w * h)).

Definition harris_k : Q := 4 # 100.
Definition windowSize : Z := 3.

(** The window loops of [detectCorners] at pixel [(x, y)]. *)
Definition structureAt (gray : list Z) (w x y : Z) : Z * Z * Z :=
  for_range (- windowSize) (windowSize + 1) 1
    (fun wy acc =>
       for_range (- windowSize) (windowSize + 1) 1
         (fun wx '(Ixx, Iyy, Ixy) =>
            let idx := ((y + wy) * w + (x + wx))%Z in
            let idxX := ((y + wy) * w + (x + wx + 1))%Z in
            let idxY := ((y + wy + 1) * w + (x + wx))%Z in
            if (idxX <? Z.of_nat (length gray))%Z && (idxY <? Z.of_nat (length gray))%Z
            then
              let Ix := (get 0 gray idxX - get 0 gray idx)%Z in
              let Iy := (get 0 gray idxY - get 0 gray idx)%Z in
              ((Ixx + Ix * Ix)%Z, (Iyy + Iy * Iy)%Z, (Ixy + Ix * Iy)%Z)
            else (Ixx, Iyy, Ixy))
         acc)
    (0%Z, 0%Z, 0%Z).

Definition harrisResponse (gray : list Z) (w x y : Z) : Q :=
  let '(Ixx, Iyy, Ixy) := structureAt gray w x y in
  let det := (Ixx * Iyy - Ixy * Ixy)%Z in
  let trace := (Ixx + Iyy)%Z in
  inject_Z det - harris_k * inject_Z trace * inject_Z trace.

Definition detectCorners (gray : list Z) (w h : Z) (threshold : Q) : list RawFeature :=
  for_range windowSize (h - windowSize) 2
    (fun y corners =>
       for_range windowSize (w - windowSize) 2
         (fun x corners =>
            let response := harrisResponse gray w x y in
            if Qltb (threshold * 100) response
            then corners ++ [mkRaw (inject_Z x) (inject_Z y) (response / 1000000)]
            else corners)
         corners)
    [].

Definition calculateCurvature (edges : list Z) (x y w h : Z) : Q :=
  let radius := 5%Z in
  let edgeCount :=
    for_range (- radius) (radius + 1) 1
      (fun dy cnt =>
         for_range (- radius) (radius + 1) 1
           (fun dx cnt =>
              let nx := (x + dx)%Z in
              let ny := (y + dy)%Z in
              if (0 <=? nx)%Z && (nx <? w)%Z && (0 <=? ny)%Z && (ny <? h)%Z
              then if (0 <? get 0 edges (ny * w + nx))%Z then (cnt + 1)%Z else cnt
              else cnt)
           cnt)
      0%Z in
  inject_Z edgeCount / inject_Z ((radius * 2 + 1) ^ 2).

Definition detectCurvePoints (edges : list Z) (w h : Z) : list RawFeature :=
  for_range 0 h 5
    (fun y curvePoints =>
       for_range 0 w 5
         (fun x curvePoints =>
            if (0 <? get 0 edges (y * w + x))%Z
            then
              let curvature := calculateCurvature edges x y w h in
              if Qltb (3 # 10) curvature
              then curvePoints ++ [mkRaw (inject_Z x) (inject_Z y) curvature]
              else curvePoints
            else curvePoints)
         curvePoints)
    [].

Definition distSq (a b : GeometricFeature) : Q :=
  let dx := f_x a - f_x b in
  let dy := f_y a - f_y b in
  dx * dx + dy * dy.

(** [far m a b]: the squared distance of [a] and [b] is at least [m * m]. *)
Definition far (m : Q) (a b : GeometricFeature) : Prop := m * m <= distSq a b.

(** [SpacedBy m l]: any two entries of [l] at different positions are at
    Euclidean distance at least [m]. *)
Definition SpacedBy (m : Q) (l : list GeometricFeature) : Prop :=
  forall i j a b,
    i <> j -> nth_error l i = Some a -> nth_error l j = Some b ->
    atLeast m (distSq a b).

(** The inner loop of [filterBySpacing]: is [feature] too close to one of
    the features kept so far? *)
Definition tooClose (minDistSq : Q) (filtered : list GeometricFeature)
           (feature : GeometricFeature) : bool :=
  existsb (fun existing => Qltb (distSq feature existing) minDistSq) filtered.

Definition filterBySpacing (features : list GeometricFeature) (minSpacing : Q)
  : list GeometricFeature :=
  let minDistSq := minSpacing * minSpacing in
  fold_left
    (fun filtered feature =>
       if tooClose minDistSq filtered feature then filtered
       else filtered ++ [feature])
    features [].

(** [Array.prototype.sort] is stable; with the comparator
    [(a, b) => b.confidence - a.confidence] it orders by descending
    confidence and keeps the input order among equal confidences. *)
Fixpoint insertByConfidence (f : GeometricFeature) (l : list GeometricFeature)
  : list GeometricFeature :=
  match l with
  | [] => [f]
  | g :: t =>
      if Qltb (f_confidence f) (f_confidence g)
      then g :: insertByConfidence f t
      else f :: g :: t
  end.

Definition sortByConfidence (l : list GeometricFeature) : list GeometricFeature :=
  fold_right insertByConfidence [] l.

(** [Math.floor((density / 100) * 200 + 20)], the quotient, the product
    and the sum rounded. *)
Definition maxPointsOf (density : Q) : Z :=
  Math_floor (addF (mulF (divF density 100) 200) 20).

Definition allFeaturesOf (gray : list Z) (w h : Z) (threshold : Q)
  : list GeometricFeature :=
  let edges := applySobelFilter gray w h threshold in
  let corners := detectCorners gray w h threshold in
  let curvePoints := detectCurvePoints edges w h in
  map (fun p => mkFeature corner (r_x p) (r_y p) (r_confidence p)) corners
  ++ map (fun p => mkFeature curve (r_x p) (r_y p) (r_confidence p)) curvePoints.

(** [detectFeaturesFromImageData] from the grayscale buffer on. *)
Definition detectFeaturesFromGray (gray : list Z) (w h : Z) (options : Options)
  : list GeometricFeature :=
  let allFeatures := allFeaturesOf gray w h (threshold options) in
  let filteredFeatures := filterBySpacing allFeatures (minSpacing options) in
  let maxPoints := maxPointsOf (density options) in
  slice0 (sortByConfidence filteredFeatures) maxPoints.

Definition detectFeaturesFromImageData (imageData : ImageData) (options : Options)
  : list GeometricFeature :=
  let w := width imageData in
  let h := height imageData in
  detectFeaturesFromGray (toGray w h (data imageData)) w h options.

(** Order of the sorted output, and the features of one confidence. *)
Definition descending (a b : GeometricFeature) : Prop :=
  f_confidence b <= f_confidence a.

Definition sameConfidence (c : Q) (f : GeometricFeature) : bool :=
  Qeq_bool (f_confidence f) c.



(** Runs of a stage as a relation between its parameters and its result. *)
Definition Deterministic {I O : Type} (run : I -> O -> Prop) : Prop :=
  forall i o1 o2, run i o1 -> run i o2 -> o1 = o2.

(** What ECMAScript requires of [features.sort(compare)] with the
    comparator [(a, b) => b.confidence - a.confidence], whatever algorithm
    the engine implements: the result is a permutation of the array, in
    descending order of confidence, and the features of one confidence keep
    their order (the sort is stable). *)
Definition SortedByConfidence (input output : list GeometricFeature) : Prop :=
  Permutation input output
  /\ StronglySorted descending output
  /\ forall c, filter (sameConfidence c) output = filter (sameConfidence c) input.

(** The runs of [detectFeaturesFromImageData]: the detectors and the filter
    are loops over the pixels and the candidates, the sort is any sort that
    an engine may implement. *)
Definition detectionRun (i : ImageData * Options) (r : list GeometricFeature)
  : Prop :=
  let w := width (fst i) in
  let h := height (fst i) in
  let gray := toGray w h (data (fst i)) in
  let filteredFeatures :=
    filterBySpacing (allFeaturesOf gray w h (threshold (snd i)))
      (minSpacing (snd i)) in
  exists sorted,
    SortedByConfidence filteredFeatures sorted
    /\ r = slice0 sorted (maxPointsOf (density (snd i))).

End GeometryDetection.

(** ** useAdjustPoints.ts: points, mock points and the extraction query *)

Record Point2D := mkPoint
  { p_x : Q; p_y : Q; p_weight : Q; p_feature_type : string }.

Module AdjustPoints.
Import JS GeometryDetection.

(** What loading the image URL into a canvas ends in. *)
Inductive ImageLoad :=
| OnError
| OnLoadNoContext
| OnLoad (imageData : ImageData).

Definition featureToPoint (canvasWidth canvasHeight : Z) (f : GeometricFeature)
  : Point2D :=
  mkPoint (f_x f / inject_Z canvasWidth) (f_y f / inject_Z canvasHeight)
    (f_confidence f)
    (match f_type f with
     | corner | intersection => "center"
     | _ => "edge"
     end).

(** [detectGeometricFeatures]: the promise only ever resolves. *)
Definition detectGeometricFeatures (load : ImageLoad) (options : Options)
  : list Point2D :=
  match load with
  | OnError => []
  | OnLoadNoContext => []
  | OnLoad imageData =>
      let features := detectFeaturesFromImageData imageData options in
      map (featureToPoint (width imageData) (height imageData)) features
  end.

(** The returned points are normalised; their distance in pixels is taken
    after scaling back by the width and the height of the canvas. *)
Definition pixelDistSq (w h : Z) (p q : Point2D) : Q :=
  let dx := inject_Z w * (p_x p - p_x q) in
  let dy := inject_Z h * (p_y p - p_y q) in
  dx * dx + dy * dy.

Definition SpacedInPixels (m : Q) (w h : Z) (l : list Point2D) : Prop :=
  forall i j p q,
    i <> j -> nth_error l i = Some p -> nth_error l j = Some q ->
    atLeast m (pixelDistSq w h p q).

(** The spacing invariant as the specification words it, on the points as
    they are returned: any two of them at Euclidean distance at least [m]. *)
Definition pointDistSq (p q : Point2D) : Q :=
  let dx := p_x p - p_x q in
  let dy := p_y p - p_y q in
  dx * dx + dy * dy.

Definition SpacedPoints (m : Q) (l : list Point2D) : Prop :=
  forall i j p q,
    i <> j -> nth_error l i = Some p -> nth_error l j = Some q ->
    atLeast m (pointDistSq p q).

(** [SpacedAsFeatures m w h l]: any two points of [l] are the images under
    [featureToPoint] of two features at Euclidean distance at least [m] in
    pixel coordinates. *)
Definition SpacedAsFeatures (m : Q) (w h : Z) (l : list Point2D) : Prop :=
  forall i j p q,
    i <> j -> nth_error l i = Some p -> nth_error l j = Some q ->
    exists a b,
      p = featureToPoint w h a /\ q = featureToPoint w h b
      /\ atLeast m (GeometryDetection.distSq a b).

Record Params := mkParams
  { density : Q; threshold : Q; minSpacing : Q; weighting : Q }.

Section Mock.
Variables Math_cos Math_sin : Q -> Q.
(** [Math_random n] is the value of the [n]-th call of [Math.random]. *)
Variable Math_random : nat -> Q.

(** Code that draws random numbers: the state is the number of draws. *)
Definition Rand (A : Type) : Type := nat -> A * nat.
Definition ret {A : Type} (a : A) : Rand A := fun n => (a, n).
Definition bind {A B : Type} (m : Rand A) (k : A -> Rand B) : Rand B :=
  fun n => let '(a, n') := m n in k a n'.
Definition random : Rand Q := fun n => (Math_random n, S n).

Notation "x <- m ;; k" := (bind m (fun x => k))
  (at level 61, m at next level, right associativity).

Definition maxAttempts : nat := 50.

(** The body of the [do ... while] loop up to the spacing test; the
    literals 0.3, 0.2 and 0.6 are the nearest doubles, 0.5 is a double. *)
Definition candidate (edgeRatio : Q) : Rand (Q * Q) :=
  r <- random ;;
  if Qltb r edgeRatio then
    a <- random ;;
    let angle := mulF (mulF a Math_PI) 2 in
    b <- random ;;
    let radius := addF (fl (3 # 10)) (mulF b (fl (2 # 10))) in
    ret (addF (1 # 2) (mulF (Math_cos angle) radius),
         addF (1 # 2) (mulF (Math_sin angle) radius))
  else
    a <- random ;;
    b <- random ;;
    ret (addF (fl (2 # 10)) (mulF a (fl (6 # 10))),
         addF (fl (2 # 10)) (mulF b (fl (6 # 10)))).

(** [Math.sqrt(dx * dx + dy * dy)] of the spacing test, for a placed point
    [p] and the candidate [(x, y)]. *)
Definition distTo (p : Point2D) (x y : Q) : Q :=
  let dx := subF (p_x p) x in
  let dy := subF (p_y p) y in
  Math_sqrt (addF (mulF dx dx) (mulF dy dy)).

Definition tooClose (minDist : Q) (points : list Point2D) (x y : Q) : bool :=
  existsb (fun p => Qltb (distTo p x y) minDist) points.

(** [farP m p q]: the distance that the spacing test computes between the
    placed point [p] and the position of [q] is at least [m]. *)
Definition farP (m : Q) (p q : Point2D) : Prop :=
  m <= distTo p (p_x q) (p_y q).

(** [SpacedByP m l]: for any two points of [l], the distance that the
    spacing test computes between the earlier and the later one is at
    least [m]. *)
Definition SpacedByP (m : Q) (l : list Point2D) : Prop :=
  forall i j p q,
    (i < j)%nat -> nth_error l i = Some p -> nth_error l j = Some q ->
    m <= distTo p (p_x q) (p_y q).

Definition inUnit (c : Q * Q) : Prop :=
  (0 <= fst c /\ fst c <= 1) /\ (0 <= snd c /\ snd c <= 1).

(** The [do ... while (attempts < maxAttempts)] loop as it is written, with
    its counter; it returns the last candidate and the counter.  [fuel]
    bounds the number of iterations: from [attempts = 0] the loop runs at
    most [maxAttempts] times. *)
Fixpoint doWhile (fuel attempts : nat) (edgeRatio minDist : Q)
         (points : list Point2D) : Rand (Q * Q * nat) :=
  match fuel with
  | O => ret (0, 0, maxAttempts)
  | S fuel' =>
      c <- candidate edgeRatio ;;
      if negb (tooClose minDist points (fst c) (snd c))
      then ret (fst c, snd c, attempts)
      else
        let attempts := S attempts in
        if (attempts <? maxAttempts)%nat
        then doWhile fuel' attempts edgeRatio minDist points
        else ret (fst c, snd c, attempts)
  end.

(** One iteration of the outer [for] loop. *)
Definition placePoint (edgeRatio minDist weighting : Q) (points : list Point2D)
  : Rand (list Point2D) :=
  r <- doWhile maxAttempts 0 edgeRatio minDist points ;;
  let '(x, y, attempts) := r in
  if (attempts <? maxAttempts)%nat then
    t <- random ;;
    ret (points ++ [mkPoint (clamp01 x) (clamp01 y) weighting
                      (if Qltb t edgeRatio then "edge" else "center")])
  else ret points.

(** The same loop seen through its two exits; [remaining] is
    [maxAttempts - attempts].  [Some (x, y)] is the exit through [break]
    (then [attempts < maxAttempts]), [None] the exit with
    [attempts = maxAttempts]. *)
Fixpoint placeLoop (remaining : nat) (edgeRatio minDist : Q)
         (points : list Point2D) : Rand (option (Q * Q)) :=
  match remaining with
  | O => ret None
  | S remaining' =>
      c <- candidate edgeRatio ;;
      if tooClose minDist points (fst c) (snd c)
      then placeLoop remaining' edgeRatio minDist points
      else ret (Some c)
  end.

Definition placePointExits (edgeRatio minDist weighting : Q) (points : list Point2D)
  : Rand (list Point2D) :=
  placed <- placeLoop maxAttempts edgeRatio minDist points ;;
  match placed with
  | Some (x, y) =>
      t <- random ;;
      ret (points ++ [mkPoint (clamp01 x) (clamp01 y) weighting
                        (if Qltb t edgeRatio then "edge" else "center")])
  | None => ret points
  end.

Fixpoint placeAll (n : nat) (edgeRatio minDist weighting : Q)
         (points : list Point2D) : Rand (list Point2D) :=
  match n with
  | O => ret points
  | S n' =>
      points' <- placePoint edgeRatio minDist weighting points ;;
      placeAll n' edgeRatio minDist weighting points'
  end.

(** [Math.floor((density / 100) * 180 + 20)], the quotient, the product
    and the sum rounded. *)
Definition totalPointsOf (density : Q) : Z :=
  Math_floor (addF (mulF (divF density 100) 180) 20).

Definition generateMockPoints (params : Params) : list Point2D :=
  let totalPoints := totalPointsOf (density params) in
  let edgeRatio := divF (threshold params) 255 in
  let minDist := divF (minSpacing params) 100 in
  fst (placeAll (Z.to_nat totalPoints) edgeRatio minDist (weighting params) [] O).

(** What the call of the extraction API ends in. *)
Inductive ApiOutcome :=
| ApiOk (id : string) (points : list Point2D)
| ApiError.

Record QueryData := mkQueryData { q_id : string; q_points : list Point2D }.

(** The [queryFn] of [useAdjustPoints]; [now] is [Date.now()] as text. *)
Definition queryFn (imageId imageUrl : option string)
           (useGeometricDetection : bool) (api : ApiOutcome)
           (load : ImageLoad) (now : string) (params : Params)
  : Outcome QueryData :=
  if negb (truthy imageId) then Rejected "No image ID provided"
  else
    match api with
    | ApiOk id points => Resolved (mkQueryData id points)
    | ApiError =>
        let mock :=
          Resolved (mkQueryData ("mock-" ++ now) (generateMockPoints params)) in
        if useGeometricDetection && truthy imageUrl then
          let detectedPoints :=
            detectGeometricFeatures load
              (mkOptions (threshold params) (minSpacing params) (density params)) in
          if (0 <? Z.of_nat (length detectedPoints))%Z
          then Resolved (mkQueryData ("local-" ++ now) detectedPoints)
          else mock
        else mock
    end.
End Mock.

(** A run of [generateMockPoints] draws from [Math.random]: any stream of
    draws in [[0, 1)] may occur. *)
Definition validDraws (r : nat -> Q) : Prop := forall n, 0 <= r n /\ r n < 1.

(** A candidate takes three draws, the [do ... while] loop at most
    [maxAttempts] candidates and the push one more draw: no run takes more
    than [drawsOf params] draws. *)
Definition drawsPerPoint : nat := 3 * maxAttempts + 1.

Definition drawsOf (params : Params) : nat :=
  Z.to_nat (totalPointsOf (density params)) * drawsPerPoint.

Definition mockRun (Math_cos Math_sin : Q -> Q) (params : Params)
           (points : list Point2D) : Prop :=
  exists r, validDraws r /\ points = generateMockPoints Math_cos Math_sin r params.

End AdjustPoints.

(** ** The application store: history of the adjusted points *)

Module Store.
Import JS.

(** The fields of [AppState] that the points actions read or write. *)
Record AppState := mkState
  { adjustedPoints : list Point2D;
    pointsHistory : list (list Point2D);
    pointsHistoryIndex : Z;
    canUndo : bool;
    canRedo : bool }.

Definition initialState : AppState := mkState [] [] (-1) false false.

(** [pointsHistory[i]]; reading outside the array gives [undefined]. *)
Definition historyAt (h : list (list Point2D)) (i : Z) : option (list Point2D) :=
  if (i <? 0)%Z then None else nth_error h (Z.to_nat i).

Definition addPointsToHistory (points : list Point2D) (s : AppState) : AppState :=
  let newHistory := slice0 (pointsHistory s) (pointsHistoryIndex s + 1) ++ [points] in
  mkState (adjustedPoints s) newHistory
    (Z.of_nat (length newHistory) - 1)
    (1 <? Z.of_nat (length newHistory))%Z
    false.

Definition setAdjustedPoints (points : list Point2D) (s : AppState) : AppState :=
  addPointsToHistory points
    (mkState points (pointsHistory s) (pointsHistoryIndex s) (canUndo s) (canRedo s)).

(** Spreading [undefined] raises a [TypeError]. *)
Definition undo (s : AppState) : Outcome AppState :=
  if (0 <? pointsHistoryIndex s)%Z then
    let newIndex := (pointsHistoryIndex s - 1)%Z in
    match historyAt (pointsHistory s) newIndex with
    | Some points =>
        Resolved (mkState points (pointsHistory s) newIndex (0 <? newIndex)%Z true)
    | None => Rejected "TypeError: undefined is not iterable"
    end
  else Resolved s.

Definition redo (s : AppState) : Outcome AppState :=
  if (pointsHistoryIndex s <? Z.of_nat (length (pointsHistory s)) - 1)%Z then
    let newIndex := (pointsHistoryIndex s + 1)%Z in
    match historyAt (pointsHistory s) newIndex with
    | Some points =>
        Resolved (mkState points (pointsHistory s) newIndex true
                    (newIndex <? Z.of_nat (length (pointsHistory s)) - 1)%Z)
    | None => Rejected "TypeError: undefined is not iterable"
    end
  else Resolved s.

Definition clearPointsHistory (s : AppState) : AppState :=
  mkState [] [[]] 0 false false.

(** Sequencing of store actions that may raise. *)
Definition andThen {A B : Type} (o : Outcome A) (k : A -> Outcome B) : Outcome B :=
  match o with
  | Resolved a => k a
  | Rejected m => Rejected m
  end.

End Store.

(** ** Mock meshes *)

(** Finite sets of pairs of vertex indices. *)
Module EdgeOT := PairOrderedType Z_as_OT Z_as_OT.
Module EdgeSet := MSetAVL.Make EdgeOT.

Module Mesh.
Import JS.

Definition Vec3 : Type := Q * Q * Q.
Definition Face : Type := Z * Z * Z.

Record Geometry := mkGeometry
  { vertices : list Vec3; faces : list Face; normals : list Vec3 }.

Record MockModelData := mkModelData
  { geometry : Geometry;
    vertex_count : Z;
    face_count : Z;
    bounding_box : Q * Q * Q * Q * Q * Q }.

(** The face loops, identical in the three generators: the quad of rows
    [i], [i + 1] and columns [j], [j + 1] of an index grid with
    [cols + 1] entries per row is split into two triangles. *)
Definition gridFaces (rows cols : Z) : list Face :=
  for_range 0 rows 1
    (fun i faces =>
       for_range 0 cols 1
         (fun j faces =>
            let v0 := (i * (cols + 1) + j)%Z in
            let v1 := (v0 + cols + 1)%Z in
            let v2 := (v0 + 1)%Z in
            let v3 := (v1 + 1)%Z in
            (faces ++ [(v0, v1, v2)]) ++ [(v2, v1, v3)])
         faces)
    [].

(** The vertex loops: [at i j] gives the vertex and the normal pushed at
    row [i], column [j]. *)
Definition gridVertices (rows cols : Z) (point : Z -> Z -> Vec3 * Vec3)
  : list Vec3 * list Vec3 :=
  for_range 0 (rows + 1) 1
    (fun i acc =>
       for_range 0 (cols + 1) 1
         (fun j '(vertices, normals) =>
            let '(v, n) := point i j in
            (vertices ++ [v], normals ++ [n]))
         acc)
    ([], []).

(** Undirected edges of a face list, as a finite set of index pairs: an
    edge shared by several faces is one element. *)
Definition undirected (a b : Z) : Z * Z := (Z.min a b, Z.max a b).

Definition faceEdges (f : Face) : list (Z * Z) :=
  let '(a, b, c) := f in [undirected a b; undirected b c; undirected c a].

Definition edgesOf (fs : list Face) : EdgeSet.t :=
  fold_left (fun s e => EdgeSet.add e s) (flat_map faceEdges fs) EdgeSet.empty.

Definition edgeCount (fs : list Face) : nat := EdgeSet.cardinal (edgesOf fs).

(** V - E + F. *)
Definition eulerCharacteristic (g : Geometry) : Z :=
  (Z.of_nat (length (vertices g)) - Z.of_nat (edgeCount (faces g))
   + Z.of_nat (length (faces g)))%Z.

Definition validFace (nVertices : Z) (f : Face) : Prop :=
  let '(a, b, c) := f in
  (0 <= a < nVertices)%Z /\ (0 <= b < nVertices)%Z /\ (0 <= c < nVertices)%Z.

Definition unitRange (q : Q) : Prop := -(1) <= q /\ q <= 1.

Definition boundedVec (v : Vec3) : Prop :=
  let '(a, b, c) := v in unitRange a /\ unitRange b /\ unitRange c.

(** [Aligned point (vertices, normals)]: the two arrays are the images of
    one sequence of grid positions, so that [normals[k]] is the normal
    that was pushed together with [vertices[k]]. *)
Definition Aligned (point : Z -> Z -> Vec3 * Vec3) (s : list Vec3 * list Vec3)
  : Prop :=
  exists ijs : list (Z * Z),
    fst s = map (fun ij => fst (point (fst ij) (snd ij))) ijs /\
    snd s = map (fun ij => snd (point (fst ij) (snd ij))) ijs.

(** Face indices in range; normals as many as vertices, aligned with them,
    and with every component in [[-1, 1]]. *)
Definition WellFormed (point : Z -> Z -> Vec3 * Vec3) (g : Geometry) : Prop :=
  Forall (validFace (Z.of_nat (length (vertices g)))) (faces g) /\
  length (normals g) = length (vertices g) /\
  Aligned point (vertices g, normals g) /\
  Forall boundedVec (normals g).

Section Generators.
Variables Math_cos Math_sin : Q -> Q.
Variable Math_atan2 : Q -> Q -> Q.

Definition spherePoint (radius : Q) (rings segments : Z) (ring segment : Z)
  : Vec3 * Vec3 :=
  let theta := (inject_Z ring / inject_Z rings) * Math_PI in
  let sinTheta := Math_sin theta in
  let cosTheta := Math_cos theta in
  let phi := (inject_Z segment / inject_Z segments) * Math_PI * 2 in
  let sinPhi := Math_sin phi in
  let cosPhi := Math_cos phi in
  let x := radius * sinTheta * cosPhi in
  let y := radius * cosTheta in
  let z := radius * sinTheta * sinPhi in
  ((x, y, z), (x, y, z)).

Definition generateSphereModel : MockModelData :=
  let radius := 1 in
  let segments := 16%Z in
  let rings := 16%Z in
  let '(vertices, normals) :=
    gridVertices rings segments (spherePoint radius rings segments) in
  let faces := gridFaces rings segments in
  mkModelData (mkGeometry vertices faces normals)
    (Z.of_nat (length vertices)) (Z.of_nat (length faces))
    (- radius, - radius, - radius, radius, radius, radius).

(** Vertex and normal of a torus whose tube radius at major angle
    [theta] is [r theta]. *)
Definition torusPoint (majorRadius : Q) (r : Q -> Q)
           (majorSegments minorSegments : Z) (i j : Z) : Vec3 * Vec3 :=
  let theta := (inject_Z i / inject_Z majorSegments) * Math_PI * 2 in
  let cosTheta := Math_cos theta in
  let sinTheta := Math_sin theta in
  let phi := (inject_Z j / inject_Z minorSegments) * Math_PI * 2 in
  let cosPhi := Math_cos phi in
  let sinPhi := Math_sin phi in
  let x := (majorRadius + r theta * cosPhi) * cosTheta in
  let y := r theta * sinPhi in
  let z := (majorRadius + r theta * cosPhi) * sinTheta in
  ((x, y, z), (cosPhi * cosTheta, sinPhi, cosPhi * sinTheta)).

Definition generateTorusModel : MockModelData :=
  let majorRadius := 1 in
  let minorRadius := 3 # 10 in
  let majorSegments := 32%Z in
  let minorSegments := 16%Z in
  let '(vertices, normals) :=
    gridVertices majorSegments minorSegments
      (torusPoint majorRadius (fun _ => minorRadius) majorSegments minorSegments) in
  let faces := gridFaces majorSegments minorSegments in
  mkModelData (mkGeometry vertices faces normals)
    (Z.of_nat (length vertices)) (Z.of_nat (length faces))
    (- majorRadius - minorRadius, - minorRadius, - majorRadius - minorRadius,
     majorRadius + minorRadius, minorRadius, majorRadius + minorRadius).

(** The [points.forEach] of [generateMockTorusFromPoints]. *)
Definition displacementAt (points : list Point2D) (theta : Q) : Q :=
  fold_left
    (fun displacement p =>
       let px := (p_x p - (1 # 2)) * 2 in
       let py := (p_y p - (1 # 2)) * 2 in
       let angle := Math_atan2 py px in
       let angleDiff :=
         Qabs (Qrem (angle - theta + Math_PI) (Math_PI * 2) - Math_PI) in
       if Qltb angleDiff (1 # 2)
       then displacement + (1 # 10) * (1 - angleDiff / (1 # 2))
       else displacement)
    points 0.

Definition generateMockTorusFromPoints (points : list Point2D) : Geometry :=
  let majorRadius := 12 # 10 in
  let minorRadius := 4 # 10 in
  let majorSegments := 48%Z in
  let minorSegments := 24%Z in
  let '(vertices, normals) :=
    gridVertices majorSegments minorSegments
      (torusPoint majorRadius
         (fun theta => minorRadius + displacementAt points theta)
         majorSegments minorSegments) in
  let faces := gridFaces majorSegments minorSegments in
  mkGeometry vertices faces normals.

(** The vertex and normal pushed at grid position [(i, j)] by
    [generateMockTorusFromPoints]. *)
Definition displacedPoint (points : list Point2D) : Z -> Z -> Vec3 * Vec3 :=
  torusPoint (12 # 10)
    (fun theta => (4 # 10) + displacementAt points theta) 48 24.

(** The effect of the 3D view on [adjustedPoints]: the mesh is generated
    and stored when there is at least one point; [modelData] is [null]
    initially. *)
Definition modelDataEffect (adjustedPoints : list Point2D)
           (modelData : option Geometry) : option Geometry :=
  if (0 <? Z.of_nat (length adjustedPoints))%Z
  then Some (generateMockTorusFromPoints adjustedPoints)
  else modelData.

(** The undisplaced base form, described without the loops of the
    generator.  The parametric torus of radii [R] and [r] is the surface
    [((R + r cos phi) cos theta, r sin phi, (R + r cos phi) sin theta)],
    with the normal [(cos phi cos theta, sin phi, cos phi sin theta)].  It
    is sampled at [theta = 2 pi i / m] and [phi = 2 pi j / n] for
    [0 <= i <= m] and [0 <= j <= n], row by row, so that the sample
    [(i, j)] is the vertex [i * (n + 1) + j]; the quad with the corners
    [(i, j)], [(i + 1, j)], [(i, j + 1)], [(i + 1, j + 1)], for [i < m] and
    [j < n], is cut into two triangles along its diagonal. *)
Definition torusVertex (R r : Q) (m n : nat) (i j : nat) : Vec3 :=
  let theta := (inject_Z (Z.of_nat i) / inject_Z (Z.of_nat m)) * Math_PI * 2 in
  let phi := (inject_Z (Z.of_nat j) / inject_Z (Z.of_nat n)) * Math_PI * 2 in
  ((R + r * Math_cos phi) * Math_cos theta,
   r * Math_sin phi,
   (R + r * Math_cos phi) * Math_sin theta).

Definition torusNormal (m n : nat) (i j : nat) : Vec3 :=
  let theta := (inject_Z (Z.of_nat i) / inject_Z (Z.of_nat m)) * Math_PI * 2 in
  let phi := (inject_Z (Z.of_nat j) / inject_Z (Z.of_nat n)) * Math_PI * 2 in
  (Math_cos phi * Math_cos theta, Math_sin phi, Math_cos phi * Math_sin theta).

(** The positions [(i, j)] with [i < rows] and [j < cols], row by row. *)
Definition gridPositions (rows cols : nat) : list (nat * nat) :=
  flat_map (fun i => map (fun j => (i, j)) (seq 0 cols)) (seq 0 rows).

Definition quadTriangles (n : nat) (ij : nat * nat) : list Face :=
  let corner (i j : nat) := Z.of_nat (i * (n + 1) + j)%nat in
  let '(i, j) := ij in
  [(corner i j, corner (S i) j, corner i (S j));
   (corner i (S j), corner (S i) j, corner (S i) (S j))].

Definition parametricTorus (R r : Q) (m n : nat) : Geometry :=
  mkGeometry
    (map (fun ij => torusVertex R r m n (fst ij) (snd ij)) (gridPositions (S m) (S n)))
    (flat_map (quadTriangles n) (gridPositions m n))
    (map (fun ij => torusNormal m n (fst ij) (snd ij)) (gridPositions (S m) (S n))).

(** [generateMockModel]; [now] is [Date.now()] as text. *)
Record MockModel := mkMockModel
  { m_id : string; m_shape : string; m_data : MockModelData }.

Definition generateMockModel (now : string) (shape : string) : MockModel :=
  let modelData :=
    if String.eqb shape "torus" then generateTorusModel else generateSphereModel in
  mkMockModel ("mock-" ++ now)
    (if String.eqb shape "torus" then "torus" else "sphere")
    modelData.

(** The [mutationFn] of [useGenerateModel]: the API answers with a
    response or fails (for any reason, a rejected shape included). *)
Inductive Generated (Response : Type) :=
| FromApi (r : Response)
| FromMock (m : MockModel).

Definition mutationFn {Response : Type} (pointsExtractionId : option string)
           (targetShape : string) (api : Outcome Response) (now : string)
  : Outcome (Generated Response) :=
  if negb (truthy pointsExtractionId)
  then Rejected "No points extraction ID provided"
  else
    match api with
    | Resolved result => Resolved (FromApi result)
    | Rejected _ => Resolved (FromMock Response (generateMockModel now targetShape))
    end.
End Generators.

End Mesh.

(** ** Concrete inputs used in examples *)

Module Examples.
Import JS GeometryDetection.

(** Stand-ins for the implementation-approximated [Math.cos], [Math.sin] and
    [Math.atan2]: with [t = a / 2], the rational point
    [((1 - t^2) / (1 + t^2), 2 t / (1 + t^2))] of the unit circle. *)
Definition sampleCos (a : Q) : Q := (1 - (a / 2) * (a / 2)) / (1 + (a / 2) * (a / 2)).
Definition sampleSin (a : Q) : Q := (2 * (a / 2)) / (1 + (a / 2) * (a / 2)).
Definition sampleAtan2 (y x : Q) : Q := 2 * (y / (1 + Qabs x + Qabs y)).

(** Two streams of draws in [[0, 1)]: the doubles 0, 0.1, ..., 0.9. *)
Definition sampleRandom (n : nat) : Q := divF (inject_Z (Z.of_nat ((n * 7) mod 10))) 10.
Definition otherRandom (n : nat) : Q := divF (inject_Z (Z.of_nat ((n * 3 + 5) mod 10))) 10.

Definition pixel (g : Z) : list Z := [g; g; g; 255%Z].

(** An image of one gray level. *)
Definition blankImage (w h g : Z) : ImageData :=
  mkImage w h (concat (repeat (pixel g) (Z.to_nat (w * h)))).

(** A black image with white pixels at the given positions. *)
Definition dotsImage (w h : Z) (dots : list (Z * Z)) : ImageData :=
  mkImage w h
    (flat_map
       (fun i =>
          pixel (if existsb (fun d => (Z.of_nat i mod w =? fst d)%Z
                                      && (Z.of_nat i / w =? snd d)%Z) dots
                 then 255%Z else 0%Z))
       (seq 0 (Z.to_nat (w * h)))).


Definition defaultOptions : Options := mkOptions 100 5 50.
Definition defaultParams : AdjustPoints.Params := AdjustPoints.mkParams 50 100 5 1.

End Examples.

(** ** geometryDetection.ts: snapping, on exact distances *)

(** [findNearestFeature] as the click handler of the adjust section uses
    it, the distances being compared exactly; [NearestFeature] below has
    the loop with the rounded distances. *)
Module Snapping.
Import JS GeometryDetection.

(** The values of [minDist] in [findNearestFeature]: the argument
    [maxDistance], or the [Math.sqrt] of a sum of squares. *)
Inductive Dist :=
| given (maxDistance : Q)
| root (distSq : Q).

(** [Math.sqrt(distSq) < minDist]; two square roots compare as the
    numbers under them. *)
Definition dist_ltb (distSq : Q) (minDist : Dist) : bool :=
  match minDist with
  | given maxDistance => sqrt_ltb distSq maxDistance
  | root minSq => Qltb distSq minSq
  end.

(** The sum of squares under the square root. *)
Definition distSqTo (x y : Q) (feature : GeometricFeature) : Q :=
  let dx := x - f_x feature in
  let dy := y - f_y feature in
  dx * dx + dy * dy.

(** The [for] loop of [findNearestFeature] with its two variables
    [nearest] and [minDist]. *)
Definition nearestLoop (x y : Q) (features : list GeometricFeature)
           (maxDistance : Q) : option GeometricFeature * Dist :=
  fold_left
    (fun '(nearest, minDist) feature =>
       if dist_ltb (distSqTo x y feature) minDist
       then (Some feature, root (distSqTo x y feature))
       else (nearest, minDist))
    features (None, given maxDistance).

Definition findNearestFeature (x y : Q) (features : list GeometricFeature)
           (maxDistance : Q) : option GeometricFeature :=
  fst (nearestLoop x y features maxDistance).

(** [within m d]: the real square root of [d] is less than [m]. *)
Definition within (m d : Q) : Prop := (sqrt (Q2R d) < Q2R m)%R.

(** What the loop has established after the features [seen]. *)
Definition nearestOf (x y m : Q) (seen : list GeometricFeature)
           (state : option GeometricFeature * Dist) : Prop :=
  match fst state with
  | None =>
      snd state = given m
      /\ Forall (fun g => atLeast m (distSqTo x y g)) seen
  | Some best =>
      snd state = root (distSqTo x y best)
      /\ within m (distSqTo x y best)
      /\ exists pre post,
          seen = pre ++ best :: post
          /\ Forall (fun g => distSqTo x y best < distSqTo x y g) pre
          /\ Forall (fun g => distSqTo x y best <= distSqTo x y g) post
  end.

End Snapping.

(** ** geometryDetection.ts: [findNearestFeature] in the arithmetic of the engine *)

Module NearestFeature.
Import JS GeometryDetection.

(** [Math.sqrt(dx * dx + dy * dy)] for the position [(x, y)] and a feature:
    the differences, the squares, their sum and the root are rounded. *)
Definition distTo (x y : Q) (feature : GeometricFeature) : Q :=
  let dx := subF x (f_x feature) in
  let dy := subF y (f_y feature) in
  Math_sqrt (addF (mulF dx dx) (mulF dy dy)).

(** The [for] loop with its two variables [nearest] and [minDist]. *)
Definition nearestLoop (x y : Q) (features : list GeometricFeature)
           (maxDistance : Q) : option GeometricFeature * Q :=
  fold_left
    (fun '(nearest, minDist) feature =>
       let dist := distTo x y feature in
       if Qltb dist minDist then (Some feature, dist) else (nearest, minDist))
    features (None, maxDistance).

Definition findNearestFeature (x y : Q) (features : list GeometricFeature)
           (maxDistance : Q) : option GeometricFeature :=
  fst (nearestLoop x y features maxDistance).

(** What the loop has established after the features [seen]. *)
Definition nearestOf (x y m : Q) (seen : list GeometricFeature)
           (state : option GeometricFeature * Q) : Prop :=
  match fst state with
  | None =>
      snd state = m /\ Forall (fun g => m <= distTo x y g) seen
  | Some best =>
      snd state = distTo x y best
      /\ distTo x y best < m
      /\ exists pre post,
          seen = pre ++ best :: post
          /\ Forall (fun g => distTo x y best < distTo x y g) pre
          /\ Forall (fun g => distTo x y best <= distTo x y g) post
  end.

(** The Euclidean distance, squared, for comparison. *)
Definition exactDistSq (x y : Q) (feature : GeometricFeature) : Q :=
  (x - f_x feature) * (x - f_x feature) + (y - f_y feature) * (y - f_y feature).

End NearestFeature.

(** ** geometryDetection.ts: where the detectors put their features *)

Module DetectionBounds.
Import JS GeometryDetection.

(** A feature at an integer pixel of the rectangle [[x0, x1) x [y0, y1)],
    both coordinates on the sampling grid [lo, lo + step, lo + 2 step, ...]. *)
Definition atPixel (x0 x1 y0 y1 lo step : Z) (fx fy : Q) : Prop :=
  exists x y : Z,
    fx = inject_Z x /\ fy = inject_Z y
    /\ (x0 <= x < x1)%Z /\ (y0 <= y < y1)%Z
    /\ ((x - lo) mod step = 0)%Z /\ ((y - lo) mod step = 0)%Z.

Definition cornerCandidate (w h : Z) (threshold : Q) (r : RawFeature) : Prop :=
  atPixel windowSize (w - windowSize) windowSize (h - windowSize) windowSize 2
    (r_x r) (r_y r)
  /\ threshold * 100 < r_confidence r * 1000000.

(** A curve point sampled on [edges]: a pixel of the image where the edge
    map is set. *)
Definition onEdge (edges : list Z) (w h : Z) (r : RawFeature) : Prop :=
  exists x y : Z,
    r_x r = inject_Z x /\ r_y r = inject_Z y
    /\ (0 <= x < w)%Z /\ (0 <= y < h)%Z
    /\ (x mod 5 = 0)%Z /\ (y mod 5 = 0)%Z
    /\ (0 < get 0%Z edges (y * w + x))%Z.

Definition curveCandidate (w h : Z) (r : RawFeature) : Prop :=
  atPixel 1 (w - 1) 1 (h - 1) 0 5 (r_x r) (r_y r)
  /\ 3 # 10 < r_confidence r /\ r_confidence r <= 1.

(** What is known of a feature that the detection returns. *)
Definition detectedFeature (w h : Z) (threshold : Q) (f : GeometricFeature) : Prop :=
  (f_type f = corner
   /\ cornerCandidate w h threshold (mkRaw (f_x f) (f_y f) (f_confidence f)))
  \/ (f_type f = curve
      /\ curveCandidate w h (mkRaw (f_x f) (f_y f) (f_confidence f))).

(** What is known of a point that [detectGeometricFeatures] resolves
    with. *)
Definition detectedPoint (threshold : Q) (p : Point2D) : Prop :=
  (0 <= p_x p /\ p_x p < 1) /\ (0 <= p_y p /\ p_y p < 1)
  /\ ((p_feature_type p = "center"%string
       /\ threshold * 100 < p_weight p * 1000000)
      \/ (p_feature_type p = "edge"%string
          /\ 3 # 10 < p_weight p /\ p_weight p <= 1)).


End DetectionBounds.

(** ** useAdjustPoints.ts: the points of [generateMockPoints] *)

Module MockBounds.

(** A point in the unit square with the given weight and one of the two
    feature types. *)
Definition mockPoint (weighting : Q) (p : Point2D) : Prop :=
  (0 <= p_x p /\ p_x p <= 1) /\ (0 <= p_y p /\ p_y p <= 1)
  /\ p_weight p = weighting
  /\ (p_feature_type p = "edge"%string \/ p_feature_type p = "center"%string).

End MockBounds.

(** ** The application store: every action on the points history *)

Module PointsHistory.
Import JS Store.

(** [reset] assigns the fields of the object [initialState]; [canUndo]
    and [canRedo] are not among them and keep their values. *)
Definition reset (s : AppState) : AppState :=
  mkState [] [] (-1) (canUndo s) (canRedo s).

(** What [goBack], [goForward] and [loadProjectData] do to these fields:
    they assign [adjustedPoints] and leave the points history alone. *)
Definition assignAdjustedPoints (points : list Point2D) (s : AppState) : AppState :=
  mkState points (pointsHistory s) (pointsHistoryIndex s) (canUndo s) (canRedo s).

(** The states that the actions of the store lead to from [initialState]. *)
Inductive Reachable : AppState -> Prop :=
| reach_initialState : Reachable initialState
| reach_setAdjustedPoints points s :
    Reachable s -> Reachable (setAdjustedPoints points s)
| reach_addPointsToHistory points s :
    Reachable s -> Reachable (addPointsToHistory points s)
| reach_undo s s' : Reachable s -> undo s = Resolved s' -> Reachable s'
| reach_redo s s' : Reachable s -> redo s = Resolved s' -> Reachable s'
| reach_clearPointsHistory s : Reachable s -> Reachable (clearPointsHistory s)
| reach_reset s : Reachable s -> Reachable (reset s)
| reach_assignAdjustedPoints points s :
    Reachable s -> Reachable (assignAdjustedPoints points s).

(** The history is empty with the index at -1, or the index is that of an
    entry and the two flags tell whether there is an entry before it and
    after it. *)
Definition HistoryOK (s : AppState) : Prop :=
  (pointsHistory s = [] /\ pointsHistoryIndex s = (-1)%Z)
  \/ ((0 <= pointsHistoryIndex s < Z.of_nat (length (pointsHistory s)))%Z
      /\ canUndo s = (0 <? pointsHistoryIndex s)%Z
      /\ canRedo s
         = (pointsHistoryIndex s <? Z.of_nat (length (pointsHistory s)) - 1)%Z).

End PointsHistory.

(** ** The application store: navigation between the steps, projects *)

(** The object that [getProjectData] returns and [loadProjectData] reads. *)
Module ProjectFile.

Record PatternAnalysis := mkPatternAnalysis
  { pattern_type : string;
    confidence : Q;
    symmetry_axes : Q;
    detected_points : list Point2D }.

Record ProjectData := mkProjectData
  { version : string;
    createdAt : string;
    currentStep : string;
    uploadedImage : option string;
    patternAnalysis : option PatternAnalysis;
    adjustedPoints : list Point2D;
    pointDensity : Q;
    detectionThreshold : Q;
    minimumSpacing : Q;
    weightingFactor : Q;
    frameCount : Q;
    lineWidth : Q;
    modelColor : string;
    modelColor2 : string;
    useGradient : bool }.

End ProjectFile.

Module AppStore.
Import JS GeometryDetection.

Section Store.
(** The [File] objects of the browser. *)
Variable File : Type.

(** The fields of the state that [setCurrentStep] copies into a history
    entry and that [goBack] and [goForward] assign from it. *)
Record StepData := mkStepData
  { uploadedImage : option string;
    uploadedImageFile : option File;
    imageId : option string;
    patternAnalysis : option ProjectFile.PatternAnalysis;
    adjustedPoints : list Point2D;
    pointDensity : Q;
    detectionThreshold : Q;
    minimumSpacing : Q;
    weightingFactor : Q;
    editMode : string;
    selectedTool : option string;
    geometricFeatures : list GeometricFeature;
    frameCount : Q;
    currentFrame : Q;
    lineWidth : Q }.

Record StepState := mkStepState { step : string; data : StepData }.

(** The fields of [AppState] that the navigation and the project actions
    read or write; [fields] holds the fifteen fields of [StepData]. *)
Record AppState := mkState
  { currentStep : string;
    fields : StepData;
    stepHistory : list StepState;
    currentHistoryIndex : Z;
    canGoBack : bool;
    canGoForward : bool;
    modelColor : string;
    modelColor2 : string;
    useGradient : bool }.

Definition initialFields : StepData :=
  mkStepData None None None None [] 50 100 5 1 "automatic" None [] 30 0 2.

Definition initialState : AppState :=
  mkState "upload" initialFields [] (-1) false false "#00CCCC" "#1560BD" false.

(** [stepHistory[i]]; reading outside the array gives [undefined]. *)
Definition entryAt (h : list StepState) (i : Z) : option StepState :=
  if (i <? 0)%Z then None else nth_error h (Z.to_nat i).

Definition addToHistory (state : StepState) (s : AppState) : AppState :=
  let newHistory := slice0 (stepHistory s) (currentHistoryIndex s + 1) ++ [state] in
  mkState (currentStep s) (fields s) newHistory
    (Z.of_nat (length newHistory) - 1)
    (1 <? Z.of_nat (length newHistory))%Z
    false
    (modelColor s) (modelColor2 s) (useGradient s).

Definition setCurrentStep (step : string) (s : AppState) : AppState :=
  let newStepState := mkStepState step (fields s) in
  addToHistory newStepState
    (mkState step (fields s) (stepHistory s) (currentHistoryIndex s)
       (canGoBack s) (canGoForward s) (modelColor s) (modelColor2 s) (useGradient s)).

(** Reading [step] of [undefined] raises a [TypeError]. *)
Definition goBack (s : AppState) : Outcome AppState :=
  if (0 <? currentHistoryIndex s)%Z then
    let newIndex := (currentHistoryIndex s - 1)%Z in
    match entryAt (stepHistory s) newIndex with
    | Some previousState =>
        Resolved (mkState (step previousState) (data previousState)
                    (stepHistory s) newIndex (0 <? newIndex)%Z true
                    (modelColor s) (modelColor2 s) (useGradient s))
    | None => Rejected "TypeError: previousState is undefined"
    end
  else Resolved s.

Definition goForward (s : AppState) : Outcome AppState :=
  if (currentHistoryIndex s <? Z.of_nat (length (stepHistory s)) - 1)%Z then
    let newIndex := (currentHistoryIndex s + 1)%Z in
    match entryAt (stepHistory s) newIndex with
    | Some nextState =>
        Resolved (mkState (step nextState) (data nextState)
                    (stepHistory s) newIndex true
                    (newIndex <? Z.of_nat (length (stepHistory s)) - 1)%Z
                    (modelColor s) (modelColor2 s) (useGradient s))
    | None => Rejected "TypeError: nextState is undefined"
    end
  else Resolved s.

(** The setters of single fields ([setPointDensity], [setImageId],
    [setModelColor], ...) assign fields outside the navigation history. *)
Definition sameHistory (s s' : AppState) : Prop :=
  stepHistory s' = stepHistory s
  /\ currentHistoryIndex s' = currentHistoryIndex s
  /\ canGoBack s' = canGoBack s
  /\ canGoForward s' = canGoForward s.

(** [reset] assigns the fields of the object [initialState]; [canGoBack]
    and [canGoForward] are not among them and keep their values. *)
Definition reset (s : AppState) : AppState :=
  mkState "upload" initialFields [] (-1) (canGoBack s) (canGoForward s)
    "#00CCCC" "#1560BD" false.

(** [getProjectData]; [now] is [new Date().toISOString()]. *)
Definition getProjectData (now : string) (s : AppState) : ProjectFile.ProjectData :=
  ProjectFile.mkProjectData "1.0.0" now
    (currentStep s)
    (uploadedImage (fields s))
    (patternAnalysis (fields s))
    (adjustedPoints (fields s))
    (pointDensity (fields s))
    (detectionThreshold (fields s))
    (minimumSpacing (fields s))
    (weightingFactor (fields s))
    (frameCount (fields s))
    (lineWidth (fields s))
    (modelColor s) (modelColor2 s) (useGradient s).

(** [a || b] on strings: the empty string is falsy. *)
Definition orElse (a b : string) : string :=
  if String.eqb a EmptyString then b else a.

Definition loadProjectData (d : ProjectFile.ProjectData) (s : AppState) : AppState :=
  mkState (ProjectFile.currentStep d)
    (mkStepData
       (ProjectFile.uploadedImage d)
       (uploadedImageFile (fields s))
       (imageId (fields s))
       (ProjectFile.patternAnalysis d)
       (ProjectFile.adjustedPoints d)
       (ProjectFile.pointDensity d)
       (ProjectFile.detectionThreshold d)
       (ProjectFile.minimumSpacing d)
       (ProjectFile.weightingFactor d)
       (editMode (fields s))
       (selectedTool (fields s))
       (geometricFeatures (fields s))
       (ProjectFile.frameCount d)
       (currentFrame (fields s))
       (ProjectFile.lineWidth d))
    (stepHistory s) (currentHistoryIndex s) (canGoBack s) (canGoForward s)
    (orElse (ProjectFile.modelColor d) "#00CCCC")
    (orElse (ProjectFile.modelColor2 d) "#1560BD")
    (ProjectFile.useGradient d || false).

(** The states that the actions of the store lead to from [initialState]. *)
Inductive Reachable : AppState -> Prop :=
| reach_initialState : Reachable initialState
| reach_setCurrentStep step s : Reachable s -> Reachable (setCurrentStep step s)
| reach_addToHistory state s : Reachable s -> Reachable (addToHistory state s)
| reach_goBack s s' : Reachable s -> goBack s = Resolved s' -> Reachable s'
| reach_goForward s s' : Reachable s -> goForward s = Resolved s' -> Reachable s'
| reach_loadProjectData d s : Reachable s -> Reachable (loadProjectData d s)
| reach_reset s : Reachable s -> Reachable (reset s)
| reach_setter s s' : Reachable s -> sameHistory s s' -> Reachable s'.

Definition HistoryOK (s : AppState) : Prop :=
  (stepHistory s = [] /\ currentHistoryIndex s = (-1)%Z)
  \/ ((0 <= currentHistoryIndex s < Z.of_nat (length (stepHistory s)))%Z
      /\ canGoBack s = (0 <? currentHistoryIndex s)%Z
      /\ canGoForward s
         = (currentHistoryIndex s <? Z.of_nat (length (stepHistory s)) - 1)%Z).

End Store.

End AppStore.

(** ** The 3D view: animation frames and zoom *)

Module View3D.
Import JS.

(** The frame that the animation loop passes to [setCurrentFrame]. *)
Definition nextFrame (currentFrame frameCount : Q) : Q :=
  if Qle_bool (frameCount - 1) currentFrame then 0 else currentFrame + 1.

(** [animationProgress] of the scene. *)
Definition animationProgress (currentFrame frameCount : Q) : Q :=
  currentFrame / Qmax 1 (frameCount - 1).

(** The scale along z that the scene sets from the animation progress. *)
Definition scaleZ (animationProgress : Q) : Q :=
  (5 # 100) + animationProgress * (95 # 100).

(** The frame after [ticks] runs of the interval callback. *)
Fixpoint frameAfter (ticks : nat) (currentFrame frameCount : Q) : Q :=
  match ticks with
  | O => currentFrame
  | S ticks' => frameAfter ticks' (nextFrame currentFrame frameCount) frameCount
  end.

Definition handleZoomIn (prev : Q) : Q := Qmin (prev + (2 # 10)) 3.

Definition handleZoomOut (prev : Q) : Q := Qmax (prev - (2 # 10)) (5 # 10).

(** [handleWheel] on an event with the given [deltaY]. *)
Definition handleWheel (zoom : Q) (deltaY : Q) : Q :=
  if Qltb deltaY 0 then handleZoomIn zoom else handleZoomOut zoom.

(** The distance of the camera that the scene sets from the zoom. *)
Definition cameraDistance (zoom : Q) : Q :=
  let baseDistance := 6 in
  baseDistance / zoom.

End View3D.

(** ** The adjust section: adding and deleting points by hand *)

Module AdjustSection.
Import JS GeometryDetection Snapping.


(** [a.filter((_, i) => keep(i))], the positions counted from [i]. *)
Fixpoint filterFrom {A : Type} (keep : Z -> bool) (i : Z) (a : list A) : list A :=
  match a with
  | [] => []
  | v :: rest =>
      if keep i then v :: filterFrom keep (i + 1) rest
      else filterFrom keep (i + 1) rest
  end.

Definition toolIs (selectedTool : option string) (tool : string) : bool :=
  match selectedTool with
  | Some t => String.eqb t tool
  | None => false
  end.


Definition handleDeletePoint (editMode : string) (selectedTool : option string)
           (index : Z) (adjustedPoints : list Point2D) : option (list Point2D) :=
  if negb (String.eqb editMode "manual") || negb (toolIs selectedTool "delete")
  then None
  else
    let newPoints := filterFrom (fun i => negb (i =? index)%Z) 0 adjustedPoints in
    Some newPoints.

(** The effect of a handler on the store. *)
Definition dispatch (points : option (list Point2D)) (s : Store.AppState)
  : Store.AppState :=
  match points with
  | Some newPoints => Store.setAdjustedPoints newPoints s
  | None => s
  end.


End AdjustSection.

(** ** Bounding boxes of the mock meshes *)

Module MeshBounds.
Import JS Mesh.

Definition inBox (box : Q * Q * Q * Q * Q * Q) (v : Vec3) : Prop :=
  let '(minX, minY, minZ, maxX, maxY, maxZ) := box in
  let '(x, y, z) := v in
  (minX <= x /\ x <= maxX) /\ (minY <= y /\ y <= maxY) /\ (minZ <= z /\ z <= maxZ).

(** The three indices of a face are different. *)
Definition properFace (f : Face) : Prop :=
  let '(a, b, c) := f in a <> b /\ b <> c /\ c <> a.

(** The sides of a face in the order of its indices. *)
Definition directedEdges (f : Face) : list (Z * Z) :=
  let '(a, b, c) := f in [(a, b); (b, c); (c, a)].

(** The number of different directed sides of the faces. *)
Definition directedEdgeCount (fs : list Face) : nat :=
  EdgeSet.cardinal
    (fold_left (fun s e => EdgeSet.add e s) (flat_map directedEdges fs) EdgeSet.empty).

End MeshBounds.

(** ** CymaticGeometry.tsx: the edges of the wireframe, the visible lines *)

Module CymaticGeometry.
Import JS Mesh.

(** The text of an integer in a template literal. *)
Definition numberToString (v : Z) : string := NilZero.string_of_int (Z.to_int v).

Definition edgeKey (v1 v2 : Z) : string :=
  String.append (numberToString v1) (String "-" (numberToString v2)).

(** The inner [forEach] of the [edges] memo; the [Set] of keys is the list
    of the keys added, read by membership only. *)
Definition addEdge (state : list string * list (Z * Z)) (e : Z * Z)
  : list string * list (Z * Z) :=
  let '(edgeSet, edgeList) := state in
  let '(v1, v2) := e in
  let key := edgeKey v1 v2 in
  if negb (existsb (String.eqb key) edgeSet)
  then (key :: edgeSet, edgeList ++ [(v1, v2)])
  else (edgeSet, edgeList).

Definition edges (faces : list Face) : list (Z * Z) :=
  snd (fold_left
         (fun state '(a, b, c) =>
            let edges :=
              [(Z.min a b, Z.max a b); (Z.min b c, Z.max b c); (Z.min c a, Z.max c a)] in
            fold_left addEdge edges state)
         faces ([], [])).

(** The lines shown in the render mode "lines". *)
Definition visibleLineCount (lines : Z) (animationProgress : Q) : Z :=
  Math_floor (inject_Z lines * animationProgress).

Definition visibleLines {Line : Type} (cymaticLines : list Line)
           (animationProgress : Q) : list Line :=
  slice0 cymaticLines
    (visibleLineCount (Z.of_nat (length cymaticLines)) animationProgress).

(** The keys in the set are those of the edges in the list. *)
Definition keysOf (state : list string * list (Z * Z)) : Prop :=
  forall v1 v2,
    existsb (String.eqb (edgeKey v1 v2)) (fst state) = true <-> In (v1, v2) (snd state).

(** No character of the string is a minus sign. *)
Fixpoint noDash (s : string) : Prop :=
  match s with
  | EmptyString => True
  | String c s' => c <> "-"%char /\ noDash s'
  end.

End CymaticGeometry.

(** ** The hooks of the model preview and of the model parameters *)

Module ModelHooks.
Import JS Mesh.

Section Hooks.
Variables Math_cos Math_sin : Q -> Q.

(** The [queryFn] of [useModelPreview]: the API answers with a preview or
    fails; [now] is [Date.now()] as text. *)
Definition previewQueryFn {Preview : Type} (modelId : option string)
           (api : Outcome Preview) (now : string) : Outcome (Generated Preview) :=
  if negb (truthy modelId) then Rejected "No model ID provided"
  else
    match api with
    | Resolved preview => Resolved (FromApi preview)
    | Rejected _ =>
        Resolved (FromMock Preview (generateMockModel Math_cos Math_sin now "sphere"))
    end.

(** The [mutationFn] of [useUpdateModelParams]: the error of the API is
    thrown again. *)
Definition updateMutationFn {Response : Type} (modelId : option string)
           (api : Outcome Response) : Outcome Response :=
  if negb (truthy modelId) then Rejected "No model ID provided"
  else
    match api with
    | Resolved result => Resolved result
    | Rejected error => Rejected error
    end.
End Hooks.

End ModelHooks.

(** ** The adjust section: the points shown and their statistics *)

Module PointStatistics.
Import JS.

(** [displayPoints]; [detected_points] is [patternAnalysis?.detected_points],
    an array (truthy) unless [patternAnalysis] is [null]. *)
Definition displayPoints (editMode : string) (adjustedPoints points : list Point2D)
           (detected_points : option (list Point2D)) : list Point2D :=
  if String.eqb editMode "manual" then adjustedPoints
  else if (0 <? Z.of_nat (length points))%Z then points
       else match detected_points with
            | Some detected => detected
            | None => adjustedPoints
            end.

Definition edgePoints (displayPoints : list Point2D) : nat :=
  length (filter (fun p => String.eqb (p_feature_type p) "edge") displayPoints).

Definition centerPoints (displayPoints : list Point2D) : nat :=
  length (filter (fun p => String.eqb (p_feature_type p) "center") displayPoints).

Definition totalPoints (displayPoints : list Point2D) : nat := length displayPoints.

(** A point of one of the two types that the statistics count. *)
Definition counted (p : Point2D) : Prop :=
  p_feature_type p = "edge"%string \/ p_feature_type p = "center"%string.

End PointStatistics.

(** * Properties *)

(** ** Loops, comparisons and square roots *)

Module JSFacts.
Import JS.

Lemma Qltb_lt (a b : Q) : Qltb a b = true <-> a < b.
Proof.
  unfold Qltb. rewrite negb_true_iff. split; intros H.
  - apply Qnot_le_lt. intros Hle. apply Qle_bool_iff in Hle. congruence.
  - destruct (Qle_bool b a) eqn:E; [|reflexivity].
    apply Qle_bool_iff in E. exfalso. apply (Qlt_not_le _ _ H E).
Qed.

Lemma Qltb_ge (a b : Q) : Qltb a b = false <-> b <= a.
Proof.
  unfold Qltb. rewrite negb_false_iff. apply Qle_bool_iff.
Qed.

Lemma sq_le_atLeast (m d : Q) : m * m <= d -> atLeast m d.
Proof.
  intros H. unfold atLeast.
  apply Qle_Rle in H. rewrite Q2R_mult in H.
  apply Rle_trans with (Rabs (Q2R m)); [apply Rle_abs|].
  rewrite <- sqrt_Rsqr_abs. apply sqrt_le_1_alt. unfold Rsqr. exact H.
Qed.



Lemma sqrt_ltb_true (s t : Q) : 0 <= s -> sqrt_ltb s t = true -> (sqrt (Q2R s) < Q2R t)%R.
Proof.
  unfold sqrt_ltb. intros Hs H. apply andb_true_iff in H. destruct H as [H1 H2].
  apply Qltb_lt in H1, H2. apply Qlt_Rlt in H1, H2. rewrite Q2R_mult in H2.
  replace (Q2R 0) with 0%R in H1 by (unfold Q2R; simpl; lra).
  rewrite <- (sqrt_square (Q2R t)) by lra.
  apply sqrt_lt_1_alt. split; [|exact H2].
  apply Qle_Rle in Hs. replace (Q2R 0) with 0%R in Hs by (unfold Q2R; simpl; lra). exact Hs.
Qed.

Lemma Q2R_0 : Q2R 0 = 0%R.
Proof. unfold Q2R. simpl. lra. Qed.


Lemma sqrt_gtb_spec (s t : Q) :
  0 <= s -> (sqrt_gtb s t = true <-> (Q2R t < sqrt (Q2R s))%R).
Proof.
  intros Hs. apply Qle_Rle in Hs. rewrite Q2R_0 in Hs.
  pose proof (sqrt_pos (Q2R s)) as Hpos.
  unfold sqrt_gtb. rewrite orb_true_iff, !Qltb_lt. split.
  - intros [H|H]; apply Qlt_Rlt in H.
    + rewrite Q2R_0 in H. lra.
    + rewrite Q2R_mult in H.
      destruct (Rlt_le_dec (Q2R t) 0) as [Hneg|Hnn]; [lra|].
      rewrite <- (sqrt_square (Q2R t)) by assumption.
      apply sqrt_lt_1_alt. split; [|assumption].
      apply Rmult_le_pos; assumption.
  - intros H. destruct (Qlt_le_dec t 0) as [Hneg|Hnn]; [now left|right].
    apply Rlt_Qlt. rewrite Q2R_mult.
    apply Qle_Rle in Hnn. rewrite Q2R_0 in Hnn.
    rewrite <- (sqrt_sqrt (Q2R s)) by assumption.
    apply Rmult_le_0_lt_compat; assumption.
Qed.

Lemma for_steps_ind {S : Type} (P : S -> Prop) (hi step : Z) (body : Z -> S -> S) :
  (0 < step)%Z ->
  forall n i s lo,
    (lo <= i)%Z ->
    (Z.of_nat n <= (hi - i + step - 1) / step)%Z ->
    (forall j t, (lo <= j < hi)%Z -> P t -> P (body j t)) ->
    P s -> P (for_steps n i step body s).
Proof.
  intros Hstep n. induction n as [|n IH]; intros i s lo Hlo Hn Hbody Hs; simpl.
  - exact Hs.
  - assert (Hi : (i < hi)%Z).
    { destruct (Z_lt_ge_dec i hi) as [|Hge]; [assumption|exfalso].
      assert ((hi - i + step - 1) / step <= 0)%Z.
      { apply Z.lt_succ_r. apply Z.div_lt_upper_bound; lia. }
      lia. }
    apply IH with (lo := lo).
    + lia.
    + replace (hi - (i + step) + step - 1)%Z with ((hi - i + step - 1) + (-1) * step)%Z by ring.
      rewrite Z.div_add by lia. lia.
    + exact Hbody.
    + apply Hbody; [lia | exact Hs].
Qed.

Lemma for_range_ind {S : Type} (P : S -> Prop) (lo hi step : Z) (body : Z -> S -> S) (s : S) :
  (0 < step)%Z ->
  (forall j t, (lo <= j < hi)%Z -> P t -> P (body j t)) ->
  P s -> P (for_range lo hi step body s).
Proof.
  intros Hstep Hbody Hs. unfold for_range.
  destruct (Z_lt_ge_dec ((hi - lo + step - 1) / step) 0)%Z as [Hneg|Hpos].
  - destruct ((hi - lo + step - 1) / step)%Z; try lia. exact Hs.
  - apply for_steps_ind with (hi := hi) (lo := lo); try assumption; lia.
Qed.

(** [for_range] runs as the [for] statement does: it stops when the test
    [i < hi] fails and otherwise runs the body and goes on from [i + step]. *)
Lemma for_range_done {S : Type} (lo hi step : Z) (body : Z -> S -> S) (s : S) :
  (0 < step)%Z -> (hi <= lo)%Z -> for_range lo hi step body s = s.
Proof.
  intros Hstep Hle. unfold for_range.
  assert (H : ((hi - lo + step - 1) / step <= 0)%Z).
  { apply Z.lt_succ_r. apply Z.div_lt_upper_bound; lia. }
  destruct ((hi - lo + step - 1) / step)%Z; try lia; reflexivity.
Qed.

Lemma for_range_step {S : Type} (lo hi step : Z) (body : Z -> S -> S) (s : S) :
  (0 < step)%Z -> (lo < hi)%Z ->
  for_range lo hi step body s = for_range (lo + step) hi step body (body lo s).
Proof.
  intros Hstep Hlt. unfold for_range.
  replace (hi - (lo + step) + step - 1)%Z with ((hi - lo + step - 1) + (-1) * step)%Z by ring.
  rewrite Z.div_add by lia.
  assert (H : (1 <= (hi - lo + step - 1) / step)%Z).
  { apply Z.div_le_lower_bound; lia. }
  replace (Z.to_nat ((hi - lo + step - 1) / step))
    with (Datatypes.S (Z.to_nat ((hi - lo + step - 1) / step + -1))) by lia.
  reflexivity.
Qed.

Lemma for_range_ext {S : Type} (lo hi step : Z) (f g : Z -> S -> S) (s : S) :
  (forall j t, f j t = g j t) ->
  for_range lo hi step f s = for_range lo hi step g s.
Proof.
  intros Hfg. unfold for_range.
  generalize (Z.to_nat ((hi - lo + step - 1) / step)) as n.
  intros n. revert lo s. induction n as [|n IH]; intros lo s; simpl.
  - reflexivity.
  - rewrite Hfg. apply IH.
Qed.

End JSFacts.

(** ** Rounding to doubles *)

Unset Implicit Arguments.

Module FloatFacts.
Import JS.

Lemma pow2_pos e : 0 < 2 ^ e.
Proof. apply Qpower_0_lt. reflexivity. Qed.

Lemma pow2_le a b : (a <= b)%Z -> 2 ^ a <= 2 ^ b.
Proof. intros H. apply Qpower_le_compat_l; [exact H|discriminate]. Qed.

Lemma pow2_lt a b : (a < b)%Z -> 2 ^ a < 2 ^ b.
Proof. intros H. apply Qpower_lt_compat_l; [exact H|reflexivity]. Qed.

Lemma pow2_add a b : 2 ^ (a + b) == 2 ^ a * 2 ^ b.
Proof. apply Qpower_plus. discriminate. Qed.

Lemma pow2_sub a b : 2 ^ (a - b) == 2 ^ a / 2 ^ b.
Proof. apply Qpower_minus. discriminate. Qed.

Lemma pow2_Z n : (0 <= n)%Z -> 2 ^ n == inject_Z (2 ^ n).
Proof. intros H. symmetry. exact (Zpower_Qpower 2 n H). Qed.

Lemma Qmake_div n d : n # d == inject_Z n / inject_Z (Zpos d).
Proof. apply Qmake_Qdiv. Qed.

Lemma log2_bounds (n : Z) : (0 < n)%Z ->
  2 ^ Z.log2 n <= inject_Z n /\ inject_Z n < 2 ^ (Z.log2 n + 1).
Proof.
  intros Hn. destruct (Z.log2_spec n Hn) as [H1 H2].
  pose proof (Z.log2_nonneg n) as H0.
  split.
  - rewrite pow2_Z by lia. rewrite <- Zle_Qle. exact H1.
  - rewrite pow2_Z by lia. rewrite <- Zlt_Qlt. replace (Z.log2 n + 1)%Z with (Z.succ (Z.log2 n)) by lia. exact H2.
Qed.

Lemma Qdiv_lt_le a a' b b' :
  0 < a -> a < a' -> 0 < b' -> b' <= b -> a / b < a' / b'.
Proof.
  intros Ha Haa Hb' Hbb.
  assert (Hb : 0 < b) by lra.
  apply Qlt_shift_div_l; [exact Hb'|].
  assert (E : a / b * b' == a * (b' / b)) by (field; lra).
  rewrite E.
  assert (T : b' / b <= 1) by (apply Qle_shift_div_r; lra).
  assert (T0 : 0 < b' / b) by (apply Qlt_shift_div_l; lra).
  apply Qle_lt_trans with (a * 1); [|lra].
  apply Qmult_le_l; assumption.
Qed.

Lemma Qdiv_le_lt a a' b b' :
  0 < a -> a <= a' -> 0 < b' -> b' < b -> a / b < a' / b'.
Proof.
  intros Ha Haa Hb' Hbb.
  assert (Hb : 0 < b) by lra.
  apply Qlt_shift_div_l; [exact Hb'|].
  assert (E : a / b * b' == a * (b' / b)) by (field; lra).
  rewrite E.
  assert (T : b' / b < 1) by (apply Qlt_shift_div_r; lra).
  apply Qlt_le_trans with (a * 1); [|lra].
  apply Qmult_lt_l; assumption.
Qed.

Lemma binade_spec q : 0 < q -> 2 ^ binade q <= q /\ q < 2 ^ (binade q + 1).
Proof.
  intros Hq. destruct q as [n d]. unfold binade. cbn [Qnum Qden].
  assert (Hn : (0 < n)%Z).
  { unfold Qlt in Hq. simpl in Hq. lia. }
  destruct (log2_bounds n Hn) as [N1 N2].
  destruct (log2_bounds (Zpos d) eq_refl) as [D1 D2].
  set (ln := Z.log2 n) in *. set (ld := Z.log2 (Zpos d)) in *.
  assert (Hd : 0 < inject_Z (Zpos d)) by reflexivity.
  assert (Hn' : 0 < inject_Z n) by (change 0 with (inject_Z 0); now rewrite <- Zlt_Qlt).
  assert (E : n # d == inject_Z n / inject_Z (Zpos d)) by apply Qmake_div.
  assert (Up : n # d < 2 ^ (ln - ld + 1)).
  { rewrite E. replace (ln - ld + 1)%Z with ((ln + 1) - ld)%Z by lia.
    rewrite pow2_sub. apply Qdiv_lt_le; try assumption. apply pow2_pos. }
  assert (Lo : 2 ^ (ln - ld - 1) < n # d).
  { rewrite E. replace (ln - ld - 1)%Z with (ln - (ld + 1))%Z by lia.
    rewrite pow2_sub.
    apply Qdiv_le_lt; try assumption. apply pow2_pos. }
  destruct (Qle_bool (2 ^ (ln - ld)) (n # d)) eqn:B.
  - apply Qle_bool_iff in B. split; assumption.
  - assert (B' : n # d < 2 ^ (ln - ld)).
    { apply Qnot_le_lt. intros H. apply Qle_bool_iff in H. congruence. }
    split.
    + apply Qlt_le_weak. exact Lo.
    + replace (ln - ld - 1 + 1)%Z with (ln - ld)%Z by lia. exact B'.
Qed.

Lemma binade_unique q e : 2 ^ e <= q -> q < 2 ^ (e + 1) -> binade q = e.
Proof.
  intros L U.
  assert (Hq : 0 < q) by (apply Qlt_le_trans with (2 := L); apply pow2_pos).
  destruct (binade_spec q Hq) as [L' U'].
  assert (H1 : (binade q < e + 1)%Z).
  { apply Qpower_lt_compat_l_inv with (q := 2); [|reflexivity].
    apply Qle_lt_trans with (1 := L'). exact U. }
  assert (H2 : (e < binade q + 1)%Z).
  { apply Qpower_lt_compat_l_inv with (q := 2); [|reflexivity].
    apply Qle_lt_trans with (1 := L). exact U'. }
  lia.
Qed.

Lemma binade_mono a b : 0 < a -> a <= b -> (binade a <= binade b)%Z.
Proof.
  intros Ha Hab.
  assert (Hb : 0 < b) by (apply Qlt_le_trans with (1 := Ha); exact Hab).
  destruct (binade_spec a Ha) as [La Ua]. destruct (binade_spec b Hb) as [Lb Ub].
  assert (H : (binade a < binade b + 1)%Z).
  { apply Qpower_lt_compat_l_inv with (q := 2); [|reflexivity].
    apply Qle_lt_trans with (1 := La). apply Qle_lt_trans with (1 := Hab). exact Ub. }
  lia.
Qed.

(** Rounding to the nearest integer. *)
Lemma roundTiesEven_cases q :
  roundTiesEven q = Qfloor q \/ roundTiesEven q = (Qfloor q + 1)%Z.
Proof.
  unfold roundTiesEven.
  destruct (Qcompare (q - inject_Z (Qfloor q)) (1 # 2)); auto.
  destruct (Z.even (Qfloor q)); auto.
Qed.

Lemma roundTiesEven_Z k : roundTiesEven (inject_Z k) = k.
Proof.
  unfold roundTiesEven. rewrite Qfloor_Z.
  assert (E : inject_Z k - inject_Z k == 0) by ring.
  destruct (Qcompare_spec (inject_Z k - inject_Z k) (1 # 2)) as [H|H|H].
  - rewrite E in H. discriminate H.
  - reflexivity.
  - rewrite E in H. discriminate H.
Qed.

Lemma roundTiesEven_mono a b : a <= b -> (roundTiesEven a <= roundTiesEven b)%Z.
Proof.
  intros Hab. pose proof (Qfloor_resp_le _ _ Hab) as Hf.
  destruct (Z.eq_dec (Qfloor a) (Qfloor b)) as [E|N].
  - unfold roundTiesEven. rewrite E.
    assert (Hfrac : a - inject_Z (Qfloor b) <= b - inject_Z (Qfloor b)) by lra.
    destruct (Qcompare_spec (a - inject_Z (Qfloor b)) (1 # 2)) as [Ha|Ha|Ha];
      destruct (Qcompare_spec (b - inject_Z (Qfloor b)) (1 # 2)) as [Hb|Hb|Hb];
      try lia; try (destruct (Z.even (Qfloor b)); lia);
      try (rewrite Ha in Hfrac); try (rewrite Hb in Hfrac); try lra.
  - destruct (roundTiesEven_cases a) as [->| ->];
      destruct (roundTiesEven_cases b) as [->| ->]; lia.
Qed.

Lemma roundTiesEven_ge (k : Z) q : inject_Z k <= q -> (k <= roundTiesEven q)%Z.
Proof. intros H. rewrite <- (roundTiesEven_Z k). now apply roundTiesEven_mono. Qed.

Lemma roundTiesEven_le (k : Z) q : q <= inject_Z k -> (roundTiesEven q <= k)%Z.
Proof. intros H. rewrite <- (roundTiesEven_Z k). now apply roundTiesEven_mono. Qed.

(** Rounding of positive numbers. *)
Lemma roundPositive_eq q :
  roundPositive q == inject_Z (roundTiesEven (q / 2 ^ ulpExponent q)) * 2 ^ ulpExponent q.
Proof. unfold roundPositive. apply Qred_correct. Qed.

Lemma roundPositive_nonneg q : 0 <= q -> 0 <= roundPositive q.
Proof.
  intros Hq. rewrite roundPositive_eq. apply Qmult_le_0_compat.
  - change 0 with (inject_Z 0). rewrite <- Zle_Qle. apply roundTiesEven_ge.
    apply Qle_shift_div_l; [apply pow2_pos|]. now rewrite Qmult_0_l.
  - apply Qlt_le_weak, pow2_pos.
Qed.

Lemma roundPositive_lower q : 0 < q -> (-1022 <= binade q)%Z -> 2 ^ binade q <= roundPositive q.
Proof.
  intros Hq Hn. destruct (binade_spec q Hq) as [L _].
  rewrite roundPositive_eq. unfold ulpExponent.
  replace (Z.max (binade q - 52) (-1074)) with (binade q - 52)%Z by lia.
  set (u := (binade q - 52)%Z).
  assert (E : 2 ^ binade q == inject_Z (2 ^ 52) * 2 ^ u).
  { replace (binade q) with (52 + u)%Z at 1 by (unfold u; lia).
    rewrite pow2_add. now rewrite (pow2_Z 52). }
  rewrite E. apply Qmult_le_compat_r; [|apply Qlt_le_weak, pow2_pos].
  rewrite <- Zle_Qle. apply roundTiesEven_ge.
  apply Qle_shift_div_l; [apply pow2_pos|]. rewrite <- E. exact L.
Qed.

Lemma roundPositive_upper q e :
  0 < q -> q <= 2 ^ e -> (ulpExponent q <= e)%Z -> roundPositive q <= 2 ^ e.
Proof.
  intros Hq U Hu. rewrite roundPositive_eq. set (u := ulpExponent q) in *.
  assert (E : 2 ^ e == inject_Z (2 ^ (e - u)) * 2 ^ u).
  { replace e with ((e - u) + u)%Z at 1 by lia.
    rewrite pow2_add. now rewrite (pow2_Z (e - u)) by lia. }
  rewrite E. apply Qmult_le_compat_r; [|apply Qlt_le_weak, pow2_pos].
  rewrite <- Zle_Qle. apply roundTiesEven_le.
  apply Qle_shift_div_r; [apply pow2_pos|]. rewrite <- E. exact U.
Qed.

Lemma roundPositive_mono a b : 0 < a -> a <= b -> roundPositive a <= roundPositive b.
Proof.
  intros Ha Hab.
  assert (Hb : 0 < b) by (apply Qlt_le_trans with (1 := Ha); exact Hab).
  pose proof (binade_mono a b Ha Hab) as He.
  destruct (Z.eq_dec (ulpExponent a) (ulpExponent b)) as [E|N].
  - rewrite !roundPositive_eq. rewrite E.
    apply Qmult_le_compat_r; [|apply Qlt_le_weak, pow2_pos].
    rewrite <- Zle_Qle. apply roundTiesEven_mono.
    apply Qmult_le_compat_r; [exact Hab|].
    apply Qlt_le_weak, Qinv_lt_0_compat, pow2_pos.
  - assert (Hlt : (binade a < binade b)%Z /\ (-1022 <= binade b)%Z).
    { unfold ulpExponent in N. lia. }
    destruct Hlt as [Hlt Hnorm].
    apply Qle_trans with (2 ^ binade b); [|now apply roundPositive_lower].
    destruct (binade_spec a Ha) as [_ Ua].
    apply roundPositive_upper; [exact Ha| |unfold ulpExponent; lia].
    apply Qlt_le_weak. apply Qlt_le_trans with (1 := Ua). apply pow2_le. lia.
Qed.

(** Rounding is monotone and keeps the sign. *)
Lemma fl_cases q :
  (q == 0 /\ fl q = 0) \/ (0 < q /\ fl q = roundPositive q)
  \/ (q < 0 /\ fl q = - roundPositive (- q)).
Proof.
  destruct q as [n d]. unfold fl. cbn [Qnum]. destruct n as [|p|p].
  - left. split; reflexivity.
  - right. left. split; reflexivity.
  - right. right. split; reflexivity.
Qed.

Lemma fl_nonneg q : 0 <= q -> 0 <= fl q.
Proof.
  intros Hq. destruct (fl_cases q) as [[_ ->]|[[H ->]|[H _]]].
  - apply Qle_refl.
  - now apply roundPositive_nonneg.
  - lra.
Qed.

Lemma fl_nonpos q : q <= 0 -> fl q <= 0.
Proof.
  intros Hq. destruct (fl_cases q) as [[_ ->]|[[H _]|[H ->]]].
  - apply Qle_refl.
  - lra.
  - assert (0 <= roundPositive (- q)) by (apply roundPositive_nonneg; lra). lra.
Qed.

Lemma fl_mono a b : a <= b -> fl a <= fl b.
Proof.
  intros Hab.
  destruct (fl_cases a) as [[Ha Ea]|[[Ha Ea]|[Ha Ea]]].
  - rewrite Ea. apply fl_nonneg. lra.
  - destruct (fl_cases b) as [[Hb Eb]|[[Hb Eb]|[Hb Eb]]]; try lra.
    rewrite Ea, Eb. now apply roundPositive_mono.
  - destruct (fl_cases b) as [[Hb Eb]|[[Hb Eb]|[Hb Eb]]].
    + rewrite Eb. apply fl_nonpos. lra.
    + apply Qle_trans with 0; [apply fl_nonpos; lra|apply fl_nonneg; lra].
    + rewrite Ea, Eb.
      assert (roundPositive (- b) <= roundPositive (- a)) by (apply roundPositive_mono; lra).
      lra.
Qed.

Lemma Math_sqrt_nonneg q : 0 <= Math_sqrt q.
Proof.
  unfold Math_sqrt. destruct (Qnum q); try apply Qle_refl.
  unfold sqrtPositive. rewrite Qred_correct.
  apply Qmult_le_0_compat; [|apply Qlt_le_weak, pow2_pos].
  change 0 with (inject_Z 0). rewrite <- Zle_Qle.
  pose proof (Z.sqrt_nonneg (Qfloor (q / 2 ^ (2 * Z.max (binade q / 2 - 52) (-1074))))).
  destruct (match _ with Lt => _ | _ => _ end); lia.
Qed.

(** The operations respect the equality of rationals. *)
Lemma binade_comp a b : 0 < a -> a == b -> binade a = binade b.
Proof.
  intros Ha E. destruct (binade_spec a Ha) as [L U].
  symmetry. apply binade_unique; rewrite <- E; assumption.
Qed.

Lemma roundTiesEven_comp a b : a == b -> roundTiesEven a = roundTiesEven b.
Proof.
  intros E. apply Z.le_antisymm; apply roundTiesEven_mono; rewrite E; apply Qle_refl.
Qed.

Lemma roundPositive_comp a b : 0 < a -> a == b -> roundPositive a = roundPositive b.
Proof.
  intros Ha E. unfold roundPositive, ulpExponent.
  rewrite (binade_comp a b Ha E).
  rewrite (roundTiesEven_comp (a / 2 ^ Z.max (binade b - 52) (-1074))
             (b / 2 ^ Z.max (binade b - 52) (-1074))); [reflexivity|].
  now rewrite E.
Qed.

Lemma fl_eq a b : a == b -> fl a = fl b.
Proof.
  intros E.
  destruct (fl_cases a) as [[Ha Ea]|[[Ha Ea]|[Ha Ea]]];
    destruct (fl_cases b) as [[Hb Eb]|[[Hb Eb]|[Hb Eb]]];
    rewrite Ea, Eb; try reflexivity; try (exfalso; lra).
  - now apply roundPositive_comp.
  - f_equal. apply roundPositive_comp; [lra|now rewrite E].
Qed.

Lemma Math_sqrt_cases q :
  (q <= 0 /\ Math_sqrt q = 0) \/ (0 < q /\ Math_sqrt q = sqrtPositive q).
Proof.
  destruct q as [n d]. unfold Math_sqrt. cbn [Qnum]. destruct n as [|p|p].
  - left. split; [unfold Qle; simpl; lia|reflexivity].
  - right. split; reflexivity.
  - left. split; [discriminate|reflexivity].
Qed.

Lemma sqrtPositive_comp a b : 0 < a -> a == b -> sqrtPositive a = sqrtPositive b.
Proof.
  intros Ha E. unfold sqrtPositive.
  rewrite (binade_comp a b Ha E).
  set (u := Z.max (binade b / 2 - 52) (-1074)).
  assert (Es : a / 2 ^ (2 * u) == b / 2 ^ (2 * u)) by now rewrite E.
  rewrite (Qfloor_comp _ _ Es).
  set (m := Z.sqrt (Qfloor (b / 2 ^ (2 * u)))).
  assert (Ec : Qcompare ((2 * inject_Z m + 1) * (2 * inject_Z m + 1)) (4 * (a / 2 ^ (2 * u)))
               = Qcompare ((2 * inject_Z m + 1) * (2 * inject_Z m + 1)) (4 * (b / 2 ^ (2 * u)))).
  { apply Qcompare_comp; [reflexivity|now rewrite Es]. }
  rewrite Ec. reflexivity.
Qed.

Lemma Math_sqrt_eq a b : a == b -> Math_sqrt a = Math_sqrt b.
Proof.
  intros E.
  destruct (Math_sqrt_cases a) as [[Ha Ea]|[Ha Ea]];
    destruct (Math_sqrt_cases b) as [[Hb Eb]|[Hb Eb]];
    rewrite Ea, Eb; try reflexivity; try (exfalso; lra).
  now apply sqrtPositive_comp.
Qed.

(** [fl] rounds to a nearest double: the error is at most half a unit in
    the last place. *)
Lemma roundTiesEven_near q : Qabs (inject_Z (roundTiesEven q) - q) <= 1 # 2.
Proof.
  pose proof (Qfloor_le q) as L. pose proof (Qlt_floor q) as U.
  rewrite inject_Z_plus in U. change (inject_Z 1) with 1 in U.
  apply Qabs_Qle_condition. unfold roundTiesEven.
  destruct (Qcompare_spec (q - inject_Z (Qfloor q)) (1 # 2)) as [H|H|H].
  - destruct (Z.even (Qfloor q)).
    + split; lra.
    + rewrite inject_Z_plus. change (inject_Z 1) with 1. split; lra.
  - split; lra.
  - rewrite inject_Z_plus. change (inject_Z 1) with 1. split; lra.
Qed.

Lemma roundPositive_near q :
  Qabs (roundPositive q - q) <= (1 # 2) * 2 ^ ulpExponent q.
Proof.
  rewrite roundPositive_eq. set (u := ulpExponent q).
  pose proof (pow2_pos u) as Hu.
  assert (E : inject_Z (roundTiesEven (q / 2 ^ u)) * 2 ^ u - q
              == (inject_Z (roundTiesEven (q / 2 ^ u)) - q / 2 ^ u) * 2 ^ u)
    by (field; lra).
  rewrite E, Qabs_Qmult, (Qabs_pos (2 ^ u)) by lra.
  apply Qmult_le_compat_r; [apply roundTiesEven_near|lra].
Qed.

Lemma fl_near q : Qabs (fl q - q) <= (1 # 2) * 2 ^ ulpExponent (Qabs q).
Proof.
  destruct q as [[|p|p] d]; unfold fl; cbn [Qnum].
  - assert (E : 0 - (0 # d) == 0) by reflexivity. rewrite E.
    apply Qmult_le_0_compat; [discriminate|apply Qlt_le_weak, pow2_pos].
  - change (Qabs (Z.pos p # d)) with (Z.pos p # d). apply roundPositive_near.
  - change (Qabs (Z.neg p # d)) with (Z.pos p # d).
    change (- (Z.neg p # d)) with (Z.pos p # d).
    assert (E : - roundPositive (Z.pos p # d) - (Z.neg p # d)
                == - (roundPositive (Z.pos p # d) - (Z.pos p # d))).
    { assert (N : Z.neg p # d == - (Z.pos p # d)) by reflexivity. rewrite N. ring. }
    rewrite E, Qabs_opp. apply roundPositive_near.
Qed.

(** [fl q] is a double: a multiple of [2 ^ u], for an exponent [u] that is
    not below -1074, by an integer of at most 53 bits. *)
Lemma roundPositive_grid q :
  0 < q -> (0 <= roundTiesEven (q / 2 ^ ulpExponent q) <= 2 ^ 53)%Z.
Proof.
  intros Hq. destruct (binade_spec q Hq) as [_ U]. split.
  - apply roundTiesEven_ge. change (inject_Z 0) with 0.
    apply Qle_shift_div_l; [apply pow2_pos|]. lra.
  - apply roundTiesEven_le. apply Qle_shift_div_r; [apply pow2_pos|].
    apply Qlt_le_weak. apply Qlt_le_trans with (1 := U).
    rewrite <- (pow2_Z 53) by lia. rewrite <- pow2_add. apply pow2_le.
    unfold ulpExponent. lia.
Qed.

(** Some doubles: 0.1, 1/3, a tie that goes to the even neighbour, the
    least subnormal number, and the square root of 2. *)
Example fl_examples :
  fl (1 # 10) = 3602879701896397 # 36028797018963968
  /\ fl (1 # 3) = 6004799503160661 # 18014398509481984
  /\ fl (inject_Z (2 ^ 53 + 1)) = inject_Z (2 ^ 53)
  /\ fl (inject_Z (2 ^ 53 + 3)) = inject_Z (2 ^ 53 + 4)
  /\ fl (2 ^ (-1075) + 2 ^ (-1080)) = Qred (2 ^ (-1074))
  /\ fl (2 ^ (-1075)) = 0
  /\ Math_sqrt 2 = 6369051672525773 # 4503599627370496.
Proof. repeat split; vm_compute; reflexivity. Qed.

(** Rounding does not leave an interval whose ends are doubles. *)
Lemma fl_in lo hi q :
  fl lo = lo -> fl hi = hi -> lo <= q -> q <= hi -> lo <= fl q /\ fl q <= hi.
Proof.
  intros El Eh L U. split; [rewrite <- El|rewrite <- Eh]; now apply fl_mono.
Qed.

End FloatFacts.

Set Implicit Arguments.

(** ** Lists: ordered pairs and prefixes *)

Module ListFacts.

Lemma FOP_snoc {A} (R : A -> A -> Prop) l x :
  ForallOrdPairs R l -> Forall (fun e => R e x) l -> ForallOrdPairs R (l ++ [x]).
Proof.
  induction 1 as [|a l Ha Hl IH]; intros Hx; simpl.
  - repeat constructor.
  - inversion Hx; subst. constructor.
    + apply Forall_app. split; [assumption|]. constructor; [assumption|constructor].
    + apply IH. assumption.
Qed.

Lemma In_firstn {A} (x : A) n l : In x (firstn n l) -> In x l.
Proof.
  revert l. induction n as [|n IH]; intros [|a l]; simpl; try tauto.
  intros [H|H]; [now left | right; now apply IH].
Qed.

Lemma FOP_firstn {A} (R : A -> A -> Prop) n l :
  ForallOrdPairs R l -> ForallOrdPairs R (firstn n l).
Proof.
  intros H. revert n. induction H as [|a l Ha Hl IH]; intros [|n]; simpl; try constructor.
  - rewrite Forall_forall in *. intros x Hx. apply Ha. eapply In_firstn; eauto. 
  - apply IH.
Qed.

Lemma FOP_nth {A} (R : A -> A -> Prop) l :
  ForallOrdPairs R l ->
  forall i j a b, (i < j)%nat -> nth_error l i = Some a -> nth_error l j = Some b -> R a b.
Proof.
  induction 1 as [|x l Hx Hl IH]; intros i j a b Hij Hi Hj.
  - destruct i; discriminate.
  - destruct j as [|j]; [lia|]. simpl in Hj. destruct i as [|i]; simpl in Hi.
    + inversion Hi; subst. rewrite Forall_forall in Hx. apply Hx.
      eapply nth_error_In; eauto.
    + apply (IH i j); auto. lia.
Qed.

End ListFacts.

(** ** Feature detection *)

Module GeometryDetectionFacts.
Import JS JSFacts ListFacts GeometryDetection.

Lemma distSq_sym a b : distSq a b == distSq b a.
Proof. unfold distSq. ring. Qed.

Lemma far_sym m a b : far m a b -> far m b a.
Proof. unfold far. rewrite (distSq_sym b a). trivial. Qed.

Lemma tooClose_false msq filtered f :
  tooClose msq filtered f = false ->
  Forall (fun e => msq <= distSq f e) filtered.
Proof.
  unfold tooClose. induction filtered as [|e l IH]; simpl; intros H.
  - constructor.
  - apply orb_false_iff in H. destruct H as [H1 H2]. constructor.
    + now apply Qltb_ge.
    + now apply IH.
Qed.

Lemma tooClose_true msq filtered f :
  tooClose msq filtered f = true ->
  exists e, In e filtered /\ distSq f e < msq.
Proof.
  unfold tooClose. intros H. apply existsb_exists in H. destruct H as [e [He H]].
  exists e. split; [assumption|]. now apply Qltb_lt.
Qed.

(** filterBySpacing as a left fold: one more candidate at the end. *)
Lemma filterBySpacing_snoc features f m :
  filterBySpacing (features ++ [f]) m =
  let filtered := filterBySpacing features m in
  if tooClose (m * m) filtered f then filtered else filtered ++ [f].
Proof.
  unfold filterBySpacing. rewrite fold_left_app. reflexivity.
Qed.

Lemma filterBySpacing_far features m :
  ForallOrdPairs (far m) (filterBySpacing features m).
Proof.
  induction features as [|f l IH] using rev_ind.
  - constructor.
  - rewrite filterBySpacing_snoc. cbv zeta.
    destruct (tooClose _ _ f) eqn:E; [assumption|].
    apply FOP_snoc; [assumption|].
    apply tooClose_false in E.
    eapply Forall_impl; [|exact E]. intros e He. apply far_sym. exact He.
Qed.

Lemma insertByConfidence_In f g l :
  In g (insertByConfidence f l) <-> g = f \/ In g l.
Proof.
  induction l as [|h t IH]; simpl.
  - intuition.
  - destruct (Qltb _ _); simpl; rewrite ?IH; intuition.
Qed.

Lemma sortByConfidence_In g l : In g (sortByConfidence l) <-> In g l.
Proof.
  induction l as [|f l IH]; simpl; [tauto|].
  rewrite insertByConfidence_In, IH. intuition.
Qed.

Lemma insertByConfidence_FOP (R : GeometricFeature -> GeometricFeature -> Prop) f l :
  (forall a b, R a b -> R b a) ->
  Forall (R f) l -> ForallOrdPairs R l -> ForallOrdPairs R (insertByConfidence f l).
Proof.
  intros Hsym Hf Hl. induction Hl as [|g t Hg Ht IH]; simpl.
  - repeat constructor.
  - inversion Hf; subst. destruct (Qltb _ _).
    + constructor.
      * rewrite Forall_forall. intros x Hx. apply insertByConfidence_In in Hx.
        destruct Hx as [->|Hx]; [now apply Hsym|].
        rewrite Forall_forall in Hg. now apply Hg.
      * now apply IH.
    + constructor; [assumption|]. constructor; assumption.
Qed.

Lemma sortByConfidence_FOP (R : GeometricFeature -> GeometricFeature -> Prop) l :
  (forall a b, R a b -> R b a) ->
  ForallOrdPairs R l -> ForallOrdPairs R (sortByConfidence l).
Proof.
  intros Hsym H. induction H as [|f l Hf Hl IH]; simpl.
  - constructor.
  - apply insertByConfidence_FOP; try assumption.
    rewrite Forall_forall in *. intros x Hx. apply Hf. now apply sortByConfidence_In.
Qed.

Lemma slice0_firstn {A} (l : list A) e : exists n, slice0 l e = firstn n l.
Proof. unfold slice0. destruct (e <? 0)%Z; eauto. Qed.

Lemma FOP_SpacedBy m l : ForallOrdPairs (far m) l -> SpacedBy m l.
Proof.
  intros H i j a b Hij Hi Hj.
  destruct (Nat.lt_ge_cases i j) as [Hlt|Hge].
  - apply sq_le_atLeast. change (far m a b).
    eapply FOP_nth; [exact H|exact Hlt|exact Hi|exact Hj].
  - apply sq_le_atLeast. apply far_sym.
    eapply FOP_nth; [exact H| |exact Hj|exact Hi]. lia.
Qed.

Lemma detectFeaturesFromGray_spaced gray w h options :
  SpacedBy (minSpacing options) (detectFeaturesFromGray gray w h options).
Proof.
  apply FOP_SpacedBy. unfold detectFeaturesFromGray.
  destruct (slice0_firstn (sortByConfidence
     (filterBySpacing (allFeaturesOf gray w h (threshold options)) (minSpacing options)))
     (maxPointsOf (density options))) as [n ->].
  apply FOP_firstn. apply sortByConfidence_FOP; [apply far_sym|].
  apply filterBySpacing_far.
Qed.

End GeometryDetectionFacts.

(** ** A constant-intensity image, and the count bound *)

Module BlankImageFacts.
Import JS JSFacts ListFacts GeometryDetection.

Lemma upd_nat_length {A} (a : list A) n v : length (upd_nat a n v) = length a.
Proof.
  revert n. induction a as [|h t IH]; intros [|n]; simpl; auto.
Qed.

Lemma upd_length {A} (a : list A) i v : length (upd a i v) = length a.
Proof. unfold upd. destruct (i <? 0)%Z; [reflexivity|apply upd_nat_length]. Qed.

Lemma upd_nat_Forall {A} (P : A -> Prop) (a : list A) n v :
  Forall P a -> P v -> Forall P (upd_nat a n v).
Proof.
  intros Ha Hv. revert n. induction Ha as [|h t Hh Ht IH]; intros [|n]; simpl;
    constructor; auto.
Qed.

Lemma upd_Forall {A} (P : A -> Prop) (a : list A) i v :
  Forall P a -> P v -> Forall P (upd a i v).
Proof.
  intros Ha Hv. unfold upd. destruct (i <? 0)%Z; [assumption|now apply upd_nat_Forall].
Qed.

Lemma get_Forall {A} (P : A -> Prop) d (a : list A) i :
  Forall P a -> (0 <= i < Z.of_nat (length a))%Z -> P (get d a i).
Proof.
  intros Ha Hi. unfold get. destruct (Z.ltb_spec i 0); [lia|].
  rewrite Forall_forall in Ha. apply Ha. apply nth_In. lia.
Qed.

Lemma get_const g (a : list Z) i :
  Forall (eq g) a -> (0 <= i < Z.of_nat (length a))%Z -> get 0%Z a i = g.
Proof. intros Ha Hi. symmetry. now apply (get_Forall (P := eq g)). Qed.

Lemma get_zeros (a : list Z) i : Forall (eq 0%Z) a -> get 0%Z a i = 0%Z.
Proof.
  intros Ha. unfold get. destruct (i <? 0)%Z; [reflexivity|].
  destruct (nth_in_or_default (Z.to_nat i) a 0%Z) as [H|H]; [|exact H].
  rewrite Forall_forall in Ha. symmetry. now apply Ha.
Qed.

Lemma zeros_Forall n : Forall (eq 0%Z) (zeros n).
Proof. unfold zeros. apply Forall_forall. intros x Hx. apply repeat_spec in Hx. auto. Qed.

Lemma toGray_length w h d : length (toGray w h d) = Z.to_nat (w * h).
Proof.
  unfold toGray. apply for_range_ind; [lia| |].
  - intros j t _ Ht. now rewrite upd_length.
  - unfold zeros. apply repeat_length.
Qed.

Lemma sqrt_gtb_zero t : 0 <= t -> sqrt_gtb (inject_Z 0) t = false.
Proof.
  intros Ht. unfold sqrt_gtb. apply orb_false_iff. split; apply Qltb_ge.
  - assumption.
  - change (inject_Z 0) with 0. nra.
Qed.

Section Blank.
Variables (gray : list Z) (w h g : Z).
Hypothesis gray_const : Forall (eq g) gray.
Hypothesis gray_length : length gray = Z.to_nat (w * h).

Lemma for_range_kernel {S} (f : Z -> S -> S) s :
  for_range (-1) 2 1 f s = f 1%Z (f 0%Z (f (-1)%Z s)).
Proof. reflexivity. Qed.

Lemma in_image x y :
  (0 <= x < w)%Z -> (0 <= y < h)%Z -> (0 <= y * w + x < Z.of_nat (length gray))%Z.
Proof.
  intros Hx Hy. rewrite gray_length.
  assert (0 < w * h)%Z by (apply Z.mul_pos_pos; lia).
  rewrite Z2Nat.id by lia.
  assert (y * w <= (h - 1) * w)%Z by (apply Z.mul_le_mono_nonneg_r; lia).
  assert (0 <= y * w)%Z by (apply Z.mul_nonneg_nonneg; lia).
  lia.
Qed.

Lemma sobelAt_const x y :
  (1 <= x < w - 1)%Z -> (1 <= y < h - 1)%Z -> sobelAt gray w x y = (0%Z, 0%Z).
Proof.
  intros Hx Hy. unfold sobelAt. rewrite !for_range_kernel.
  cbv beta iota zeta.
  rewrite !(get_const gray_const) by (apply in_image; lia).
  repeat match goal with
         | |- context [get 0%Z sobelX ?k] =>
             let v := eval vm_compute in (get 0%Z sobelX k) in
             change (get 0%Z sobelX k) with v
         | |- context [get 0%Z sobelY ?k] =>
             let v := eval vm_compute in (get 0%Z sobelY k) in
             change (get 0%Z sobelY k) with v
         end.
  f_equal; lia.
Qed.

Lemma applySobelFilter_const threshold :
  0 <= threshold -> Forall (eq 0%Z) (applySobelFilter gray w h threshold).
Proof.
  intros Ht. unfold applySobelFilter.
  apply for_range_ind; [lia| |apply zeros_Forall].
  intros y edges Hy Hedges.
  apply for_range_ind; [lia| |assumption].
  intros x edges' Hx Hedges'. rewrite sobelAt_const by lia.
  apply upd_Forall; [assumption|].
  change (0 * 0 + 0 * 0)%Z with 0%Z. now rewrite sqrt_gtb_zero.
Qed.

Lemma structureAt_const x y :
  (3 <= x < w - 3)%Z -> (3 <= y < h - 3)%Z ->
  structureAt gray w x y = (0%Z, 0%Z, 0%Z).
Proof.
  intros Hx Hy. unfold structureAt, windowSize.
  apply for_range_ind; [lia| |reflexivity].
  intros wy acc Hwy ->.
  apply for_range_ind; [lia| |reflexivity].
  intros wx acc Hwx ->.
  destruct (Z.ltb_spec ((y + wy) * w + (x + wx + 1)) (Z.of_nat (length gray))); simpl;
    [|reflexivity].
  destruct (Z.ltb_spec ((y + wy + 1) * w + (x + wx)) (Z.of_nat (length gray))); simpl;
    [|reflexivity].
  assert (H1 : (0 <= (y + wy) * w + (x + wx))%Z)
    by (apply Z.add_nonneg_nonneg; [apply Z.mul_nonneg_nonneg|]; lia).
  assert (H2 : (0 <= (y + wy + 1) * w + (x + wx))%Z)
    by (apply Z.add_nonneg_nonneg; [apply Z.mul_nonneg_nonneg|]; lia).
  rewrite !(get_const gray_const) by lia.
  repeat f_equal; lia.
Qed.

Lemma harrisResponse_const x y :
  (3 <= x < w - 3)%Z -> (3 <= y < h - 3)%Z -> harrisResponse gray w x y == 0.
Proof.
  intros Hx Hy. unfold harrisResponse. rewrite structureAt_const by assumption.
  reflexivity.
Qed.

Lemma detectCorners_const threshold :
  0 <= threshold -> detectCorners gray w h threshold = [].
Proof.
  intros Ht. unfold detectCorners, windowSize.
  apply for_range_ind; [lia| |reflexivity].
  intros y corners Hy ->.
  apply for_range_ind; [lia| |reflexivity].
  intros x corners Hx ->.
  replace (Qltb (threshold * 100) (harrisResponse gray w x y)) with false; [reflexivity|].
  symmetry. apply Qltb_ge. rewrite harrisResponse_const by lia. lra.
Qed.
End Blank.

Lemma detectCurvePoints_zero edges w h :
  Forall (eq 0%Z) edges -> detectCurvePoints edges w h = [].
Proof.
  intros He. unfold detectCurvePoints.
  apply for_range_ind; [lia| |reflexivity].
  intros y pts Hy ->.
  apply for_range_ind; [lia| |reflexivity].
  intros x pts Hx ->. now rewrite get_zeros.
Qed.

Lemma allFeaturesOf_const gray w h g threshold :
  Forall (eq g) gray -> length gray = Z.to_nat (w * h) -> 0 <= threshold ->
  allFeaturesOf gray w h threshold = [].
Proof.
  intros Hc Hl Ht. unfold allFeaturesOf.
  rewrite (@detectCorners_const gray w h g Hc Hl threshold Ht).
  rewrite detectCurvePoints_zero
    by (exact (@applySobelFilter_const gray w h g Hc Hl threshold Ht)).
  reflexivity.
Qed.

Lemma slice0_nil {A} e : slice0 (@nil A) e = [].
Proof. unfold slice0. destruct (e <? 0)%Z; apply firstn_nil. Qed.

Lemma detect_blank imageData options g :
  0 <= threshold options ->
  Forall (eq g) (toGray (width imageData) (height imageData) (data imageData)) ->
  detectFeaturesFromImageData imageData options = [].
Proof.
  intros Ht Hc. unfold detectFeaturesFromImageData, detectFeaturesFromGray.
  rewrite (@allFeaturesOf_const _ _ _ g (threshold options) Hc (toGray_length _ _ _) Ht).
  apply slice0_nil.
Qed.

Lemma maxPointsOf_nonneg d : 0 <= d -> (0 <= maxPointsOf d)%Z.
Proof.
  intros Hd. unfold maxPointsOf, Math_floor, addF, mulF, divF.
  change 0%Z with (Qfloor 0). apply Qfloor_resp_le.
  assert (H1 : 0 <= fl (d / 100)).
  { apply FloatFacts.fl_nonneg. apply Qle_shift_div_l; [reflexivity|lra]. }
  assert (H2 : 0 <= fl (fl (d / 100) * 200)).
  { apply FloatFacts.fl_nonneg. apply Qmult_le_0_compat; [exact H1|discriminate]. }
  apply FloatFacts.fl_nonneg. lra.
Qed.

(** For the whole percentages from 0 to 100 the rounding does not show. *)
Lemma percent_formula (d c : Z) :
  Qfloor (inject_Z d / 100 * inject_Z (100 * c) + 20) = (d * c + 20)%Z.
Proof.
  assert (E : inject_Z d / 100 * inject_Z (100 * c) + 20 == inject_Z (d * c + 20)).
  { rewrite !inject_Z_plus, !inject_Z_mult. change (inject_Z 100) with 100.
    change (inject_Z 20) with 20. field. }
  rewrite (Qfloor_comp _ _ E). apply Qfloor_Z.
Qed.

Lemma maxPointsOf_percent (d : Z) :
  (0 <= d <= 100)%Z -> maxPointsOf (inject_Z d) = (2 * d + 20)%Z.
Proof.
  intros Hd.
  assert (T : forallb (fun k => (maxPointsOf (inject_Z (Z.of_nat k))
                                 =? 2 * Z.of_nat k + 20)%Z) (seq 0 101) = true)
    by (vm_compute; reflexivity).
  rewrite forallb_forall in T. specialize (T (Z.to_nat d)).
  rewrite Z2Nat.id in T by lia. apply Z.eqb_eq. apply T. apply in_seq. lia.
Qed.

Lemma slice0_length {A} (l : list A) e : (0 <= e)%Z -> (Z.of_nat (length (slice0 l e)) <= e)%Z.
Proof.
  intros He. unfold slice0. destruct (Z.ltb_spec e 0); [lia|].
  rewrite length_firstn. lia.
Qed.

Lemma detect_count imageData options :
  (0 <= maxPointsOf (density options))%Z ->
  (Z.of_nat (length (detectFeaturesFromImageData imageData options))
   <= maxPointsOf (density options))%Z.
Proof.
  intros Hd. unfold detectFeaturesFromImageData, detectFeaturesFromGray.
  now apply slice0_length.
Qed.

(** Images of one colour. *)
Lemma uniformData_length r g b alphas :
  length (uniformData r g b alphas) = (4 * length alphas)%nat.
Proof. induction alphas as [|a l IH]; simpl; lia. Qed.

Lemma uniformData_nth r g b alphas k :
  (k < length alphas)%nat ->
  nth (4 * k) (uniformData r g b alphas) 0%Z = r
  /\ nth (4 * k + 1) (uniformData r g b alphas) 0%Z = g
  /\ nth (4 * k + 2) (uniformData r g b alphas) 0%Z = b.
Proof.
  revert k. induction alphas as [|a l IH]; intros k Hk; simpl in Hk; [lia|].
  destruct k as [|k].
  - simpl. auto.
  - replace (4 * Datatypes.S k)%nat with (Datatypes.S (Datatypes.S (Datatypes.S (Datatypes.S (4 * k))))) by lia.
    simpl. apply IH. lia.
Qed.

Lemma upd_nat_fill (c : Z) (i m : nat) :
  upd_nat (repeat c i ++ repeat 0%Z (Datatypes.S m)) i c
  = repeat c (Datatypes.S i) ++ repeat 0%Z m.
Proof.
  induction i as [|i IH]; [reflexivity|].
  change (upd_nat (c :: (repeat c i ++ repeat 0%Z (Datatypes.S m))) (Datatypes.S i) c
          = c :: (repeat c (Datatypes.S i) ++ repeat 0%Z m)).
  cbn [upd_nat]. now rewrite IH.
Qed.

Lemma toGray_steps r g b alphas (k i : nat) :
  (i + k <= length alphas)%nat ->
  for_steps k (Z.of_nat (4 * i)) 4
    (fun j gray =>
       upd gray (j / 4)%Z
         (toUint8 (luminance (get 0%Z (uniformData r g b alphas) j)
                     (get 0%Z (uniformData r g b alphas) (j + 1))
                     (get 0%Z (uniformData r g b alphas) (j + 2)))))
    (repeat (grayOf r g b) i ++ repeat 0%Z (length alphas - i))
  = repeat (grayOf r g b) (i + k) ++ repeat 0%Z (length alphas - (i + k)).
Proof.
  revert i. induction k as [|k IH]; intros i Hik.
  - simpl. now rewrite Nat.add_0_r.
  - cbn [for_steps].
    destruct (@uniformData_nth r g b alphas i ltac:(lia)) as [Hr [Hg Hb]].
    assert (G0 : get 0%Z (uniformData r g b alphas) (Z.of_nat (4 * i)) = r).
    { unfold get. destruct (Z.ltb_spec (Z.of_nat (4 * i)) 0); [lia|].
      now rewrite Nat2Z.id. }
    assert (G1 : get 0%Z (uniformData r g b alphas) (Z.of_nat (4 * i) + 1) = g).
    { unfold get. destruct (Z.ltb_spec (Z.of_nat (4 * i) + 1) 0); [lia|].
      replace (Z.to_nat (Z.of_nat (4 * i) + 1)) with (4 * i + 1)%nat by lia. exact Hg. }
    assert (G2 : get 0%Z (uniformData r g b alphas) (Z.of_nat (4 * i) + 2) = b).
    { unfold get. destruct (Z.ltb_spec (Z.of_nat (4 * i) + 2) 0); [lia|].
      replace (Z.to_nat (Z.of_nat (4 * i) + 2)) with (4 * i + 2)%nat by lia. exact Hb. }
    rewrite G0, G1, G2. fold (grayOf r g b).
    replace (Z.of_nat (4 * i) / 4)%Z with (Z.of_nat i)
      by (rewrite Nat2Z.inj_mul, Z.mul_comm, Z.div_mul; lia).
    unfold upd. destruct (Z.ltb_spec (Z.of_nat i) 0); [lia|]. rewrite Nat2Z.id.
    replace (length alphas - i)%nat with (Datatypes.S (length alphas - Datatypes.S i)) by lia.
    rewrite upd_nat_fill.
    replace (Z.of_nat (4 * i) + 4)%Z with (Z.of_nat (4 * Datatypes.S i)) by lia.
    rewrite IH by lia.
    replace (Datatypes.S i + k)%nat with (i + Datatypes.S k)%nat by lia. reflexivity.
Qed.

Lemma toGray_uniform w h r g b alphas :
  Z.of_nat (length alphas) = (w * h)%Z ->
  toGray w h (uniformData r g b alphas) = repeat (grayOf r g b) (length alphas).
Proof.
  intros Hn. unfold toGray, for_range, zeros.
  rewrite uniformData_length.
  replace (Z.to_nat ((Z.of_nat (4 * length alphas) - 0 + 4 - 1) / 4)) with (length alphas).
  2:{ replace (Z.of_nat (4 * length alphas) - 0 + 4 - 1)%Z
        with (3 + Z.of_nat (length alphas) * 4)%Z by lia.
      rewrite Z.div_add by lia. change (3 / 4)%Z with 0%Z. lia. }
  replace (Z.to_nat (w * h)) with (length alphas) by lia.
  pose proof (@toGray_steps r g b alphas (length alphas) 0 ltac:(lia)) as H.
  simpl (4 * 0)%nat in H. simpl (repeat _ 0) in H. rewrite Nat.sub_0_r in H.
  simpl (0 + _)%nat in H. rewrite Nat.sub_diag in H. simpl (repeat 0%Z 0) in H.
  rewrite app_nil_r in H. simpl app in H. exact H.
Qed.

Lemma uniform_colour_constant_intensity w h r g b alphas :
  Z.of_nat (length alphas) = (w * h)%Z ->
  Forall (eq (grayOf r g b)) (toGray w h (uniformData r g b alphas)).
Proof.
  intros Hn. rewrite (toGray_uniform w h r g b alphas Hn).
  apply Forall_forall. intros x Hx. apply repeat_spec in Hx. auto.
Qed.

End BlankImageFacts.

(** ** Mock points *)

Module MockPointsFacts.
Import JS JSFacts ListFacts AdjustPoints.

Lemma clamp01_id v : 0 <= v -> v <= 1 -> clamp01 v == v.
Proof.
  intros H0 H1. unfold clamp01.
  rewrite (Q.min_r 1 v) by assumption. apply Q.max_r. assumption.
Qed.

Lemma distTo_comp p x y x' y' : x == x' -> y == y' -> distTo p x y = distTo p x' y'.
Proof.
  intros Ex Ey. unfold distTo, addF, mulF, subF.
  rewrite (@FloatFacts.fl_eq (p_x p - x) (p_x p - x')) by now rewrite Ex.
  rewrite (@FloatFacts.fl_eq (p_y p - y) (p_y p - y')) by now rewrite Ey.
  reflexivity.
Qed.

Lemma tooCloseP_false m points x y :
  tooClose m points x y = false ->
  Forall (fun p => m <= distTo p x y) points.
Proof.
  unfold tooClose. induction points as [|p l IH]; simpl; intros H.
  - constructor.
  - apply orb_false_iff in H. destruct H as [H1 H2]. constructor.
    + now apply Qltb_ge.
    + now apply IH.
Qed.

Lemma FOP_SpacedByP m l : ForallOrdPairs (farP m) l -> SpacedByP m l.
Proof.
  intros H i j a b Hlt Hi Hj.
  change (farP m a b). eapply FOP_nth; [exact H|exact Hlt|exact Hi|exact Hj].
Qed.

(** The candidates lie in the unit square, rounding included. *)
Lemma radius_range b :
  0 <= b -> b <= 1 ->
  0 <= addF (fl (3 # 10)) (mulF b (fl (2 # 10)))
  /\ addF (fl (3 # 10)) (mulF b (fl (2 # 10))) <= 1 # 2.
Proof.
  intros Hb0 Hb1. unfold addF, mulF.
  assert (C2 : 0 <= fl (2 # 10)) by (vm_compute; discriminate).
  assert (C3 : 0 <= fl (3 # 10)) by (vm_compute; discriminate).
  destruct (@FloatFacts.fl_in 0 (fl (2 # 10)) (b * fl (2 # 10))) as [L U];
    [reflexivity|vm_compute; reflexivity| | |].
  { apply Qmult_le_0_compat; assumption. }
  { rewrite <- (Qmult_1_l (fl (2 # 10))) at 2.
    apply Qmult_le_compat_r; assumption. }
  split.
  - apply FloatFacts.fl_nonneg. lra.
  - change (1 # 2) with (fl (fl (3 # 10) + fl (2 # 10))).
    apply FloatFacts.fl_mono. lra.
Qed.

Lemma polar_range c r :
  -(1) <= c -> c <= 1 -> 0 <= r -> r <= 1 # 2 ->
  0 <= addF (1 # 2) (mulF c r) /\ addF (1 # 2) (mulF c r) <= 1.
Proof.
  intros Hc0 Hc1 Hr0 Hr1. unfold addF, mulF.
  destruct (@FloatFacts.fl_in (-(1 # 2)) (1 # 2) (c * r)) as [L U];
    [reflexivity|reflexivity|nra|nra|].
  apply FloatFacts.fl_in; [reflexivity|reflexivity|lra|lra].
Qed.

Lemma centre_range a :
  0 <= a -> a <= 1 ->
  0 <= addF (fl (2 # 10)) (mulF a (fl (6 # 10)))
  /\ addF (fl (2 # 10)) (mulF a (fl (6 # 10))) <= 1.
Proof.
  intros Ha0 Ha1. unfold addF, mulF.
  assert (C2 : 0 <= fl (2 # 10)) by (vm_compute; discriminate).
  assert (C6 : 0 <= fl (6 # 10)) by (vm_compute; discriminate).
  destruct (@FloatFacts.fl_in 0 (fl (6 # 10)) (a * fl (6 # 10))) as [L U];
    [reflexivity|vm_compute; reflexivity| | |].
  { apply Qmult_le_0_compat; assumption. }
  { rewrite <- (Qmult_1_l (fl (6 # 10))) at 2.
    apply Qmult_le_compat_r; assumption. }
  split.
  - apply FloatFacts.fl_nonneg. lra.
  - apply Qle_trans with (fl (fl (2 # 10) + fl (6 # 10))).
    + apply FloatFacts.fl_mono. lra.
    + vm_compute. discriminate.
Qed.

(** The loop with its counter and the loop seen through its exits. *)
Section Exits.
Variables Math_cos Math_sin : Q -> Q.
Variable Math_random : nat -> Q.

Lemma doWhile_exits fuel attempts e m points n :
  (attempts + fuel = maxAttempts)%nat ->
  match placeLoop Math_cos Math_sin Math_random fuel e m points n with
  | (Some c, n') =>
      exists a, (a < maxAttempts)%nat
                /\ doWhile Math_cos Math_sin Math_random fuel attempts e m points n
                   = ((fst c, snd c, a), n')
  | (None, n') =>
      exists x y a, (maxAttempts <= a)%nat
                    /\ doWhile Math_cos Math_sin Math_random fuel attempts e m points n
                       = ((x, y, a), n')
  end.
Proof.
  revert attempts n. induction fuel as [|fuel IH]; intros attempts n Hsum.
  - simpl. unfold ret. exists 0, 0, maxAttempts. split; [lia|reflexivity].
  - cbn [placeLoop doWhile]. unfold bind.
    destruct (candidate Math_cos Math_sin Math_random e n) as [c n0].
    destruct (tooClose m points (fst c) (snd c)); cbn [negb].
    + destruct (Nat.ltb_spec (S attempts) maxAttempts) as [Hlt|Hge].
      * apply IH. lia.
      * assert (fuel = 0)%nat by lia. subst fuel. simpl. unfold ret.
        exists (fst c), (snd c), (S attempts). split; [lia|reflexivity].
    + unfold ret. exists attempts. split; [lia|]. now destruct c.
Qed.

Lemma placePoint_exits e m w points n :
  placePoint Math_cos Math_sin Math_random e m w points n
  = placePointExits Math_cos Math_sin Math_random e m w points n.
Proof.
  unfold placePoint, placePointExits, bind at 1 3.
  pose proof (@doWhile_exits maxAttempts 0 e m points n eq_refl) as H.
  destruct (placeLoop Math_cos Math_sin Math_random maxAttempts e m points n)
    as [[c|] n0].
  - destruct H as [a [Ha ->]]. destruct c as [x y]. simpl fst. simpl snd.
    cbv beta iota. apply Nat.ltb_lt in Ha. now rewrite Ha.
  - destruct H as [x [y [a [Ha ->]]]]. cbv beta iota.
    apply Nat.ltb_ge in Ha. now rewrite Ha.
Qed.
End Exits.

Section MockFacts.
Variables Math_cos Math_sin : Q -> Q.
Variable Math_random : nat -> Q.
Hypothesis random_range : forall n, 0 <= Math_random n /\ Math_random n < 1.
Hypothesis cos_range : forall a, -(1) <= Math_cos a /\ Math_cos a <= 1.
Hypothesis sin_range : forall a, -(1) <= Math_sin a /\ Math_sin a <= 1.

Let candidate := candidate Math_cos Math_sin Math_random.
Let placeLoop := placeLoop Math_cos Math_sin Math_random.
Let placePoint := placePoint Math_cos Math_sin Math_random.
Let placeAll := placeAll Math_cos Math_sin Math_random.

Lemma candidate_range e n : inUnit (fst (candidate e n)).
Proof.
  unfold candidate, AdjustPoints.candidate, bind, random, ret, inUnit.
  destruct (Qltb (Math_random n) e); cbn [fst snd].
  - pose proof (random_range (S (S n))) as [Hb0 Hb1].
    destruct (@radius_range (Math_random (S (S n))) Hb0 (Qlt_le_weak _ _ Hb1))
      as [Hr0 Hr1].
    pose proof (cos_range (mulF (mulF (Math_random (S n)) Math_PI) 2)) as [Hc0 Hc1].
    pose proof (sin_range (mulF (mulF (Math_random (S n)) Math_PI) 2)) as [Hs0 Hs1].
    split; now apply polar_range.
  - pose proof (random_range (S n)) as [Ha0 Ha1].
    pose proof (random_range (S (S n))) as [Hb0 Hb1].
    split; apply centre_range; lra.
Qed.

Lemma placeLoop_some k e m points n c n' :
  placeLoop k e m points n = (Some c, n') ->
  tooClose m points (fst c) (snd c) = false /\ inUnit c.
Proof.
  revert n. induction k as [|k IH]; intros n; simpl.
  - unfold ret. discriminate.
  - unfold bind at 1. pose proof (candidate_range e n) as Hr.
    fold candidate. destruct (candidate e n) as [c0 n0]. simpl in Hr.
    destruct (tooClose m points (fst c0) (snd c0)) eqn:E.
    + apply IH.
    + unfold ret. intros H. inversion H; subst. auto.
Qed.

Lemma placePoint_spaced e m w points n :
  ForallOrdPairs (farP m) points ->
  ForallOrdPairs (farP m) (fst (placePoint e m w points n)).
Proof.
  intros Hpts. unfold placePoint. rewrite placePoint_exits.
  unfold placePointExits, bind at 1.
  fold placeLoop.
  destruct (placeLoop maxAttempts e m points n) as [[[x y]|] n0] eqn:E.
  - apply placeLoop_some in E. destruct E as [Hfar [[Hx0 Hx1] [Hy0 Hy1]]].
    simpl in *. unfold bind, random, ret. simpl.
    apply FOP_snoc; [assumption|].
    apply tooCloseP_false in Hfar.
    eapply Forall_impl; [|exact Hfar]. intros p Hp. unfold farP. simpl.
    rewrite (@distTo_comp p (clamp01 x) (clamp01 y) x y
               (clamp01_id Hx0 Hx1) (clamp01_id Hy0 Hy1)).
    exact Hp.
  - simpl. assumption.
Qed.

Lemma placeAll_spaced k e m w points n :
  ForallOrdPairs (farP m) points ->
  ForallOrdPairs (farP m) (fst (placeAll k e m w points n)).
Proof.
  revert points n. induction k as [|k IH]; intros points n Hpts; simpl.
  - assumption.
  - unfold bind. pose proof (@placePoint_spaced e m w points n Hpts) as H.
    fold placePoint. destruct (placePoint e m w points n) as [pts n0].
    apply IH. exact H.
Qed.

Lemma generateMockPoints_spaced params :
  SpacedByP (divF (minSpacing params) 100)
    (generateMockPoints Math_cos Math_sin Math_random params).
Proof.
  apply FOP_SpacedByP. unfold generateMockPoints.
  apply placeAll_spaced. constructor.
Qed.

End MockFacts.

End MockPointsFacts.

(** ** The points history *)

Module StoreFacts.
Import JS Store.

Lemma historyAt_last (h : list (list Point2D)) p :
  historyAt (h ++ [p]) (Z.of_nat (length (h ++ [p])) - 1) = Some p.
Proof.
  unfold historyAt. rewrite length_app. simpl.
  destruct (Z.ltb_spec (Z.of_nat (length h + 1) - 1) 0); [lia|].
  replace (Z.to_nat (Z.of_nat (length h + 1) - 1)) with (length h) by lia.
  rewrite nth_error_app2 by lia. rewrite Nat.sub_diag. reflexivity.
Qed.

Lemma historyAt_some (h : list (list Point2D)) i :
  (0 <= i < Z.of_nat (length h))%Z -> exists p, historyAt h i = Some p.
Proof.
  intros Hi. unfold historyAt. destruct (Z.ltb_spec i 0); [lia|].
  destruct (nth_error h (Z.to_nat i)) eqn:E; [eauto|].
  apply nth_error_None in E. lia.
Qed.

(** After [setAdjustedPoints p] the history ends with [p] and the index
    points at it. *)
Lemma setAdjustedPoints_shape p s :
  exists h,
    setAdjustedPoints p s =
    mkState p (h ++ [p]) (Z.of_nat (length (h ++ [p])) - 1)
      (1 <? Z.of_nat (length (h ++ [p])))%Z false.
Proof.
  unfold setAdjustedPoints, addPointsToHistory. simpl.
  exists (slice0 (pointsHistory s) (pointsHistoryIndex s + 1)). reflexivity.
Qed.

End StoreFacts.

(** ** Grid meshes *)

Module MeshFacts.
Import JS JSFacts Mesh.

Lemma edge_eq_leibniz (x y : Z * Z) : EdgeOT.eq x y <-> x = y.
Proof.
  destruct x as [a b], y as [c d]. split.
  - intros [H1 H2]. cbv in H1, H2. congruence.
  - intros H. inversion H. split; reflexivity.
Qed.

Lemma InA_edge (x : Z * Z) l : InA EdgeOT.eq x l <-> In x l.
Proof.
  rewrite InA_alt. split.
  - intros [y [Hy Hin]]. apply edge_eq_leibniz in Hy. now subst.
  - intros Hin. exists x. split; [now apply edge_eq_leibniz|assumption].
Qed.

Lemma NoDupA_edge (l : list (Z * Z)) : NoDupA EdgeOT.eq l -> NoDup l.
Proof.
  induction 1 as [|x l Hx Hl IH]; constructor; [|assumption].
  intros Hin. apply Hx. now apply InA_edge.
Qed.

Lemma fold_add_In (es : list (Z * Z)) (s : EdgeSet.t) (x : Z * Z) :
  EdgeSet.In x (fold_left (fun s e => EdgeSet.add e s) es s) <-> In x es \/ EdgeSet.In x s.
Proof.
  revert s. induction es as [|e es IH]; intros s; simpl.
  - tauto.
  - rewrite IH, EdgeSet.add_spec, edge_eq_leibniz. intuition congruence.
Qed.

(** The edge count is the length of a duplicate-free list of the edges. *)
Lemma edgeCount_spec (fs : list Face) :
  exists l, NoDup l
            /\ (forall e, In e l <-> In e (flat_map faceEdges fs))
            /\ length l = edgeCount fs.
Proof.
  exists (EdgeSet.elements (edgesOf fs)). split; [|split].
  - apply NoDupA_edge. apply EdgeSet.elements_spec2w.
  - intros e. rewrite <- InA_edge, EdgeSet.elements_spec1. unfold edgesOf.
    rewrite fold_add_In. split; [intros [H|H]; [assumption|]|intros H; now left].
    exfalso. revert H. apply EdgeSet.empty_spec.
  - unfold edgeCount. symmetry. apply EdgeSet.cardinal_spec.
Qed.

Lemma for_steps_measure {S : Type} (mu : S -> nat) (k : nat) (step : Z) (body : Z -> S -> S) :
  (forall i s, mu (body i s) = (mu s + k)%nat) ->
  forall n i s, mu (for_steps n i step body s) = (mu s + n * k)%nat.
Proof.
  intros Hbody n. induction n as [|n IH]; intros i s; simpl.
  - lia.
  - rewrite IH, Hbody. lia.
Qed.

Lemma for_range_measure {S : Type} (mu : S -> nat) (k : nat) (hi : Z) (body : Z -> S -> S) s :
  (forall i s, mu (body i s) = (mu s + k)%nat) ->
  mu (for_range 0 hi 1 body s) = (mu s + Z.to_nat hi * k)%nat.
Proof.
  intros Hbody. unfold for_range. rewrite (for_steps_measure mu k 1 body Hbody).
  replace ((hi - 0 + 1 - 1) / 1)%Z with hi by (rewrite Z.div_1_r; lia). reflexivity.
Qed.

Lemma gridFaces_length rows cols :
  length (gridFaces rows cols) = (Z.to_nat rows * (Z.to_nat cols * 2))%nat.
Proof.
  unfold gridFaces.
  rewrite (@for_range_measure _ (@length Face) (Z.to_nat cols * 2)); [reflexivity|].
  intros i s.
  rewrite (@for_range_measure _ (@length Face) 2); [reflexivity|].
  intros j t. rewrite !length_app. unfold Face. simpl. lia.
Qed.

Lemma gridVertices_length rows cols point :
  length (fst (gridVertices rows cols point))
  = (Z.to_nat (rows + 1) * (Z.to_nat (cols + 1) * 1))%nat.
Proof.
  unfold gridVertices.
  rewrite (@for_range_measure _ (fun s : list Vec3 * list Vec3 => length (fst s))
             (Z.to_nat (cols + 1) * 1)); [reflexivity|].
  intros i s.
  rewrite (@for_range_measure _ (fun s : list Vec3 * list Vec3 => length (fst s)) 1);
    [reflexivity|].
  intros j [vs ns]. destruct (point i j) as [v n]. simpl. rewrite length_app.
  unfold Vec3. simpl. lia.
Qed.

Lemma gridVertices_aligned rows cols point :
  Aligned point (gridVertices rows cols point).
Proof.
  unfold gridVertices.
  apply for_range_ind; [lia| |exists []; split; reflexivity].
  intros i acc _ Hacc.
  apply for_range_ind; [lia| |assumption].
  intros j [vs ns] _ [ijs [Hv Hn]]. simpl in Hv, Hn.
  exists (ijs ++ [(i, j)]). destruct (point i j) as [v n] eqn:E. simpl.
  rewrite !map_app. simpl. rewrite E. simpl. subst. split; reflexivity.
Qed.

Lemma Aligned_length point s : Aligned point s -> length (snd s) = length (fst s).
Proof. intros [ijs [-> ->]]. now rewrite !length_map. Qed.

Lemma Aligned_normals (P : Vec3 -> Prop) point s :
  (forall i j, P (snd (point i j))) -> Aligned point s -> Forall P (snd s).
Proof.
  intros HP [ijs [_ ->]]. apply Forall_forall. intros n Hn.
  apply in_map_iff in Hn. destruct Hn as [ij [<- _]]. apply HP.
Qed.

Lemma gridFaces_valid rows cols :
  (0 <= rows)%Z -> (0 <= cols)%Z ->
  Forall (validFace ((rows + 1) * (cols + 1))) (gridFaces rows cols).
Proof.
  intros Hr Hc. unfold gridFaces.
  apply for_range_ind; [lia| |constructor].
  intros i faces Hi Hfaces.
  apply for_range_ind; [lia| |assumption].
  intros j faces' Hj Hfaces'.
  assert (0 <= i * (cols + 1))%Z by (apply Z.mul_nonneg_nonneg; lia).
  assert (i * (cols + 1) <= (rows - 1) * (cols + 1))%Z
    by (apply Z.mul_le_mono_nonneg_r; lia).
  apply Forall_app. split; [apply Forall_app; split; [assumption|]|];
    constructor; try constructor; unfold validFace; lia.
Qed.

Section MeshFacts.
Variables Math_cos Math_sin : Q -> Q.
Variable Math_atan2 : Q -> Q -> Q.

Lemma gridVertices_vertices rows cols point :
  (0 <= rows)%Z -> (0 <= cols)%Z ->
  Z.of_nat (length (fst (gridVertices rows cols point))) = ((rows + 1) * (cols + 1))%Z.
Proof.
  intros Hr Hc. rewrite gridVertices_length. lia.
Qed.

Lemma grid_faces_valid rows cols point :
  (0 <= rows)%Z -> (0 <= cols)%Z ->
  Forall (validFace (Z.of_nat (length (fst (gridVertices rows cols point)))))
    (gridFaces rows cols).
Proof.
  intros Hr Hc. rewrite gridVertices_vertices by assumption.
  now apply gridFaces_valid.
Qed.

(** A grid mesh is well formed as soon as its normals are bounded. *)
Lemma grid_WellFormed rows cols point :
  (0 <= rows)%Z -> (0 <= cols)%Z ->
  (forall i j, boundedVec (snd (point i j))) ->
  WellFormed point
    (mkGeometry (fst (gridVertices rows cols point)) (gridFaces rows cols)
       (snd (gridVertices rows cols point))).
Proof.
  intros Hr Hc Hb. pose proof (gridVertices_aligned rows cols point) as Ha.
  unfold WellFormed. simpl. repeat split.
  - now apply grid_faces_valid.
  - now apply (Aligned_length Ha).
  - destruct (gridVertices rows cols point). exact Ha.
  - now apply (Aligned_normals boundedVec Hb Ha).
Qed.

Lemma generateSphereModel_geometry :
  geometry (generateSphereModel Math_cos Math_sin) =
  mkGeometry (fst (gridVertices 16 16 (spherePoint Math_cos Math_sin 1 16 16)))
    (gridFaces 16 16)
    (snd (gridVertices 16 16 (spherePoint Math_cos Math_sin 1 16 16))).
Proof.
  unfold generateSphereModel.
  destruct (gridVertices 16 16 (spherePoint Math_cos Math_sin 1 16 16)). reflexivity.
Qed.

Lemma generateTorusModel_geometry :
  geometry (generateTorusModel Math_cos Math_sin) =
  mkGeometry
    (fst (gridVertices 32 16 (torusPoint Math_cos Math_sin 1 (fun _ => 3 # 10) 32 16)))
    (gridFaces 32 16)
    (snd (gridVertices 32 16 (torusPoint Math_cos Math_sin 1 (fun _ => 3 # 10) 32 16))).
Proof.
  unfold generateTorusModel.
  destruct (gridVertices 32 16 _). reflexivity.
Qed.

Lemma generateMockTorusFromPoints_geometry points :
  generateMockTorusFromPoints Math_cos Math_sin Math_atan2 points =
  mkGeometry (fst (gridVertices 48 24 (displacedPoint Math_cos Math_sin Math_atan2 points))) (gridFaces 48 24)
    (snd (gridVertices 48 24 (displacedPoint Math_cos Math_sin Math_atan2 points))).
Proof.
  unfold generateMockTorusFromPoints.
  fold (displacedPoint Math_cos Math_sin Math_atan2 points).
  destruct (gridVertices 48 24 _). reflexivity.
Qed.

(** The loops of the generators push one vertex for each grid position,
    row by row. *)
Lemma for_steps_seq {S : Type} (body : Z -> S -> S) (n a : nat) (s : S) :
  for_steps n (Z.of_nat a) 1 body s
  = fold_left (fun s k => body (Z.of_nat k) s) (seq a n) s.
Proof.
  revert a s. induction n as [|n IH]; intros a s; [reflexivity|].
  cbn [for_steps seq fold_left].
  replace (Z.of_nat a + 1)%Z with (Z.of_nat (Datatypes.S a)) by lia.
  apply IH.
Qed.

Lemma for_range_seq {S : Type} (body : Z -> S -> S) (n : nat) (s : S) :
  for_range 0 (Z.of_nat n) 1 body s
  = fold_left (fun s k => body (Z.of_nat k) s) (seq 0 n) s.
Proof.
  unfold for_range.
  replace (Z.to_nat ((Z.of_nat n - 0 + 1 - 1) / 1)) with n
    by (rewrite Z.div_1_r; lia).
  exact (for_steps_seq body n 0 s).
Qed.

Lemma row_pushes (point : Z -> Vec3 * Vec3) (l : list nat) (vs ns : list Vec3) :
  fold_left
    (fun (s : list Vec3 * list Vec3) (k : nat) =>
       (fun '(vertices, normals) =>
          let '(v, n) := point (Z.of_nat k) in (vertices ++ [v], normals ++ [n])) s)
    l (vs, ns)
  = (vs ++ map (fun k => fst (point (Z.of_nat k))) l,
     ns ++ map (fun k => snd (point (Z.of_nat k))) l).
Proof.
  revert vs ns. induction l as [|k l IH]; intros vs ns; cbn [fold_left map].
  - now rewrite !app_nil_r.
  - destruct (point (Z.of_nat k)) as [v n] eqn:E. rewrite IH.
    cbn [fst snd]. now rewrite <- !app_assoc.
Qed.

Lemma gridVertices_positions (rows cols : nat) (point : Z -> Z -> Vec3 * Vec3) :
  gridVertices (Z.of_nat rows) (Z.of_nat cols) point
  = (map (fun ij => fst (point (Z.of_nat (fst ij)) (Z.of_nat (snd ij))))
       (gridPositions (Datatypes.S rows) (Datatypes.S cols)),
     map (fun ij => snd (point (Z.of_nat (fst ij)) (Z.of_nat (snd ij))))
       (gridPositions (Datatypes.S rows) (Datatypes.S cols))).
Proof.
  unfold gridVertices, gridPositions.
  replace (Z.of_nat rows + 1)%Z with (Z.of_nat (Datatypes.S rows)) by lia.
  replace (Z.of_nat cols + 1)%Z with (Z.of_nat (Datatypes.S cols)) by lia.
  rewrite for_range_seq.
  generalize (seq 0 (Datatypes.S rows)) as il.
  assert (G : forall (il : list nat) vs ns,
             fold_left
               (fun (s : list Vec3 * list Vec3) (k : nat) =>
                  for_range 0 (Z.of_nat (Datatypes.S cols)) 1
                    (fun (j : Z) '(vertices, normals) =>
                       let '(v, n) := point (Z.of_nat k) j in
                       (vertices ++ [v], normals ++ [n])) s)
               il (vs, ns)
             = (vs ++ map (fun ij => fst (point (Z.of_nat (fst ij)) (Z.of_nat (snd ij))))
                        (flat_map (fun i => map (fun j => (i, j)) (seq 0 (Datatypes.S cols))) il),
                ns ++ map (fun ij => snd (point (Z.of_nat (fst ij)) (Z.of_nat (snd ij))))
                        (flat_map (fun i => map (fun j => (i, j)) (seq 0 (Datatypes.S cols))) il))).
  { induction il as [|i il IH]; intros vs ns; cbn [fold_left flat_map map].
    - now rewrite !app_nil_r.
    - rewrite for_range_seq.
      rewrite (row_pushes (point (Z.of_nat i))).
      rewrite IH. rewrite !map_app, !map_map. cbn [fst snd].
      now rewrite <- !app_assoc. }
  intros il. exact (G il [] []).
Qed.

Lemma gridFaces_48_24 : gridFaces 48 24 = flat_map (quadTriangles 24) (gridPositions 48 24).
Proof. vm_compute. reflexivity. Qed.

Lemma gridPositions_length rows cols :
  length (gridPositions rows cols) = (rows * cols)%nat.
Proof.
  unfold gridPositions.
  assert (G : forall il : list nat,
             length (flat_map (fun i => map (fun j => (i, j)) (seq 0 cols)) il)
             = (length il * cols)%nat).
  { induction il as [|i il IH]; [reflexivity|].
    cbn [flat_map]. rewrite length_app, length_map, length_seq, IH. simpl. lia. }
  rewrite G, length_seq. reflexivity.
Qed.

Lemma gridPositions_nth rows cols i j :
  (i < rows)%nat -> (j < cols)%nat ->
  nth_error (gridPositions rows cols) (i * cols + j) = Some (i, j).
Proof.
  unfold gridPositions. intros Hi Hj.
  assert (G : forall a n k, (k < n)%nat ->
             nth_error (flat_map (fun i => map (fun j => (i, j)) (seq 0 cols)) (seq a n))
               (k * cols + j) = Some ((a + k)%nat, j)).
  { clear i Hi. intros a n. revert a. induction n as [|n IH]; intros a i Hn; [lia|].
    cbn [seq flat_map]. destruct i as [|i].
    - rewrite nth_error_app1 by (rewrite length_map, length_seq; lia).
      rewrite nth_error_map. simpl Nat.add.
      rewrite (nth_error_nth' _ 0%nat) by (rewrite length_seq; lia).
      rewrite seq_nth by lia. cbn [option_map]. now rewrite Nat.add_0_r.
    - assert (E : (Datatypes.S i * cols + j = cols + (i * cols + j))%nat)
        by (rewrite Nat.mul_succ_l; lia).
      rewrite E.
      rewrite nth_error_app2 by (rewrite length_map, length_seq; lia).
      rewrite length_map, length_seq.
      replace (cols + (i * cols + j) - cols)%nat with (i * cols + j)%nat by lia.
      rewrite (IH (Datatypes.S a) i); [|lia].
      f_equal. f_equal. lia. }
  exact (G 0%nat rows i Hi).
Qed.

Lemma parametricTorus_empty :
  generateMockTorusFromPoints Math_cos Math_sin Math_atan2 [] =
  parametricTorus Math_cos Math_sin (12 # 10) (4 # 10) 48 24.
Proof.
  rewrite generateMockTorusFromPoints_geometry.
  change 48%Z with (Z.of_nat 48) at 1 3. change 24%Z with (Z.of_nat 24) at 1 3.
  rewrite gridVertices_positions. cbn [fst snd].
  rewrite gridFaces_48_24. unfold parametricTorus. f_equal.
Qed.

Hypothesis cos_range : forall a, unitRange (Math_cos a).
Hypothesis sin_range : forall a, unitRange (Math_sin a).

Lemma unitRange_mul a b : unitRange a -> unitRange b -> unitRange (a * b).
Proof. unfold unitRange. intros [? ?] [? ?]. split; nra. Qed.

Lemma spherePoint_bounded rings segments i j :
  boundedVec (snd (spherePoint Math_cos Math_sin 1 rings segments i j)).
Proof.
  unfold spherePoint, boundedVec. simpl.
  assert (U1 : unitRange 1) by (unfold unitRange; split; lra).
  repeat split; repeat apply unitRange_mul; auto.
Qed.

Lemma torusPoint_bounded R r m n i j :
  boundedVec (snd (torusPoint Math_cos Math_sin R r m n i j)).
Proof.
  unfold torusPoint, boundedVec. simpl.
  repeat split; try apply unitRange_mul; auto; apply sin_range.
Qed.
End MeshFacts.

End MeshFacts.

(** ** Sorting by confidence and the order of suppression *)

Module SuppressionFacts.
Import JS JSFacts ListFacts GeometryDetection GeometryDetectionFacts.

Lemma insertByConfidence_perm f l : Permutation (f :: l) (insertByConfidence f l).
Proof.
  induction l as [|g t IH]; simpl.
  - apply Permutation_refl.
  - destruct (Qltb _ _).
    + eapply Permutation_trans; [apply perm_swap|]. now apply perm_skip.
    + apply Permutation_refl.
Qed.

Lemma sortByConfidence_perm l : Permutation l (sortByConfidence l).
Proof.
  induction l as [|f l IH]; simpl.
  - constructor.
  - eapply Permutation_trans; [|apply insertByConfidence_perm]. now apply perm_skip.
Qed.

Lemma insertByConfidence_sorted f l :
  StronglySorted descending l -> StronglySorted descending (insertByConfidence f l).
Proof.
  induction 1 as [|g t Ht IH Hg]; simpl.
  - repeat constructor.
  - destruct (Qltb (f_confidence f) (f_confidence g)) eqn:E.
    + constructor; [assumption|].
      apply Forall_forall. intros x Hx. apply insertByConfidence_In in Hx.
      destruct Hx as [->|Hx].
      * apply Qltb_lt in E. unfold descending. now apply Qlt_le_weak.
      * rewrite Forall_forall in Hg. now apply Hg.
    + apply Qltb_ge in E. constructor; [now constructor|].
      constructor; [exact E|].
      eapply Forall_impl; [|exact Hg]. intros x Hx. unfold descending in *.
      eapply Qle_trans; eassumption.
Qed.

Lemma sortByConfidence_sorted l : StronglySorted descending (sortByConfidence l).
Proof.
  induction l as [|f l IH]; simpl; [constructor|now apply insertByConfidence_sorted].
Qed.

(** Stability: the features of one confidence keep their relative order. *)
Lemma insertByConfidence_stable c f l :
  filter (sameConfidence c) (insertByConfidence f l) = filter (sameConfidence c) (f :: l).
Proof.
  induction l as [|g t IH]; [reflexivity|].
  cbn [insertByConfidence].
  destruct (Qltb (f_confidence f) (f_confidence g)) eqn:E; [|reflexivity].
  cbn [filter] in *. rewrite IH.
  destruct (sameConfidence c f) eqn:Ef; [|reflexivity].
  destruct (sameConfidence c g) eqn:Eg; [|reflexivity].
  exfalso. unfold sameConfidence in *.
  apply Qeq_bool_iff in Ef, Eg. apply Qltb_lt in E. rewrite Ef, Eg in E.
  exact (Qlt_irrefl _ E).
Qed.

Lemma sortByConfidence_stable c l :
  filter (sameConfidence c) (sortByConfidence l) = filter (sameConfidence c) l.
Proof.
  induction l as [|f l IH]; [reflexivity|].
  simpl sortByConfidence. rewrite insertByConfidence_stable. cbn [filter]. now rewrite IH.
Qed.

(** The filter only ever extends what it has accepted. *)
Lemma filterBySpacing_app l1 l2 m :
  exists rest, filterBySpacing (l1 ++ l2) m = filterBySpacing l1 m ++ rest.
Proof.
  induction l2 as [|f l2 IH] using rev_ind.
  - exists []. now rewrite !app_nil_r.
  - destruct IH as [rest IH]. rewrite app_assoc, filterBySpacing_snoc. cbv zeta.
    destruct (tooClose _ _ f).
    + now exists rest.
    + exists (rest ++ [f]). rewrite IH. now rewrite app_assoc.
Qed.

(** How the candidate at one position is decided. *)
Lemma filterBySpacing_decides pre f post m :
  let kept := filterBySpacing pre m in
  exists rest,
    filterBySpacing (pre ++ f :: post) m =
    (if tooClose (m * m) kept f then kept else kept ++ [f]) ++ rest.
Proof.
  intros kept.
  replace (pre ++ f :: post) with ((pre ++ [f]) ++ post) by (now rewrite <- app_assoc).
  destruct (filterBySpacing_app (pre ++ [f]) post m) as [rest H].
  exists rest. rewrite H, filterBySpacing_snoc. reflexivity.
Qed.

Lemma filterBySpacing_rejected features m f :
  In f features ->
  In f (filterBySpacing features m)
  \/ exists e, In e (filterBySpacing features m) /\ distSq f e < m * m.
Proof.
  intros Hin. apply in_split in Hin. destruct Hin as [pre [post ->]].
  destruct (filterBySpacing_decides pre f post m) as [rest H]. cbv zeta in H.
  rewrite H. destruct (tooClose _ _ f) eqn:E.
  - right. apply tooClose_true in E. destruct E as [e [He Hd]].
    exists e. split; [|assumption]. apply in_or_app. now left.
  - left. apply in_or_app. left. apply in_or_app. right. now left.
Qed.

(** A stable sort by descending confidence has one result. *)
Lemma sameConfidence_refl f : sameConfidence (f_confidence f) f = true.
Proof. unfold sameConfidence. apply Qeq_bool_iff. reflexivity. Qed.

Lemma In_same_confidence f l :
  In f l -> In f (filter (sameConfidence (f_confidence f)) l).
Proof. intros H. apply filter_In. split; [exact H|apply sameConfidence_refl]. Qed.

Lemma sorted_head_max a t g :
  StronglySorted descending (a :: t) -> In g (a :: t) ->
  f_confidence g <= f_confidence a.
Proof.
  intros S [<-|H]; [apply Qle_refl|].
  apply StronglySorted_inv in S. destruct S as [_ Hall].
  rewrite Forall_forall in Hall. exact (Hall g H).
Qed.

Lemma sorted_stable_unique o1 o2 :
  StronglySorted descending o1 -> StronglySorted descending o2 ->
  (forall c, filter (sameConfidence c) o1 = filter (sameConfidence c) o2) ->
  o1 = o2.
Proof.
  revert o2. induction o1 as [|a t IH]; intros o2 S1 S2 H.
  - destruct o2 as [|b t2]; [reflexivity|].
    specialize (H (f_confidence b)). simpl in H.
    rewrite sameConfidence_refl in H. discriminate H.
  - destruct o2 as [|b t2].
    { specialize (H (f_confidence a)). simpl in H.
      rewrite sameConfidence_refl in H. discriminate H. }
    assert (Hba : f_confidence b <= f_confidence a).
    { apply (@sorted_head_max a t b S1).
      assert (Hin : In b (filter (sameConfidence (f_confidence b)) (b :: t2)))
        by (apply In_same_confidence; now left).
      rewrite <- H in Hin. apply filter_In in Hin. tauto. }
    assert (Hab : f_confidence a <= f_confidence b).
    { apply (@sorted_head_max b t2 a S2).
      assert (Hin : In a (filter (sameConfidence (f_confidence a)) (a :: t)))
        by (apply In_same_confidence; now left).
      rewrite H in Hin. apply filter_In in Hin. tauto. }
    assert (E : a = b).
    { pose proof (H (f_confidence a)) as Ha. simpl in Ha.
      rewrite sameConfidence_refl in Ha.
      assert (Eb : sameConfidence (f_confidence a) b = true).
      { unfold sameConfidence. apply Qeq_bool_iff. now apply Qle_antisym. }
      rewrite Eb in Ha. congruence. }
    subst b. f_equal.
    apply StronglySorted_inv in S1. apply StronglySorted_inv in S2.
    apply IH; [tauto|tauto|].
    intros c. specialize (H c). simpl in H.
    destruct (sameConfidence c a); congruence.
Qed.

Lemma SortedByConfidence_unique l o1 o2 :
  SortedByConfidence l o1 -> SortedByConfidence l o2 -> o1 = o2.
Proof.
  intros [_ [S1 F1]] [_ [S2 F2]].
  apply sorted_stable_unique; [assumption|assumption|].
  intros c. now rewrite F1, F2.
Qed.

Lemma sortByConfidence_meets l : SortedByConfidence l (sortByConfidence l).
Proof.
  split; [apply sortByConfidence_perm|].
  split; [apply sortByConfidence_sorted|].
  intros c. apply sortByConfidence_stable.
Qed.

Lemma detectionRun_deterministic : Deterministic detectionRun.
Proof.
  intros i o1 o2 [s1 [H1 ->]] [s2 [H2 ->]].
  now rewrite (SortedByConfidence_unique H1 H2).
Qed.

Lemma detectionRun_function imageData options :
  detectionRun (imageData, options) (detectFeaturesFromImageData imageData options).
Proof.
  unfold detectionRun. cbn [fst snd].
  eexists. split; [apply sortByConfidence_meets|reflexivity].
Qed.

End SuppressionFacts.

(** ** The draws of the mock points and the extraction query *)

Module QueryFacts.
Import JS JSFacts ListFacts AdjustPoints MockPointsFacts.

Section MockDraws.
Variables Math_cos Math_sin : Q -> Q.

(** The mock points depend on the draws that the run takes, and a run
    takes at most [drawsOf params] draws. *)
Section Ext.
Variables r1 r2 : nat -> Q.

Lemma candidate_ext e n :
  (forall i, (n <= i < n + 3)%nat -> r1 i = r2 i) ->
  candidate Math_cos Math_sin r1 e n = candidate Math_cos Math_sin r2 e n
  /\ snd (candidate Math_cos Math_sin r2 e n) = (n + 3)%nat.
Proof.
  intros H. unfold candidate, bind, random, ret. cbv beta iota zeta.
  rewrite (H n) by lia.
  destruct (Qltb (r2 n) e); cbv beta iota zeta;
    rewrite (H (S n)) by lia; rewrite (H (S (S n))) by lia;
    cbn [snd]; split; try reflexivity; lia.
Qed.

Lemma placeLoop_ext k e m points n :
  (forall i, (n <= i < n + 3 * k)%nat -> r1 i = r2 i) ->
  placeLoop Math_cos Math_sin r1 k e m points n
  = placeLoop Math_cos Math_sin r2 k e m points n
  /\ (n <= snd (placeLoop Math_cos Math_sin r2 k e m points n) <= n + 3 * k)%nat.
Proof.
  revert n. induction k as [|k IH]; intros n H; cbn [placeLoop].
  - unfold ret. cbn [snd]. split; [reflexivity|lia].
  - unfold bind.
    destruct (@candidate_ext e n) as [Ec En]; [intros i Hi; apply H; lia|].
    rewrite Ec.
    destruct (candidate Math_cos Math_sin r2 e n) as [c n0]. cbn [snd] in En. subst n0.
    destruct (tooClose m points (fst c) (snd c)).
    + destruct (IH (n + 3)%nat) as [E1 E2]; [intros i Hi; apply H; lia|].
      rewrite E1. split; [reflexivity|lia].
    + unfold ret. cbn [snd]. split; [reflexivity|lia].
Qed.

Lemma placePoint_ext e m w points n :
  (forall i, (n <= i < n + drawsPerPoint)%nat -> r1 i = r2 i) ->
  placePoint Math_cos Math_sin r1 e m w points n
  = placePoint Math_cos Math_sin r2 e m w points n
  /\ (n <= snd (placePoint Math_cos Math_sin r2 e m w points n)
           <= n + drawsPerPoint)%nat.
Proof.
  unfold drawsPerPoint. intros H.
  rewrite !placePoint_exits. unfold placePointExits, bind.
  destruct (@placeLoop_ext maxAttempts e m points n) as [E1 E2];
    [intros i Hi; apply H; lia|].
  rewrite E1.
  destruct (placeLoop Math_cos Math_sin r2 maxAttempts e m points n) as [[[x y]|] n0];
    cbn [snd] in E2.
  - unfold random, ret. cbn [snd]. rewrite (H n0) by lia. split; [reflexivity|lia].
  - unfold ret. cbn [snd]. split; [reflexivity|lia].
Qed.

Lemma placeAll_ext k e m w points n :
  (forall i, (n <= i < n + k * drawsPerPoint)%nat -> r1 i = r2 i) ->
  placeAll Math_cos Math_sin r1 k e m w points n
  = placeAll Math_cos Math_sin r2 k e m w points n
  /\ (n <= snd (placeAll Math_cos Math_sin r2 k e m w points n)
           <= n + k * drawsPerPoint)%nat.
Proof.
  revert points n. induction k as [|k IH]; intros points n H; cbn [placeAll].
  - unfold ret. cbn [snd]. split; [reflexivity|lia].
  - unfold bind. pose proof (Nat.mul_succ_l k drawsPerPoint) as Hs.
    destruct (@placePoint_ext e m w points n) as [E1 E2];
      [intros i Hi; apply H; lia|].
    rewrite E1.
    destruct (placePoint Math_cos Math_sin r2 e m w points n) as [pts n0].
    cbn [snd] in E2.
    destruct (IH pts n0) as [E3 E4]; [intros i Hi; apply H; lia|].
    rewrite E3. split; [reflexivity|lia].
Qed.

Lemma generateMockPoints_ext params :
  (forall i, (i < drawsOf params)%nat -> r1 i = r2 i) ->
  generateMockPoints Math_cos Math_sin r1 params
  = generateMockPoints Math_cos Math_sin r2 params.
Proof.
  intros H. unfold generateMockPoints.
  destruct (@placeAll_ext (Z.to_nat (totalPointsOf (density params)))
              (divF (threshold params) 255) (divF (minSpacing params) 100)
              (weighting params) [] 0%nat) as [E _].
  - intros i Hi. apply H. unfold drawsOf. lia.
  - now rewrite E.
Qed.
End Ext.

Variable Math_random : nat -> Q.

(** The first point is always placed, and points are never removed. *)
Lemma placePoint_grows e m w points n :
  (length points <= length (fst (placePoint Math_cos Math_sin Math_random e m w points n)))%nat.
Proof.
  rewrite placePoint_exits. unfold placePointExits, bind at 1.
  destruct (placeLoop _ _ _ _ _ _ _ _) as [[[x y]|] n0]; simpl; [|lia].
  rewrite length_app. simpl. lia.
Qed.

Lemma placeAll_grows k e m w points n :
  (length points <= length (fst (placeAll Math_cos Math_sin Math_random k e m w points n)))%nat.
Proof.
  revert points n. induction k as [|k IH]; intros points n; simpl; [lia|].
  unfold bind. pose proof (placePoint_grows e m w points n) as H.
  destruct (placePoint _ _ _ _ _ _ _ _) as [pts n0]. simpl in H.
  specialize (IH pts n0). lia.
Qed.

Lemma placePoint_first e m w n :
  length (fst (placePoint Math_cos Math_sin Math_random e m w [] n)) = 1%nat.
Proof.
  rewrite placePoint_exits. unfold placePointExits, bind at 1.
  unfold maxAttempts. simpl placeLoop.
  unfold bind at 1. destruct (candidate _ _ _ _ _) as [[x y] n0]. simpl.
  reflexivity.
Qed.

Lemma generateMockPoints_nonempty params :
  (1 <= totalPointsOf (density params))%Z ->
  generateMockPoints Math_cos Math_sin Math_random params <> [].
Proof.
  intros Ht. unfold generateMockPoints.
  destruct (Z.to_nat (totalPointsOf (density params))) as [|k] eqn:E; [lia|].
  simpl. unfold bind.
  pose proof (placePoint_first (divF (threshold params) 255) (divF (minSpacing params) 100)
                (weighting params) 0) as H1.
  destruct (placePoint _ _ _ _ _ _ _ _) as [pts n0]. simpl in H1.
  pose proof (placeAll_grows k (divF (threshold params) 255) (divF (minSpacing params) 100)
                (weighting params) pts n0) as H2.
  intros Hnil. rewrite Hnil in H2. simpl in H2. lia.
Qed.

(** With a detection that is not empty the query resolves with the
    detected points. *)
Lemma queryFn_detected imageId imageUrl load now params :
  truthy imageId = true -> truthy imageUrl = true ->
  detectGeometricFeatures load
    (GeometryDetection.mkOptions (threshold params) (minSpacing params) (density params)) <> [] ->
  queryFn Math_cos Math_sin Math_random imageId imageUrl true ApiError load now params
  = Resolved (mkQueryData ("local-" ++ now)
                (detectGeometricFeatures load
                   (GeometryDetection.mkOptions (threshold params) (minSpacing params)
                      (density params)))).
Proof.
  intros Hid Hurl Hd. unfold queryFn. rewrite Hid, Hurl. cbn [negb andb].
  destruct (detectGeometricFeatures load _) as [|p l]; [congruence|].
  destruct (Z.ltb_spec 0 (Z.of_nat (length (p :: l)))) as [_|H]; [reflexivity|].
  simpl length in H. lia.
Qed.

(** The query falls back to the mock points when the detection is empty. *)
Lemma queryFn_empty_detection imageId imageUrl useGD load now params :
  truthy imageId = true ->
  detectGeometricFeatures load
    (GeometryDetection.mkOptions (threshold params) (minSpacing params) (density params)) = [] ->
  queryFn Math_cos Math_sin Math_random imageId imageUrl useGD ApiError load now params
  = Resolved (mkQueryData ("mock-" ++ now)
                (generateMockPoints Math_cos Math_sin Math_random params)).
Proof.
  intros Hid Hd. unfold queryFn. rewrite Hid, Hd. simpl.
  destruct (useGD && truthy imageUrl); reflexivity.
Qed.

Lemma queryFn_never_rejects_with_id imageId imageUrl useGD api load now params :
  truthy imageId = true ->
  exists d, queryFn Math_cos Math_sin Math_random imageId imageUrl useGD api load now params
            = Resolved d.
Proof.
  intros Hid. unfold queryFn. rewrite Hid. simpl.
  destruct api; [eauto|].
  destruct (useGD && truthy imageUrl); [|eauto].
  destruct (0 <? _)%Z; eauto.
Qed.
End MockDraws.


(** The first mock point is the first candidate; later points come after it. *)
Section MockHead.
Variables Math_cos Math_sin : Q -> Q.
Variable Math_random : nat -> Q.

Lemma placePoint_extends e m w points n :
  exists rest,
    fst (placePoint Math_cos Math_sin Math_random e m w points n) = points ++ rest.
Proof.
  rewrite placePoint_exits. unfold placePointExits, bind at 1.
  destruct (placeLoop _ _ _ _ _ _ _ _) as [[[x y]|] n0]; simpl.
  - eexists. reflexivity.
  - exists []. now rewrite app_nil_r.
Qed.

Lemma placeAll_extends k e m w points n :
  exists rest,
    fst (placeAll Math_cos Math_sin Math_random k e m w points n) = points ++ rest.
Proof.
  revert points n. induction k as [|k IH]; intros points n; simpl.
  - exists []. now rewrite app_nil_r.
  - unfold bind. destruct (placePoint_extends e m w points n) as [r1 H1].
    destruct (placePoint _ _ _ _ _ _ _ _) as [pts n0]. simpl in H1. subst pts.
    destruct (IH (points ++ r1) n0) as [r2 H2]. exists (r1 ++ r2).
    now rewrite H2, app_assoc.
Qed.

Lemma placeAll_add a b e m w points n :
  placeAll Math_cos Math_sin Math_random (a + b) e m w points n
  = (let '(points', n') := placeAll Math_cos Math_sin Math_random a e m w points n in
     placeAll Math_cos Math_sin Math_random b e m w points' n').
Proof.
  revert points n. induction a as [|a IH]; intros points n; cbn [placeAll Nat.add].
  - reflexivity.
  - unfold bind. destruct (placePoint _ _ _ _ _ _ _ _) as [pts n0]. apply IH.
Qed.

Lemma generateMockPoints_prefix params k :
  (Z.of_nat k <= totalPointsOf (density params))%Z ->
  exists rest,
    generateMockPoints Math_cos Math_sin Math_random params =
    fst (placeAll Math_cos Math_sin Math_random k (divF (threshold params) 255)
           (divF (minSpacing params) 100) (weighting params) [] 0%nat) ++ rest.
Proof.
  intros Hk. unfold generateMockPoints.
  replace (Z.to_nat (totalPointsOf (density params)))
    with (k + (Z.to_nat (totalPointsOf (density params)) - k))%nat by lia.
  rewrite placeAll_add.
  destruct (placeAll _ _ _ k _ _ _ _ _) as [pts n0]. cbn [fst].
  apply placeAll_extends.
Qed.

Lemma generateMockPoints_head params :
  (1 <= totalPointsOf (density params))%Z ->
  exists rest,
    generateMockPoints Math_cos Math_sin Math_random params =
    fst (placePoint Math_cos Math_sin Math_random (divF (threshold params) 255)
           (divF (minSpacing params) 100) (weighting params) [] 0%nat) ++ rest.
Proof.
  intros Ht. unfold generateMockPoints.
  destruct (Z.to_nat (totalPointsOf (density params))) as [|k] eqn:E; [lia|].
  simpl. unfold bind.
  destruct (placePoint _ _ _ _ _ _ _ _) as [pts n0]. simpl.
  apply placeAll_extends.
Qed.
End MockHead.

End QueryFacts.

(** ** The points returned by the detection and their features *)

Module DetectedPointsFacts.
Import JS JSFacts GeometryDetection GeometryDetectionFacts AdjustPoints MockPointsFacts.

Lemma nth_error_map_inv {A B} (f : A -> B) l i b :
  nth_error (map f l) i = Some b -> exists a, nth_error l i = Some a /\ b = f a.
Proof.
  rewrite nth_error_map. destruct (nth_error l i) as [a|]; simpl; [|discriminate].
  intros H. inversion H. now exists a.
Qed.

Lemma detectGeometricFeatures_spaced imageData options :
  SpacedAsFeatures (GeometryDetection.minSpacing options)
    (width imageData) (height imageData)
    (detectGeometricFeatures (OnLoad imageData) options).
Proof.
  intros i j p q Hij Hp Hq. unfold detectGeometricFeatures in Hp, Hq.
  apply nth_error_map_inv in Hp, Hq.
  destruct Hp as [a [Ha ->]]. destruct Hq as [b [Hb ->]].
  exists a, b. split; [reflexivity|]. split; [reflexivity|].
  exact (detectFeaturesFromGray_spaced _ _ _ _ Hij Ha Hb).
Qed.

End DetectedPointsFacts.

(** ** The example inputs *)

Module ExamplesFacts.
Import Examples.

Lemma Qsquare_nonneg (x : Q) : 0 <= x * x.
Proof.
  destruct (Qlt_le_dec x 0) as [H|H].
  - setoid_replace (x * x) with ((- x) * (- x)) by ring.
    apply Qmult_le_0_compat; lra.
  - apply Qmult_le_0_compat; assumption.
Qed.

Lemma sample_denominator a : 0 < 1 + (a / 2) * (a / 2).
Proof. nra. Qed.

Lemma sampleCos_range a : -(1) <= sampleCos a /\ sampleCos a <= 1.
Proof.
  unfold sampleCos. pose proof (sample_denominator a) as Hd. split.
  - apply Qle_shift_div_l; [assumption|]. nra.
  - apply Qle_shift_div_r; [assumption|]. nra.
Qed.

Lemma sampleSin_range a : -(1) <= sampleSin a /\ sampleSin a <= 1.
Proof.
  unfold sampleSin. pose proof (sample_denominator a) as Hd.
  set (t := a / 2) in *. clearbody t.
  pose proof (Qsquare_nonneg (t + 1)) as H1.
  pose proof (Qsquare_nonneg (t - 1)) as H2.
  split.
  - apply Qle_shift_div_l; [assumption|]. lra.
  - apply Qle_shift_div_r; [assumption|]. lra.
Qed.

Lemma mod10_range k : 0 <= JS.divF (inject_Z (Z.of_nat (k mod 10))) 10
                      /\ JS.divF (inject_Z (Z.of_nat (k mod 10))) 10 < 1.
Proof.
  pose proof (Nat.mod_upper_bound k 10 ltac:(lia)) as H.
  assert (L : 0 <= inject_Z (Z.of_nat (k mod 10)) / 10).
  { apply Qle_shift_div_l; [reflexivity|]. rewrite Qmult_0_l.
    change 0 with (inject_Z 0). rewrite <- Zle_Qle. lia. }
  assert (U : inject_Z (Z.of_nat (k mod 10)) / 10 <= 9 # 10).
  { apply Qle_shift_div_r; [reflexivity|].
    assert (E : (9 # 10) * 10 == inject_Z 9) by reflexivity.
    rewrite E, <- Zle_Qle. lia. }
  unfold JS.divF. split.
  - now apply FloatFacts.fl_nonneg.
  - apply Qle_lt_trans with (JS.fl (9 # 10)); [now apply FloatFacts.fl_mono|].
    vm_compute. reflexivity.
Qed.

Lemma sampleRandom_valid : AdjustPoints.validDraws sampleRandom.
Proof. intros n. apply mod10_range. Qed.

Lemma otherRandom_valid : AdjustPoints.validDraws otherRandom.
Proof. intros n. apply mod10_range. Qed.

End ExamplesFacts.

(** ** Snapping, the positions of the features, the store, the views *)

Module SnappingFacts.
Import JS JSFacts ListFacts ExamplesFacts GeometryDetection Snapping.









End SnappingFacts.

Module NearestFeatureFacts.
Import JS JSFacts ListFacts GeometryDetection NearestFeature.

Lemma computed_nearestLoop_snoc x y features f m :
  nearestLoop x y (features ++ [f]) m =
  (let '(nearest, minDist) := nearestLoop x y features m in
   if Qltb (distTo x y f) minDist then (Some f, distTo x y f) else (nearest, minDist)).
Proof.
  unfold nearestLoop. rewrite fold_left_app. simpl.
  now destruct (fold_left _ features _) as [nearest minDist].
Qed.

Lemma computed_nearestLoop_nearestOf x y features m :
  nearestOf x y m features (nearestLoop x y features m).
Proof.
  induction features as [|f l IH] using rev_ind.
  - split; [reflexivity|constructor].
  - rewrite computed_nearestLoop_snoc.
    destruct (nearestLoop x y l m) as [[best|] minDist]; unfold nearestOf in *;
      cbn [fst snd] in *.
    + destruct IH as [-> [Hw [pre [post [-> [Hpre Hpost]]]]]].
      destruct (Qltb (distTo x y f) (distTo x y best)) eqn:E; cbn [fst snd].
      * apply Qltb_lt in E. split; [reflexivity|]. split; [lra|].
        exists (pre ++ best :: post), []. split; [reflexivity|]. split; [|constructor].
        apply Forall_app. split.
        -- eapply Forall_impl; [|exact Hpre]. intros g Hg. cbv beta in Hg. lra.
        -- constructor; [assumption|].
           eapply Forall_impl; [|exact Hpost]. intros g Hg. cbv beta in Hg. lra.
      * apply Qltb_ge in E. split; [reflexivity|]. split; [assumption|].
        exists pre, (post ++ [f]). split; [now rewrite <- app_assoc|].
        split; [assumption|]. apply Forall_app. split; [assumption|].
        constructor; [assumption|constructor].
    + destruct IH as [-> IH].
      destruct (Qltb (distTo x y f) m) eqn:E; cbn [fst snd].
      * apply Qltb_lt in E. split; [reflexivity|]. split; [assumption|].
        exists l, []. split; [reflexivity|]. split; [|constructor].
        eapply Forall_impl; [|exact IH]. intros g Hg. cbv beta in Hg. lra.
      * apply Qltb_ge in E. split; [reflexivity|].
        apply Forall_app. split; [assumption|]. constructor; [assumption|constructor].
Qed.

End NearestFeatureFacts.

Module FilterFacts.
Import JS JSFacts ListFacts ExamplesFacts GeometryDetection GeometryDetectionFacts.
Import SuppressionFacts BlankImageFacts.

Lemma FOP_snoc_inv {A} (R : A -> A -> Prop) l x :
  ForallOrdPairs R (l ++ [x]) -> ForallOrdPairs R l /\ Forall (fun e => R e x) l.
Proof.
  induction l as [|a l IH]; simpl; intros H.
  - split; constructor.
  - inversion H as [|a' l' Ha Hl]; subst. destruct (IH Hl) as [H1 H2].
    apply Forall_app in Ha. destruct Ha as [Ha1 Ha2]. inversion Ha2; subst.
    split; constructor; assumption.
Qed.

Lemma tooClose_far msq filtered f :
  Forall (fun e => msq <= distSq f e) filtered -> tooClose msq filtered f = false.
Proof.
  unfold tooClose. induction 1 as [|e l He Hl IH]; simpl; [reflexivity|].
  rewrite IH, orb_false_r. now apply Qltb_ge.
Qed.

(** A list that is already spaced passes the filter unchanged. *)
Lemma filterBySpacing_spaced_id features m :
  ForallOrdPairs (far m) features -> filterBySpacing features m = features.
Proof.
  induction features as [|f l IH] using rev_ind; [reflexivity|].
  intros H. apply FOP_snoc_inv in H. destruct H as [Hl Hf].
  rewrite filterBySpacing_snoc. cbv zeta. rewrite (IH Hl).
  rewrite tooClose_far; [reflexivity|].
  eapply Forall_impl; [|exact Hf]. intros e He. now apply far_sym.
Qed.

Lemma distSq_nonneg a b : 0 <= distSq a b.
Proof.
  unfold distSq. cbv zeta.
  pose proof (Qsquare_nonneg (f_x a - f_x b)). pose proof (Qsquare_nonneg (f_y a - f_y b)).
  lra.
Qed.

Lemma FOP_far_zero features m : m == 0 -> ForallOrdPairs (far m) features.
Proof.
  intros Hm. induction features as [|f l IH]; constructor; [|assumption].
  apply Forall_forall. intros e _. unfold far. rewrite Hm.
  pose proof (distSq_nonneg f e). lra.
Qed.

Lemma filterBySpacing_head f features m :
  exists rest, filterBySpacing (f :: features) m = f :: rest.
Proof.
  destruct (filterBySpacing_app [f] features m) as [rest H].
  exists rest. exact H.
Qed.

Lemma get_upd_nat_other {A} (d : A) (a : list A) n k v :
  n <> k -> nth k (upd_nat a n v) d = nth k a d.
Proof.
  revert n k. induction a as [|h t IH]; intros [|n] [|k] Hnk; simpl; try reflexivity;
    try lia. apply IH. lia.
Qed.

Lemma get_upd_other {A} (d : A) (a : list A) i j v :
  i <> j -> get d (upd a i v) j = get d a j.
Proof.
  intros Hij. unfold get, upd.
  destruct (Z.ltb_spec j 0); [reflexivity|].
  destruct (Z.ltb_spec i 0); [reflexivity|].
  apply get_upd_nat_other. lia.
Qed.

Lemma applySobelFilter_length gray w h threshold :
  length (applySobelFilter gray w h threshold) = Z.to_nat (w * h).
Proof.
  unfold applySobelFilter. apply for_range_ind; [lia| |unfold zeros; apply repeat_length].
  intros y edges _ He. apply for_range_ind; [lia| |assumption].
  intros x edges' _ He'. destruct (sobelAt gray w x y). now rewrite upd_length.
Qed.

Lemma applySobelFilter_cells gray w h threshold :
  Forall (fun v => v = 0%Z \/ v = 255%Z) (applySobelFilter gray w h threshold).
Proof.
  unfold applySobelFilter. apply for_range_ind; [lia| |].
  - intros y edges _ He. apply for_range_ind; [lia| |assumption].
    intros x edges' _ He'. destruct (sobelAt gray w x y).
    apply upd_Forall; [assumption|]. destruct (sqrt_gtb _ _); auto.
  - eapply Forall_impl; [|apply zeros_Forall]. intros v <-. now left.
Qed.

(** The pixels of the first and last row and column are never written. *)
Lemma applySobelFilter_border gray w h threshold x y :
  (0 <= x < w)%Z -> (0 <= y < h)%Z ->
  (x = 0 \/ x = w - 1 \/ y = 0 \/ y = h - 1)%Z ->
  get 0%Z (applySobelFilter gray w h threshold) (y * w + x) = 0%Z.
Proof.
  intros Hx Hy Hborder. unfold applySobelFilter.
  apply for_range_ind; [lia| |apply get_zeros; apply zeros_Forall].
  intros y' edges Hy' He. apply for_range_ind; [lia| |assumption].
  intros x' edges' Hx' He'. destruct (sobelAt gray w x' y').
  rewrite get_upd_other; [assumption|].
  intros E.
  assert (Hxy : (y' = y /\ x' = x)%Z); [|lia].
  assert (Hyy : ((y' - y) * w = x - x')%Z) by lia.
  destruct (Z.eq_dec y' y) as [->|Hne]; [split; [reflexivity|lia]|exfalso].
  assert (Habs : (w <= Z.abs ((y' - y) * w))%Z).
  { rewrite Z.abs_mul. rewrite (Z.abs_eq w) by lia.
    assert (1 <= Z.abs (y' - y))%Z by lia. nia. }
  rewrite Hyy in Habs. lia.
Qed.

Lemma toUint8_range q : (0 <= toUint8 q < 256)%Z.
Proof. unfold toUint8. apply Z.mod_pos_bound. lia. Qed.

Lemma toGray_cells w h d : Forall (fun v => (0 <= v < 256)%Z) (toGray w h d).
Proof.
  unfold toGray. apply for_range_ind; [lia| |].
  - intros i gray _ Hg. apply upd_Forall; [assumption|apply toUint8_range].
  - eapply Forall_impl; [|apply zeros_Forall]. intros v <-. lia.
Qed.


End FilterFacts.

Module DetectionBoundsFacts.
Import JS JSFacts ListFacts ExamplesFacts GeometryDetection GeometryDetectionFacts.
Import SuppressionFacts BlankImageFacts DetectionBounds FilterFacts.

(** The loop variable stays on the grid [lo, lo + step, ...]. *)
Lemma for_steps_stride_ind {S : Type} (P : S -> Prop) (hi step : Z) (body : Z -> S -> S) :
  (0 < step)%Z ->
  forall n i s lo,
    (lo <= i)%Z -> ((i - lo) mod step = 0)%Z ->
    (Z.of_nat n <= (hi - i + step - 1) / step)%Z ->
    (forall j t, (lo <= j < hi)%Z -> ((j - lo) mod step = 0)%Z -> P t -> P (body j t)) ->
    P s -> P (for_steps n i step body s).
Proof.
  intros Hstep n. induction n as [|n IH]; intros i s lo Hlo Hmod Hn Hbody Hs; simpl.
  - exact Hs.
  - assert (Hi : (i < hi)%Z).
    { destruct (Z_lt_ge_dec i hi) as [|Hge]; [assumption|exfalso].
      assert ((hi - i + step - 1) / step <= 0)%Z.
      { apply Z.lt_succ_r. apply Z.div_lt_upper_bound; lia. }
      lia. }
    apply IH with (lo := lo).
    + lia.
    + replace (i + step - lo)%Z with ((i - lo) + 1 * step)%Z by ring.
      rewrite Z.mod_add by lia. exact Hmod.
    + replace (hi - (i + step) + step - 1)%Z with ((hi - i + step - 1) + (-1) * step)%Z
        by ring.
      rewrite Z.div_add by lia. lia.
    + exact Hbody.
    + apply Hbody; [lia|exact Hmod|exact Hs].
Qed.

Lemma for_range_stride_ind {S : Type} (P : S -> Prop) (lo hi step : Z)
      (body : Z -> S -> S) (s : S) :
  (0 < step)%Z ->
  (forall j t, (lo <= j < hi)%Z -> ((j - lo) mod step = 0)%Z -> P t -> P (body j t)) ->
  P s -> P (for_range lo hi step body s).
Proof.
  intros Hstep Hbody Hs. unfold for_range.
  destruct (Z_lt_ge_dec ((hi - lo + step - 1) / step) 0)%Z as [Hneg|Hpos].
  - destruct ((hi - lo + step - 1) / step)%Z; try lia. exact Hs.
  - apply for_steps_stride_ind with (hi := hi) (lo := lo); try assumption; try lia.
    rewrite Z.sub_diag. apply Z.mod_0_l. lia.
Qed.

Lemma detectCorners_candidates gray w h threshold :
  Forall (cornerCandidate w h threshold) (detectCorners gray w h threshold).
Proof.
  unfold detectCorners.
  apply for_range_stride_ind; [lia| |constructor].
  intros y corners Hy Hymod Hcorners.
  apply for_range_stride_ind; [lia| |assumption].
  intros x corners' Hx Hxmod Hcorners'. cbv zeta.
  destruct (Qltb (threshold * 100) (harrisResponse gray w x y)) eqn:E; [|assumption].
  apply Forall_app. split; [assumption|]. constructor; [|constructor].
  split.
  - exists x, y. simpl. repeat split; lia.
  - simpl. apply Qltb_lt in E.
    setoid_replace (harrisResponse gray w x y / 1000000 * 1000000)
      with (harrisResponse gray w x y) by field.
    exact E.
Qed.

(** A counter that each iteration leaves or increments. *)
Lemma for_steps_counter {S : Type} (count : S -> Z) (step : Z) (body : Z -> S -> S) :
  (forall i s, (count s <= count (body i s) <= count s + 1)%Z) ->
  forall n i s,
    (count s <= count (for_steps n i step body s) <= count s + Z.of_nat n)%Z.
Proof.
  intros Hbody n. induction n as [|n IH]; intros i s; simpl for_steps.
  - lia.
  - specialize (IH (i + step)%Z (body i s)). specialize (Hbody i s). lia.
Qed.

Lemma calculateCurvature_range edges x y w h :
  0 <= calculateCurvature edges x y w h /\ calculateCurvature edges x y w h <= 1.
Proof.
  unfold calculateCurvature. cbv zeta.
  set (inner := fun dy cnt => for_range (- (5)) (5 + 1) 1 _ cnt).
  assert (Hinner : forall dy cnt, (cnt <= inner dy cnt <= cnt + 11)%Z).
  { intros dy cnt. unfold inner, for_range.
    change (Z.to_nat ((5 + 1 - - (5) + 1 - 1) / 1)) with 11%nat.
    pose proof (for_steps_counter (fun c : Z => c) 1
                  (fun dx cnt0 =>
                     if (0 <=? x + dx)%Z && (x + dx <? w)%Z && (0 <=? y + dy)%Z
                        && (y + dy <? h)%Z
                     then if (0 <? get 0%Z edges ((y + dy) * w + (x + dx)))%Z
                          then (cnt0 + 1)%Z else cnt0
                     else cnt0)) as H.
    cbv beta in H.
    assert (Hb : forall i s : Z,
               (s <= (if (0 <=? x + i)%Z && (x + i <? w)%Z && (0 <=? y + dy)%Z
                         && (y + dy <? h)%Z
                      then if (0 <? get 0%Z edges ((y + dy) * w + (x + i)))%Z
                           then (s + 1)%Z else s
                      else s) <= s + 1)%Z).
    { intros i s. destruct (_ && _); [destruct (0 <? _)%Z|]; lia. }
    specialize (H Hb 11%nat (- (5))%Z cnt). lia. }
  set (total := for_range (- (5)) (5 + 1) 1 inner 0%Z).
  assert (Htotal : (0 <= total <= 121)%Z).
  { unfold total, for_range.
    change (Z.to_nat ((5 + 1 - - (5) + 1 - 1) / 1)) with 11%nat.
    assert (G : forall n i s, (s <= for_steps n i 1 inner s <= s + 11 * Z.of_nat n)%Z).
    { intros n. induction n as [|n IH]; intros i s; simpl for_steps; [lia|].
      specialize (IH (i + 1)%Z (inner i s)). specialize (Hinner i s). lia. }
    specialize (G 11%nat (- (5))%Z 0%Z). lia. }
  change (inject_Z ((5 * 2 + 1) ^ 2)) with (inject_Z 121).
  split.
  - apply Qle_shift_div_l; [reflexivity|]. rewrite Qmult_0_l.
    change 0 with (inject_Z 0). rewrite <- Zle_Qle. lia.
  - apply Qle_shift_div_r; [reflexivity|]. rewrite Qmult_1_l.
    rewrite <- Zle_Qle. lia.
Qed.

Lemma detectCurvePoints_on_edges edges w h :
  Forall (fun r => onEdge edges w h r
                   /\ 3 # 10 < r_confidence r /\ r_confidence r <= 1)
    (detectCurvePoints edges w h).
Proof.
  unfold detectCurvePoints.
  apply for_range_stride_ind; [lia| |constructor].
  intros y pts Hy Hymod Hpts.
  apply for_range_stride_ind; [lia| |assumption].
  intros x pts' Hx Hxmod Hpts'. cbv zeta.
  rewrite Z.sub_0_r in Hxmod, Hymod.
  destruct (Z.ltb_spec 0 (get 0%Z edges (y * w + x))); [|assumption].
  destruct (Qltb (3 # 10) (calculateCurvature edges x y w h)) eqn:E; [|assumption].
  apply Forall_app. split; [assumption|]. constructor; [|constructor].
  split.
  - exists x, y. simpl. repeat split; solve [lia|assumption].
  - simpl. split; [now apply Qltb_lt|apply calculateCurvature_range].
Qed.

(** The edge map of the Sobel filter is not set on the border of the
    image, so no curve point is sampled there. *)
Lemma detectCurvePoints_candidates gray w h threshold :
  Forall (curveCandidate w h)
    (detectCurvePoints (applySobelFilter gray w h threshold) w h).
Proof.
  eapply Forall_impl; [|apply detectCurvePoints_on_edges].
  intros r [[x [y [Hx [Hy [Hxw [Hyh [Hxm [Hym Hset]]]]]]]] Hc]. split; [|exact Hc].
  exists x, y. split; [assumption|]. split; [assumption|].
  rewrite !Z.sub_0_r.
  destruct (Z.eq_dec x 0) as [E|E];
    [rewrite applySobelFilter_border in Hset; lia|].
  destruct (Z.eq_dec x (w - 1)) as [E1|E1];
    [rewrite applySobelFilter_border in Hset; lia|].
  destruct (Z.eq_dec y 0) as [E2|E2];
    [rewrite applySobelFilter_border in Hset; lia|].
  destruct (Z.eq_dec y (h - 1)) as [E3|E3];
    [rewrite applySobelFilter_border in Hset; lia|].
  lia.
Qed.

Lemma allFeaturesOf_detected gray w h threshold :
  Forall (detectedFeature w h threshold) (allFeaturesOf gray w h threshold).
Proof.
  unfold allFeaturesOf. apply Forall_app. split; apply Forall_forall; intros f Hf;
    apply in_map_iff in Hf; destruct Hf as [r [<- Hr]].
  - left. split; [reflexivity|]. simpl.
    pose proof (detectCorners_candidates gray w h threshold) as H.
    rewrite Forall_forall in H. specialize (H r Hr). now destruct r.
  - right. split; [reflexivity|]. simpl.
    pose proof (detectCurvePoints_candidates gray w h threshold) as H.
    rewrite Forall_forall in H. specialize (H r Hr). now destruct r.
Qed.

Lemma filterBySpacing_In features m f :
  In f (filterBySpacing features m) -> In f features.
Proof.
  induction features as [|g l IH] using rev_ind; [simpl; tauto|].
  rewrite filterBySpacing_snoc. cbv zeta. intros H. apply in_or_app.
  destruct (tooClose _ _ g).
  - left. now apply IH.
  - apply in_app_or in H. destruct H as [H|H]; [left; now apply IH|now right].
Qed.

Lemma slice0_In {A} (l : list A) e x : In x (slice0 l e) -> In x l.
Proof.
  destruct (slice0_firstn l e) as [n ->]. apply In_firstn.
Qed.

Lemma detected_is_candidate gray w h options f :
  In f (detectFeaturesFromGray gray w h options) ->
  In f (allFeaturesOf gray w h (threshold options)).
Proof.
  unfold detectFeaturesFromGray. intros H.
  apply slice0_In in H. apply (proj1 (sortByConfidence_In _ _)) in H.
  now apply filterBySpacing_In in H.
Qed.

End DetectionBoundsFacts.

Module DetectedPointFacts.
Import JS JSFacts ListFacts GeometryDetection GeometryDetectionFacts AdjustPoints.
Import SuppressionFacts DetectionBounds DetectionBoundsFacts FilterFacts.

Lemma detectFeaturesFromImageData_detected imageData options :
  Forall (detectedFeature (width imageData) (height imageData)
            (GeometryDetection.threshold options))
    (detectFeaturesFromImageData imageData options).
Proof.
  apply Forall_forall. intros f Hf.
  apply detected_is_candidate in Hf.
  pose proof (allFeaturesOf_detected
                (toGray (width imageData) (height imageData) (data imageData))
                (width imageData) (height imageData)
                (GeometryDetection.threshold options)) as H.
  rewrite Forall_forall in H. now apply H.
Qed.


Lemma normalised_range (x lo w : Z) :
  (0 <= lo <= x)%Z -> (x < w)%Z ->
  0 <= inject_Z x / inject_Z w /\ inject_Z x / inject_Z w < 1.
Proof.
  intros Hx Hw.
  assert (Hpos : 0 < inject_Z w).
  { change 0 with (inject_Z 0). rewrite <- Zlt_Qlt. lia. }
  split.
  - apply Qle_shift_div_l; [assumption|]. rewrite Qmult_0_l.
    change 0 with (inject_Z 0). rewrite <- Zle_Qle. lia.
  - apply Qlt_shift_div_r; [assumption|]. rewrite Qmult_1_l.
    rewrite <- Zlt_Qlt. lia.
Qed.

Lemma featureToPoint_detected w h threshold f :
  detectedFeature w h threshold f -> detectedPoint threshold (featureToPoint w h f).
Proof.
  intros [[Ht [[x [y [Hx [Hy [Hxw [Hyh _]]]]]] Hc]]|[Ht [[x [y [Hx [Hy [Hxw [Hyh _]]]]]] Hc]]];
    simpl in Hx, Hy, Hc; unfold detectedPoint, featureToPoint; simpl;
    rewrite Hx, Hy, Ht.
  - split; [apply normalised_range with windowSize; unfold windowSize in *; lia|].
    split; [apply normalised_range with windowSize; unfold windowSize in *; lia|].
    left. split; [reflexivity|assumption].
  - split; [apply normalised_range with 1%Z; lia|].
    split; [apply normalised_range with 1%Z; lia|].
    right. split; [reflexivity|assumption].
Qed.


Lemma detectGeometricFeatures_detected load options :
  Forall (detectedPoint (GeometryDetection.threshold options))
    (detectGeometricFeatures load options).
Proof.
  destruct load as [| |imageData]; simpl; try constructor.
  apply Forall_map.
  eapply Forall_impl; [|apply detectFeaturesFromImageData_detected].
  intros f. apply featureToPoint_detected.
Qed.

End DetectedPointFacts.

Module MockShapeFacts.
Import JS JSFacts ListFacts AdjustPoints MockPointsFacts QueryFacts.

Lemma clamp01_range v : 0 <= clamp01 v /\ clamp01 v <= 1.
Proof.
  unfold clamp01. split.
  - apply Q.le_max_l.
  - apply Q.max_lub; [discriminate|apply Q.le_min_l].
Qed.

Section Shape.
Variables Math_cos Math_sin : Q -> Q.
Variable Math_random : nat -> Q.

Lemma placePoint_shape (P : Point2D -> Prop) e m w points n :
  (forall x y t, P (mkPoint (clamp01 x) (clamp01 y) w t) \/ True) ->
  (forall x y b, P (mkPoint (clamp01 x) (clamp01 y) w
                      (if b : bool then "edge" else "center")%string)) ->
  Forall P points ->
  Forall P (fst (placePoint Math_cos Math_sin Math_random e m w points n)).
Proof.
  intros _ HP Hpts. rewrite placePoint_exits. unfold placePointExits, bind at 1.
  destruct (placeLoop _ _ _ _ _ _ _ _) as [[[x y]|] n0]; simpl; [|assumption].
  apply Forall_app. split; [assumption|]. constructor; [|constructor]. apply HP.
Qed.

Lemma placePoint_length e m w points n :
  (length (fst (placePoint Math_cos Math_sin Math_random e m w points n))
   <= length points + 1)%nat.
Proof.
  rewrite placePoint_exits. unfold placePointExits, bind at 1.
  destruct (placeLoop _ _ _ _ _ _ _ _) as [[[x y]|] n0]; simpl; [|lia].
  rewrite length_app. simpl. lia.
Qed.

Lemma placeAll_shape (P : Point2D -> Prop) k e m w points n :
  (forall x y b, P (mkPoint (clamp01 x) (clamp01 y) w
                      (if b : bool then "edge" else "center")%string)) ->
  Forall P points ->
  Forall P (fst (placeAll Math_cos Math_sin Math_random k e m w points n))
  /\ (length (fst (placeAll Math_cos Math_sin Math_random k e m w points n))
      <= length points + k)%nat.
Proof.
  intros HP. revert points n. induction k as [|k IH]; intros points n Hpts; simpl.
  - split; [assumption|lia].
  - unfold bind.
    pose proof (@placePoint_shape P e m w points n (fun _ _ _ => or_intror I) HP Hpts) as H1.
    pose proof (placePoint_length e m w points n) as H2.
    destruct (placePoint Math_cos Math_sin Math_random e m w points n) as [pts n0].
    simpl in H1, H2. destruct (IH pts n0 H1) as [H3 H4]. split; [assumption|lia].
Qed.

Lemma tooClose_nonpos m points x y : m <= 0 -> tooClose m points x y = false.
Proof.
  intros Hm. unfold tooClose. induction points as [|p l IH]; simpl; [reflexivity|].
  rewrite IH, orb_false_r. apply Qltb_ge.
  apply Qle_trans with 0; [exact Hm|].
  unfold distTo. apply FloatFacts.Math_sqrt_nonneg.
Qed.

Lemma placePoint_nonpos e m w points n :
  m <= 0 ->
  length (fst (placePoint Math_cos Math_sin Math_random e m w points n))
  = S (length points).
Proof.
  intros Hm. rewrite placePoint_exits. unfold placePointExits, bind at 1.
  unfold maxAttempts. simpl placeLoop. unfold bind at 1.
  destruct (candidate _ _ _ _ _) as [[x y] n0]. simpl fst. simpl snd.
  rewrite tooClose_nonpos by assumption. unfold ret, bind. simpl.
  rewrite length_app. simpl. lia.
Qed.

Lemma placeAll_nonpos k e m w points n :
  m <= 0 ->
  length (fst (placeAll Math_cos Math_sin Math_random k e m w points n))
  = (length points + k)%nat.
Proof.
  intros Hm. revert points n. induction k as [|k IH]; intros points n; simpl.
  - lia.
  - unfold bind. pose proof (placePoint_nonpos e w points n Hm) as H.
    destruct (placePoint Math_cos Math_sin Math_random e m w points n) as [pts n0].
    simpl in H. rewrite IH, H. lia.
Qed.

Lemma generateMockPoints_shape params :
  Forall (MockBounds.mockPoint (weighting params))
    (generateMockPoints Math_cos Math_sin Math_random params).
Proof.
  unfold generateMockPoints.
  destruct (@placeAll_shape (MockBounds.mockPoint (weighting params))
              (Z.to_nat (totalPointsOf (density params)))
              (divF (threshold params) 255) (divF (minSpacing params) 100) (weighting params)
              [] 0%nat) as [Hall _]; [|constructor|exact Hall].
  intros x y b. unfold MockBounds.mockPoint. simpl.
  split; [apply clamp01_range|]. split; [apply clamp01_range|].
  split; [reflexivity|]. destruct b; auto.
Qed.

(** For the whole percentages from 0 to 100 the rounding of [totalPoints]
    does not show. *)
Lemma totalPointsOf_percent (d : Z) :
  (0 <= d <= 100)%Z ->
  totalPointsOf (inject_Z d) = Qfloor (inject_Z d / 100 * 180 + 20).
Proof.
  intros Hd.
  assert (T : forallb (fun k => (totalPointsOf (inject_Z (Z.of_nat k))
                                 =? Qfloor (inject_Z (Z.of_nat k) / 100 * 180 + 20))%Z)
                (seq 0 101) = true)
    by (vm_compute; reflexivity).
  rewrite forallb_forall in T. specialize (T (Z.to_nat d)).
  rewrite Z2Nat.id in T by lia. apply Z.eqb_eq. apply T. apply in_seq. lia.
Qed.

Lemma generateMockPoints_length params :
  (length (generateMockPoints Math_cos Math_sin Math_random params)
   <= Z.to_nat (totalPointsOf (density params)))%nat.
Proof.
  unfold generateMockPoints.
  destruct (@placeAll_shape (fun _ => True)
              (Z.to_nat (totalPointsOf (density params)))
              (divF (threshold params) 255) (divF (minSpacing params) 100) (weighting params)
              [] 0%nat) as [_ Hlen]; [intros; exact I|constructor|exact Hlen].
Qed.
End Shape.

End MockShapeFacts.

Module PointsHistoryFacts.
Import JS Store StoreFacts PointsHistory.

Lemma ltb_pred (n : Z) : (1 <? n)%Z = (0 <? n - 1)%Z.
Proof. destruct (Z.ltb_spec 1 n), (Z.ltb_spec 0 (n - 1)); lia || reflexivity. Qed.

Lemma HistoryOK_addPointsToHistory points s : HistoryOK (addPointsToHistory points s).
Proof.
  right. unfold addPointsToHistory. cbn [pointsHistory pointsHistoryIndex canUndo canRedo].
  rewrite length_app. simpl length. split; [lia|]. split.
  - apply ltb_pred.
  - symmetry. apply Z.ltb_irrefl.
Qed.

Lemma HistoryOK_undo s :
  HistoryOK s -> exists s', undo s = Resolved s' /\ HistoryOK s'.
Proof.
  intros H. unfold undo.
  destruct (Z.ltb_spec 0 (pointsHistoryIndex s)) as [Hlt|Hge]; [|eauto].
  destruct H as [[_ Hi]|[Hi [Hu Hr]]]; [lia|].
  destruct (@historyAt_some (pointsHistory s) (pointsHistoryIndex s - 1)%Z) as [p Hp];
    [lia|].
  cbv zeta. rewrite Hp. eexists. split; [reflexivity|].
  right. cbn [pointsHistory pointsHistoryIndex canUndo canRedo].
  split; [lia|]. split; [reflexivity|].
  symmetry. apply Z.ltb_lt. lia.
Qed.

Lemma HistoryOK_redo s :
  HistoryOK s -> exists s', redo s = Resolved s' /\ HistoryOK s'.
Proof.
  intros H. unfold redo.
  destruct (Z.ltb_spec (pointsHistoryIndex s) (Z.of_nat (length (pointsHistory s)) - 1))
    as [Hlt|Hge]; [|eauto].
  destruct H as [[Hh Hi]|[Hi [Hu Hr]]]; [rewrite Hh in Hlt; simpl in Hlt; lia|].
  destruct (@historyAt_some (pointsHistory s) (pointsHistoryIndex s + 1)%Z) as [p Hp];
    [lia|].
  cbv zeta. rewrite Hp. eexists. split; [reflexivity|].
  right. cbn [pointsHistory pointsHistoryIndex canUndo canRedo].
  split; [lia|]. split; [|reflexivity].
  symmetry. apply Z.ltb_lt. lia.
Qed.

Lemma Reachable_HistoryOK s : Reachable s -> HistoryOK s.
Proof.
  induction 1 as [|p s _ _|p s _ _|s s' _ IH Hu|s s' _ IH Hr|s _ _|s _ _|p s _ IH].
  - left. split; reflexivity.
  - apply HistoryOK_addPointsToHistory.
  - apply HistoryOK_addPointsToHistory.
  - destruct (HistoryOK_undo IH) as [t [Ht Hok]]. congruence.
  - destruct (HistoryOK_redo IH) as [t [Ht Hok]]. congruence.
  - right. simpl. repeat split; lia.
  - left. split; reflexivity.
  - exact IH.
Qed.

(** After two edits the history ends with the two lists. *)
Lemma setAdjustedPoints_twice p q s :
  exists h,
    setAdjustedPoints q (setAdjustedPoints p s)
    = mkState q ((h ++ [p]) ++ [q]) (Z.of_nat (length h) + 1) true false.
Proof.
  destruct (setAdjustedPoints_shape p s) as [h ->]. exists h.
  unfold setAdjustedPoints, addPointsToHistory.
  cbn [pointsHistory pointsHistoryIndex canUndo canRedo adjustedPoints].
  assert (E : slice0 (h ++ [p]) (Z.of_nat (length (h ++ [p])) - 1 + 1) = h ++ [p]).
  { unfold slice0. destruct (Z.ltb_spec (Z.of_nat (length (h ++ [p])) - 1 + 1) 0); [lia|].
    apply firstn_all2. lia. }
  rewrite E. f_equal.
  - rewrite !length_app. simpl. lia.
  - apply Z.ltb_lt. rewrite !length_app. simpl. lia.
Qed.

Lemma historyAt_middle (h : list (list Point2D)) p q :
  historyAt ((h ++ [p]) ++ [q]) (Z.of_nat (length h)) = Some p.
Proof.
  unfold historyAt. destruct (Z.ltb_spec (Z.of_nat (length h)) 0); [lia|].
  rewrite Nat2Z.id, <- app_assoc. rewrite nth_error_app2 by lia.
  now rewrite Nat.sub_diag.
Qed.

End PointsHistoryFacts.

Module AppStoreFacts.
Import JS AppStore PointsHistoryFacts.

Section Nav.
Variable File : Type.

Lemma entryAt_some (h : list (StepState File)) i :
  (0 <= i < Z.of_nat (length h))%Z -> exists e, entryAt h i = Some e.
Proof.
  intros Hi. unfold entryAt. destruct (Z.ltb_spec i 0); [lia|].
  destruct (nth_error h (Z.to_nat i)) eqn:E; [eauto|].
  apply nth_error_None in E. lia.
Qed.

Lemma entryAt_length (h : list (StepState File)) i e :
  entryAt h i = Some e -> (0 <= i < Z.of_nat (length h))%Z.
Proof.
  unfold entryAt. destruct (Z.ltb_spec i 0) as [Hneg|Hpos]; [discriminate|].
  intros He. assert (Hn : nth_error h (Z.to_nat i) <> None) by congruence.
  apply nth_error_Some in Hn. lia.
Qed.

Lemma navOK_addToHistory state (s : AppState File) : HistoryOK (addToHistory state s).
Proof.
  right. unfold addToHistory.
  cbn [stepHistory currentHistoryIndex canGoBack canGoForward].
  rewrite length_app. simpl length. split; [lia|]. split.
  - apply ltb_pred.
  - symmetry. apply Z.ltb_irrefl.
Qed.

Lemma navOK_goBack (s : AppState File) :
  HistoryOK s -> exists s', goBack s = Resolved s' /\ HistoryOK s'.
Proof.
  intros H. unfold goBack.
  destruct (Z.ltb_spec 0 (currentHistoryIndex s)) as [Hlt|Hge]; [|eauto].
  destruct H as [[_ Hi]|[Hi [Hu Hr]]]; [lia|].
  destruct (@entryAt_some (stepHistory s) (currentHistoryIndex s - 1)%Z) as [p Hp];
    [lia|].
  cbv zeta. rewrite Hp. eexists. split; [reflexivity|].
  right. cbn [stepHistory currentHistoryIndex canGoBack canGoForward].
  split; [lia|]. split; [reflexivity|].
  symmetry. apply Z.ltb_lt. lia.
Qed.

Lemma navOK_goForward (s : AppState File) :
  HistoryOK s -> exists s', goForward s = Resolved s' /\ HistoryOK s'.
Proof.
  intros H. unfold goForward.
  destruct (Z.ltb_spec (currentHistoryIndex s) (Z.of_nat (length (stepHistory s)) - 1))
    as [Hlt|Hge]; [|eauto].
  destruct H as [[Hh Hi]|[Hi [Hu Hr]]]; [rewrite Hh in Hlt; simpl in Hlt; lia|].
  destruct (@entryAt_some (stepHistory s) (currentHistoryIndex s + 1)%Z) as [p Hp];
    [lia|].
  cbv zeta. rewrite Hp. eexists. split; [reflexivity|].
  right. cbn [stepHistory currentHistoryIndex canGoBack canGoForward].
  split; [lia|]. split; [|reflexivity].
  symmetry. apply Z.ltb_lt. lia.
Qed.

Lemma Reachable_navOK (s : AppState File) : Reachable s -> HistoryOK s.
Proof.
  induction 1 as [|st s _ _|st s _ _|s s' _ IH Hb|s s' _ IH Hf|d s _ IH|s _ _
                  |s s' _ IH [Hh [Hi [Hb Hf]]]].
  - left. split; reflexivity.
  - apply navOK_addToHistory.
  - apply navOK_addToHistory.
  - destruct (navOK_goBack IH) as [t [Ht Hok]]. congruence.
  - destruct (navOK_goForward IH) as [t [Ht Hok]]. congruence.
  - exact IH.
  - left. split; reflexivity.
  - unfold HistoryOK in *. rewrite Hh, Hi, Hb, Hf. exact IH.
Qed.

(** The history after [setCurrentStep] from a state whose index is that
    of the entry [e]. *)
Lemma setCurrentStep_shape b (s : AppState File) e :
  entryAt (stepHistory s) (currentHistoryIndex s) = Some e ->
  exists h,
    setCurrentStep b s
    = mkState b (fields s) ((h ++ [e]) ++ [mkStepState b (fields s)])
        (Z.of_nat (length h) + 1) true false
        (modelColor s) (modelColor2 s) (useGradient s)
    /\ Z.of_nat (length h) = currentHistoryIndex s.
Proof.
  intros He. pose proof (entryAt_length _ _ He) as Hi.
  unfold entryAt in He. destruct (Z.ltb_spec (currentHistoryIndex s) 0); [lia|].
  apply nth_error_split in He. destruct He as [h [post [Hs Hl]]].
  exists h. split; [|lia].
  unfold setCurrentStep, addToHistory.
  cbn [stepHistory currentHistoryIndex canGoBack canGoForward fields currentStep
       modelColor modelColor2 useGradient].
  assert (E : slice0 (stepHistory s) (currentHistoryIndex s + 1) = h ++ [e]).
  { unfold slice0. destruct (Z.ltb_spec (currentHistoryIndex s + 1) 0); [lia|].
    rewrite Hs. replace (Z.to_nat (currentHistoryIndex s + 1)) with (length h + 1)%nat
      by lia.
    replace (h ++ e :: post) with ((h ++ [e]) ++ post) by (now rewrite <- app_assoc).
    rewrite firstn_app. replace (length h + 1 - length (h ++ [e]))%nat with 0%nat
      by (rewrite length_app; simpl; lia).
    rewrite firstn_all2 by (rewrite length_app; simpl; lia).
    simpl. now rewrite app_nil_r. }
  rewrite E. f_equal.
  - rewrite !length_app. simpl. lia.
  - apply Z.ltb_lt. rewrite !length_app. simpl. lia.
Qed.

Lemma entryAt_middle (h : list (StepState File)) p q :
  entryAt ((h ++ [p]) ++ [q]) (Z.of_nat (length h)) = Some p.
Proof.
  unfold entryAt. destruct (Z.ltb_spec (Z.of_nat (length h)) 0); [lia|].
  rewrite Nat2Z.id, <- app_assoc. rewrite nth_error_app2 by lia.
  now rewrite Nat.sub_diag.
Qed.

Lemma entryAt_last (h : list (StepState File)) q :
  entryAt (h ++ [q]) (Z.of_nat (length h)) = Some q.
Proof.
  unfold entryAt. destruct (Z.ltb_spec (Z.of_nat (length h)) 0); [lia|].
  rewrite Nat2Z.id. rewrite nth_error_app2 by lia.
  now rewrite Nat.sub_diag.
Qed.

Lemma orElse_id a b : a <> EmptyString -> orElse a b = a.
Proof.
  intros Ha. unfold orElse. destruct (String.eqb_spec a EmptyString); [contradiction|].
  reflexivity.
Qed.

End Nav.

End AppStoreFacts.

Module View3DFacts.
Import JS JSFacts View3D.

Lemma nextFrame_integer (j n : Z) :
  nextFrame (inject_Z j) (inject_Z n)
  = inject_Z (if (n - 1 <=? j)%Z then 0 else j + 1).
Proof.
  unfold nextFrame, Qle_bool, inject_Z, Qminus, Qplus, Qopp. simpl.
  replace ((n * 1 + -1) * 1 <=? j * 1)%Z with (n - 1 <=? j)%Z
    by (f_equal; lia).
  destruct (n - 1 <=? j)%Z; [reflexivity|].
  f_equal. lia.
Qed.

Lemma frameAfter_integer (k : nat) (j n : Z) :
  (0 <= j < n)%Z ->
  frameAfter k (inject_Z j) (inject_Z n) = inject_Z ((j + Z.of_nat k) mod n).
Proof.
  revert j. induction k as [|k IH]; intros j Hj.
  - simpl. rewrite Z.add_0_r, Z.mod_small by lia. reflexivity.
  - simpl frameAfter. rewrite nextFrame_integer.
    destruct (Z.leb_spec (n - 1) j) as [Hlast|Hnext].
    + rewrite IH by lia. f_equal.
      replace (j + Z.of_nat (S k))%Z with (Z.of_nat k + 1 * n)%Z by lia.
      rewrite Z.mod_add by lia. reflexivity.
    + rewrite IH by lia. f_equal. f_equal. lia.
Qed.

Lemma animationProgress_range (m n : Z) :
  (0 <= m < n)%Z ->
  0 <= animationProgress (inject_Z m) (inject_Z n)
  /\ animationProgress (inject_Z m) (inject_Z n) <= 1.
Proof.
  intros Hm. unfold animationProgress.
  assert (H1 : 1 <= Qmax 1 (inject_Z n - 1)) by apply Q.le_max_l.
  assert (Hm0 : 0 <= inject_Z m).
  { change 0 with (inject_Z 0). rewrite <- Zle_Qle. lia. }
  assert (Hmn : inject_Z m <= Qmax 1 (inject_Z n - 1)).
  { destruct (Z.eq_dec m 0) as [->|Hne].
    - change (inject_Z 0) with 0. lra.
    - apply Qle_trans with (inject_Z n - 1); [|apply Q.le_max_r].
      assert (E : inject_Z n - 1 == inject_Z (n - 1)).
      { unfold Z.sub. rewrite inject_Z_plus. reflexivity. }
      rewrite E. rewrite <- Zle_Qle. lia. }
  split.
  - apply Qle_shift_div_l; lra.
  - apply Qle_shift_div_r; lra.
Qed.

Lemma handleWheel_range zoom deltaY :
  5 # 10 <= zoom /\ zoom <= 3 ->
  5 # 10 <= handleWheel zoom deltaY /\ handleWheel zoom deltaY <= 3.
Proof.
  intros [Hlo Hhi]. unfold handleWheel, handleZoomIn, handleZoomOut.
  destruct (Qltb deltaY 0); split.
  - apply Q.min_glb; lra.
  - apply Q.le_min_r.
  - apply Q.le_max_r.
  - apply Q.max_lub; lra.
Qed.

End View3DFacts.

Module AdjustSectionFacts.
Import JS JSFacts AdjustSection.

Lemma filterFrom_all {A} (keep : Z -> bool) i (a : list A) :
  (forall k, (i <= k)%Z -> keep k = true) -> filterFrom keep i a = a.
Proof.
  revert i. induction a as [|v rest IH]; intros i Hk; simpl; [reflexivity|].
  rewrite Hk by lia. f_equal. apply IH. intros k Hik. apply Hk. lia.
Qed.

(** Filtering out one position removes the element at that position. *)
Lemma filterFrom_remove {A} index i (a : list A) :
  (i <= index)%Z ->
  filterFrom (fun k => negb (k =? index)%Z) i a
  = firstn (Z.to_nat (index - i)) a ++ skipn (S (Z.to_nat (index - i))) a.
Proof.
  revert i. induction a as [|v rest IH]; intros i Hi; simpl.
  - now rewrite firstn_nil.
  - destruct (Z.eqb_spec i index) as [->|Hne]; simpl.
    + rewrite Z.sub_diag. simpl. apply filterFrom_all.
      intros k Hk. destruct (Z.eqb_spec k index); [lia|reflexivity].
    + rewrite IH by lia.
      replace (Z.to_nat (index - i)) with (S (Z.to_nat (index - (i + 1)))) by lia.
      reflexivity.
Qed.

Lemma filterFrom_before {A} index i (a : list A) :
  (index < i)%Z -> filterFrom (fun k => negb (k =? index)%Z) i a = a.
Proof.
  intros Hi. apply filterFrom_all. intros k Hk.
  destruct (Z.eqb_spec k index); [lia|reflexivity].
Qed.

End AdjustSectionFacts.

Module MeshBoundsFacts.
Import JS JSFacts Mesh MeshFacts MeshBounds ExamplesFacts.

Lemma Aligned_vertices (P : Vec3 -> Prop) (point : Z -> Z -> Vec3 * Vec3) s :
  (forall i j, P (fst (point i j))) -> Aligned point s -> Forall P (fst s).
Proof.
  intros HP [ijs [-> _]]. apply Forall_forall. intros n Hn.
  apply in_map_iff in Hn. destruct Hn as [ij [<- _]]. apply HP.
Qed.

Lemma gridFaces_proper rows cols : Forall properFace (gridFaces rows cols).
Proof.
  unfold gridFaces.
  apply for_range_ind; [lia| |constructor].
  intros i faces Hi Hfaces.
  apply for_range_ind; [lia| |assumption].
  intros j faces' Hj Hfaces'.
  apply Forall_app. split; [apply Forall_app; split; [assumption|]|];
    constructor; try constructor; unfold properFace; lia.
Qed.

(** When the directed sides are as many as the sides, no side occurs
    twice. *)
Lemma directedEdgeCount_NoDup fs :
  directedEdgeCount fs = length (flat_map directedEdges fs) ->
  NoDup (flat_map directedEdges fs).
Proof.
  unfold directedEdgeCount. set (l := flat_map directedEdges fs).
  set (s := fold_left (fun s e => EdgeSet.add e s) l EdgeSet.empty). intros Hc.
  apply NoDup_incl_NoDup with (l := EdgeSet.elements s).
  - apply NoDupA_edge. apply EdgeSet.elements_spec2w.
  - rewrite EdgeSet.cardinal_spec in Hc. apply Nat.eq_le_incl. symmetry. exact Hc.
  - intros e He. rewrite <- InA_edge, EdgeSet.elements_spec1 in He.
    unfold s in He. rewrite fold_add_In in He. destruct He as [He|He]; [assumption|].
    exfalso. revert He. apply EdgeSet.empty_spec.
Qed.

Lemma grid_16_16_directed :
  directedEdgeCount (gridFaces 16 16) = length (flat_map directedEdges (gridFaces 16 16)).
Proof. vm_compute. reflexivity. Qed.

Lemma grid_32_16_directed :
  directedEdgeCount (gridFaces 32 16) = length (flat_map directedEdges (gridFaces 32 16)).
Proof. vm_compute. reflexivity. Qed.

Lemma grid_48_24_directed :
  directedEdgeCount (gridFaces 48 24) = length (flat_map directedEdges (gridFaces 48 24)).
Proof. vm_compute. reflexivity. Qed.

(** The product of a bounded factor and a factor in [[-1, 1]]. *)
Lemma scaled_range (r c b : Q) :
  - b <= r /\ r <= b -> unitRange c -> - b <= r * c /\ r * c <= b.
Proof.
  unfold unitRange. intros [Hr0 Hr1] [Hc0 Hc1].
  assert (0 <= (b - r) * (1 - c)) by (apply Qmult_le_0_compat; lra).
  assert (0 <= (b - r) * (1 + c)) by (apply Qmult_le_0_compat; lra).
  assert (0 <= (b + r) * (1 - c)) by (apply Qmult_le_0_compat; lra).
  assert (0 <= (b + r) * (1 + c)) by (apply Qmult_le_0_compat; lra).
  split; lra.
Qed.

Section Bounds.
Variables Math_cos Math_sin : Q -> Q.
Variable Math_atan2 : Q -> Q -> Q.
Hypothesis cos_range : forall a, unitRange (Math_cos a).
Hypothesis sin_range : forall a, unitRange (Math_sin a).

Lemma spherePoint_inBox rings segments i j :
  inBox (- (1), - (1), - (1), 1, 1, 1)
    (fst (spherePoint Math_cos Math_sin 1 rings segments i j)).
Proof.
  pose proof (@spherePoint_bounded Math_cos Math_sin cos_range sin_range
                rings segments i j) as H.
  unfold spherePoint, boundedVec, inBox, unitRange in *. simpl in *.
  exact H.
Qed.

(** A torus point lies in the box of half extents [R + b], [b], [R + b]
    when the tube radius is at most [b]. *)
Lemma torusPoint_inBox (R b : Q) (r : Q -> Q) m n i j :
  0 <= R -> (forall theta, 0 <= r theta /\ r theta <= b) ->
  inBox (- R - b, - b, - R - b, R + b, b, R + b)
    (fst (torusPoint Math_cos Math_sin R r m n i j)).
Proof.
  intros HR Hr. unfold torusPoint, inBox. simpl.
  set (theta := inject_Z i / inject_Z m * Math_PI * 2).
  set (phi := inject_Z j / inject_Z n * Math_PI * 2).
  destruct (Hr theta) as [Hr0 Hr1].
  assert (Hb : - b <= r theta /\ r theta <= b) by (split; lra).
  pose proof (scaled_range Hb (cos_range phi)) as Hc.
  pose proof (scaled_range Hb (sin_range phi)) as Hs.
  assert (HRb : - (R + b) <= R + r theta * Math_cos phi
                /\ R + r theta * Math_cos phi <= R + b) by (split; lra).
  pose proof (scaled_range HRb (cos_range theta)) as Hx.
  pose proof (scaled_range HRb (sin_range theta)) as Hz.
  repeat split; lra.
Qed.


End Bounds.

End MeshBoundsFacts.

Module CymaticGeometryFacts.
Import JS JSFacts Mesh MeshFacts CymaticGeometry.

Lemma string_of_uint_noDash d : noDash (NilEmpty.string_of_uint d).
Proof. induction d; simpl; (exact I || (split; [discriminate|assumption])). Qed.

Lemma digits_noDash d : noDash (NilZero.string_of_uint d).
Proof.
  destruct d; try apply string_of_uint_noDash. simpl. split; [discriminate|exact I].
Qed.

Lemma digits_nonempty d : NilZero.string_of_uint d <> EmptyString.
Proof. destruct d; simpl; discriminate. Qed.

(** A text without minus sign ends at the first minus sign. *)
Lemma noDash_split a b r r' :
  noDash a -> noDash b ->
  String.append a (String "-" r) = String.append b (String "-" r') ->
  a = b /\ r = r'.
Proof.
  revert b. induction a as [|c a IH]; intros [|c' b] Ha Hb H; simpl in *.
  - inversion H. auto.
  - inversion H. subst. destruct Hb as [Hc _]. now contradiction Hc.
  - inversion H. subst. destruct Ha as [Hc _]. now contradiction Hc.
  - inversion H. subst. destruct Ha as [_ Ha], Hb as [_ Hb].
    destruct (IH b Ha Hb H2) as [-> ->]. auto.
Qed.

Lemma numberToString_inj v w : numberToString v = numberToString w -> v = w.
Proof.
  unfold numberToString. intros H.
  assert (Hn : forall z, Z.to_int z <> Decimal.Pos Decimal.Nil
                         /\ Z.to_int z <> Decimal.Neg Decimal.Nil).
  { intros [|p|p]; simpl; split; try discriminate;
      intros E; inversion E as [E']; now apply DecimalPos.Unsigned.to_uint_nonnil in E'. }
  apply (f_equal NilZero.int_of_string) in H.
  rewrite !NilZero.isi in H by apply Hn.
  inversion H as [E]. now apply DecimalZ.to_int_inj.
Qed.

Lemma edgeKey_inj v1 v2 w1 w2 :
  edgeKey v1 v2 = edgeKey w1 w2 -> v1 = w1 /\ v2 = w2.
Proof.
  unfold edgeKey. intros H.
  assert (Hsplit : numberToString v1 = numberToString w1
                   /\ numberToString v2 = numberToString w2).
  { unfold numberToString in *.
    destruct (Z.to_int v1) as [d1|d1], (Z.to_int w1) as [e1|e1];
      cbn [NilZero.string_of_int] in *.
    - apply noDash_split in H; [assumption|apply digits_noDash|apply digits_noDash].
    - exfalso. pose proof (digits_noDash d1) as Hd. pose proof (digits_nonempty d1) as Hne.
      destruct (NilZero.string_of_uint d1) as [|c s]; [congruence|].
      simpl in H. inversion H. subst. destruct Hd as [Hc _]. now contradiction Hc.
    - exfalso. pose proof (digits_noDash e1) as Hd. pose proof (digits_nonempty e1) as Hne.
      destruct (NilZero.string_of_uint e1) as [|c s]; [congruence|].
      simpl in H. inversion H. subst. destruct Hd as [Hc _]. now contradiction Hc.
    - simpl in H. inversion H as [H'].
      apply noDash_split in H'; [|apply digits_noDash|apply digits_noDash].
      destruct H' as [-> ->]. auto. }
  destruct Hsplit as [H1 H2]. split; now apply numberToString_inj.
Qed.

Lemma existsb_key key keys :
  existsb (String.eqb key) keys = true <-> In key keys.
Proof.
  rewrite existsb_exists. split.
  - intros [k [Hin Hk]]. apply String.eqb_eq in Hk. now subst.
  - intros Hin. exists key. split; [assumption|apply String.eqb_refl].
Qed.

Lemma addEdge_spec state e :
  keysOf state -> NoDup (snd state) ->
  keysOf (addEdge state e)
  /\ NoDup (snd (addEdge state e))
  /\ (forall x, In x (snd (addEdge state e)) <-> In x (snd state) \/ x = e).
Proof.
  destruct state as [edgeSet edgeList], e as [v1 v2]. intros Hk Hnd.
  unfold addEdge. cbv zeta.
  destruct (existsb (String.eqb (edgeKey v1 v2)) edgeSet) eqn:E; cbn [negb fst snd].
  - apply (Hk v1 v2) in E. cbn [snd] in E.
    split; [assumption|]. split; [assumption|].
    intros x. split; [auto|]. intros [H | ->]; assumption.
  - assert (Hnot : ~ In (v1, v2) edgeList).
    { intros Hin. apply (Hk v1 v2) in Hin. cbn [fst] in Hin. congruence. }
    split; [|split].
    + intros w1 w2. cbn [fst snd existsb]. rewrite in_app_iff, orb_true_iff.
      rewrite (Hk w1 w2). cbn [fst snd]. split.
      * intros [H|H]; [|now left]. apply String.eqb_eq in H.
        apply edgeKey_inj in H. destruct H as [-> ->]. right. now left.
      * intros [H|[H|[]]]; [now right|]. inversion H. left. apply String.eqb_refl.
    + apply NoDup_app; [assumption|repeat constructor; intros []|].
      intros x Hx [<-|[]]. contradiction.
    + intros x. rewrite in_app_iff. simpl. intuition.
Qed.

Lemma addEdges_spec es state :
  keysOf state -> NoDup (snd state) ->
  keysOf (fold_left addEdge es state)
  /\ NoDup (snd (fold_left addEdge es state))
  /\ (forall x, In x (snd (fold_left addEdge es state)) <-> In x (snd state) \/ In x es).
Proof.
  revert state. induction es as [|e es IH]; intros state Hk Hnd; simpl.
  - split; [assumption|]. split; [assumption|]. intros x. tauto.
  - destruct (addEdge_spec e Hk Hnd) as [Hk' [Hnd' Hin']].
    destruct (IH _ Hk' Hnd') as [Hk'' [Hnd'' Hin'']].
    split; [assumption|]. split; [assumption|].
    intros x. rewrite Hin'', Hin'. intuition.
Qed.

Lemma edges_spec faces :
  NoDup (edges faces)
  /\ forall x, In x (edges faces) <-> In x (flat_map faceEdges faces).
Proof.
  unfold edges.
  assert (G : forall state,
             keysOf state -> NoDup (snd state) ->
             let final :=
               fold_left
                 (fun state '(a, b, c) =>
                    let edges :=
                      [(Z.min a b, Z.max a b); (Z.min b c, Z.max b c);
                       (Z.min c a, Z.max c a)] in
                    fold_left addEdge edges state)
                 faces state in
             NoDup (snd final)
             /\ forall x, In x (snd final)
                          <-> In x (snd state) \/ In x (flat_map faceEdges faces)).
  { induction faces as [|[[a b] c] faces IH]; intros state Hk Hnd; cbv zeta.
    - simpl. split; [assumption|]. intros x. tauto.
    - cbn [fold_left flat_map].
      destruct (addEdges_spec
                  [(Z.min a b, Z.max a b); (Z.min b c, Z.max b c); (Z.min c a, Z.max c a)]
                  Hk Hnd) as [Hk' [Hnd' Hin']].
      destruct (IH _ Hk' Hnd') as [Hnd'' Hin''].
      split; [assumption|].
      intros x. rewrite Hin'', Hin', in_app_iff.
      unfold faceEdges, undirected. tauto. }
  destruct (G ([], [])) as [Hnd Hin].
  - intros v1 v2. simpl. split; [discriminate|tauto].
  - constructor.
  - split; [assumption|]. intros x. rewrite Hin. simpl. tauto.
Qed.

Lemma edges_length faces : length (edges faces) = edgeCount faces.
Proof.
  destruct (edges_spec faces) as [Hnd Hin].
  destruct (edgeCount_spec faces) as [l [Hl [Hlin <-]]].
  apply Permutation_length. apply NoDup_Permutation; try assumption.
  intros x. rewrite Hin, Hlin. tauto.
Qed.

Lemma pair_fst {A B : Type} (a c : A) (b d : B) : (a, b) = (c, d) -> a = c.
Proof. intros H. now inversion H. Qed.

Lemma visibleLineCount_range lines progress :
  (0 <= lines)%Z -> 0 <= progress /\ progress <= 1 ->
  (0 <= visibleLineCount lines progress <= lines)%Z.
Proof.
  intros Hl [H0 H1]. unfold visibleLineCount, Math_floor.
  assert (Hq : 0 <= inject_Z lines).
  { change 0 with (inject_Z 0). rewrite <- Zle_Qle. assumption. }
  split.
  - change 0%Z with (Qfloor 0). apply Qfloor_resp_le.
    apply Qmult_le_0_compat; assumption.
  - rewrite <- (Qfloor_Z lines) at 2. apply Qfloor_resp_le.
    assert (0 <= inject_Z lines * (1 - progress))
      by (apply Qmult_le_0_compat; lra).
    lra.
Qed.

End CymaticGeometryFacts.

Module PointStatisticsFacts.
Import JS JSFacts AdjustPoints PointStatistics.

Lemma statistics_le l : (edgePoints l + centerPoints l <= totalPoints l)%nat.
Proof.
  unfold edgePoints, centerPoints, totalPoints.
  induction l as [|p l IH]; simpl; [lia|].
  destruct (String.eqb_spec (p_feature_type p) "edge") as [E|E];
    destruct (String.eqb_spec (p_feature_type p) "center") as [C|C]; simpl; try lia.
  rewrite E in C. discriminate.
Qed.

Lemma statistics_counted l :
  Forall counted l -> (edgePoints l + centerPoints l = totalPoints l)%nat.
Proof.
  unfold edgePoints, centerPoints, totalPoints.
  induction 1 as [|p l Hp Hl IH]; simpl; [reflexivity|].
  destruct Hp as [Hp|Hp]; rewrite Hp; simpl; lia.
Qed.

Lemma detectedPoint_counted threshold p :
  DetectionBounds.detectedPoint threshold p -> counted p.
Proof.
  intros [_ [_ [[H _]|[H _]]]]; [right|left]; exact H.
Qed.

Lemma mockPoint_counted weighting p : MockBounds.mockPoint weighting p -> counted p.
Proof. intros [_ [_ [_ H]]]. exact H. Qed.

End PointStatisticsFacts.

(** * The claims *)

Import JS JSFacts ListFacts Examples ExamplesFacts.
Import GeometryDetection GeometryDetectionFacts SuppressionFacts BlankImageFacts.
Import AdjustPoints MockPointsFacts QueryFacts DetectedPointsFacts.

Unset Implicit Arguments.

(** ** Point extraction *)

(** C1, as stated, fails.  The points that the extraction returns have
    their coordinates in the unit square, while the minimum spacing is a
    number of pixels (the slider ranges over 1 to 20).  With the minimum
    spacing 5, the two points that the detection returns for the 12 x 12
    image with one white pixel are less than 5 apart; so are the second and
    the third mock point, which are also less than 5 pixels apart when
    they are scaled to the 12 x 12 pixels of that image. *)
Lemma returned_points_are_closer_than_minSpacing :
  ~ SpacedPoints 5
      (detectGeometricFeatures (OnLoad (dotsImage 12 12 [(6, 5)%Z])) defaultOptions)
  /\ ~ SpacedPoints 5
         (generateMockPoints sampleCos sampleSin sampleRandom defaultParams)
  /\ ~ SpacedInPixels 5 12 12
         (generateMockPoints sampleCos sampleSin sampleRandom defaultParams).
Proof.
  assert (Hclose : forall m d, 0 <= d -> sqrt_ltb d m = true -> ~ atLeast m d).
  { intros m d Hd Hlt Hge. apply (@sqrt_ltb_true d m Hd) in Hlt. unfold atLeast in Hge. lra. }
  destruct (generateMockPoints_prefix sampleCos sampleSin sampleRandom defaultParams 3)
    as [rest Hmock]; [vm_compute; discriminate|].
  remember (fst (placeAll sampleCos sampleSin sampleRandom 3
                   (divF (threshold defaultParams) 255)
                   (divF (minSpacing defaultParams) 100)
                   (weighting defaultParams) [] 0%nat)) as first3 eqn:E3.
  vm_compute in E3. subst first3.
  split; [|split].
  - intros H.
    remember (detectGeometricFeatures (OnLoad (dotsImage 12 12 [(6, 5)%Z])) defaultOptions)
      as detected eqn:Ed.
    vm_compute in Ed. subst detected.
    refine (Hclose _ _ _ _ (H 0%nat 1%nat _ _ _ eq_refl eq_refl));
      [vm_compute; discriminate|vm_compute; reflexivity|discriminate].
  - intros H. rewrite Hmock in H.
    refine (Hclose _ _ _ _ (H 1%nat 2%nat _ _ _ eq_refl eq_refl));
      [vm_compute; discriminate|vm_compute; reflexivity|discriminate].
  - intros H. rewrite Hmock in H.
    refine (Hclose _ _ _ _ (H 1%nat 2%nat _ _ _ eq_refl eq_refl));
      [vm_compute; discriminate|vm_compute; reflexivity|discriminate].
Qed.

(** C1, as the code has it.  The spacing holds in the coordinates in which
    each path tests it, not between the points as they are returned.

    On the feature-detection path any two features returned by
    [detectFeaturesFromImageData] (pixel coordinates) are at Euclidean
    distance at least [minSpacing], and the points that
    [detectGeometricFeatures] resolves with are the images under
    [featureToPoint] of such features.  The features lie at integer pixels,
    so the squared distances are computed exactly; [minSpacing] is a number
    whose square is computed exactly (the slider gives the integers 1 to
    20).

    On the mock path the distance that the code computes between an
    earlier and a later point of [generateMockPoints] (normalised
    coordinates, every operation rounded) is at least the minimum distance
    [minDist = minSpacing / 100] that the function configures.
    [Math.random] draws from [[0, 1)] and the cosine and sine lie in
    [[-1, 1]]. *)
Theorem spacing_invariant
        (Math_cos Math_sin : Q -> Q) (Math_random : nat -> Q)
        (random_range : validDraws Math_random)
        (cos_range : forall a, -(1) <= Math_cos a /\ Math_cos a <= 1)
        (sin_range : forall a, -(1) <= Math_sin a /\ Math_sin a <= 1)
        (imageData : ImageData) (options : Options)
        (exact_square :
           mulF (GeometryDetection.minSpacing options) (GeometryDetection.minSpacing options)
           == GeometryDetection.minSpacing options * GeometryDetection.minSpacing options) :
  SpacedBy (GeometryDetection.minSpacing options)
    (detectFeaturesFromImageData imageData options)
  /\ SpacedAsFeatures (GeometryDetection.minSpacing options)
       (width imageData) (height imageData)
       (detectGeometricFeatures (OnLoad imageData) options)
  /\ (forall params,
         SpacedByP (divF (minSpacing params) 100)
           (generateMockPoints Math_cos Math_sin Math_random params)).
Proof.
  split; [|split].
  - apply detectFeaturesFromGray_spaced.
  - apply detectGeometricFeatures_spaced.
  - intros params. now apply generateMockPoints_spaced.
Qed.

Lemma spacing_invariant_witness :
  SpacedBy 5 (detectFeaturesFromImageData (dotsImage 12 12 [(6, 5)%Z]) defaultOptions)
  /\ SpacedAsFeatures 5 12 12
       (detectGeometricFeatures (OnLoad (dotsImage 12 12 [(6, 5)%Z])) defaultOptions)
  /\ SpacedByP (divF 5 100)
       (generateMockPoints sampleCos sampleSin sampleRandom defaultParams).
Proof.
  assert (Hsq : mulF (GeometryDetection.minSpacing defaultOptions)
                  (GeometryDetection.minSpacing defaultOptions)
                == GeometryDetection.minSpacing defaultOptions
                   * GeometryDetection.minSpacing defaultOptions)
    by (vm_compute; reflexivity).
  destruct (spacing_invariant sampleCos sampleSin sampleRandom
              sampleRandom_valid sampleCos_range sampleSin_range
              (dotsImage 12 12 [(6, 5)%Z]) defaultOptions Hsq)
    as [Hdetect [Hpoints Hmock]].
  split; [|split].
  - exact Hdetect.
  - exact Hpoints.
  - exact (Hmock defaultParams).
Defined.

(** The detection on the one-dot image returns two features, so the
    invariant is about an actual pair there. *)
Example one_dot_features :
  map (fun f => (f_x f, f_y f))
    (detectFeaturesFromImageData (dotsImage 12 12 [(6, 5)%Z]) defaultOptions)
  = [(3, 3); (7, 7)].
Proof. vm_compute. reflexivity. Qed.




(** C3, as stated, fails on the mock path: two runs of [generateMockPoints]
    with the same parameters and different draws of [Math.random] return
    different points. *)
Lemma mock_points_differ_between_runs :
  ~ Deterministic (mockRun sampleCos sampleSin).
Proof.
  intros Hdet.
  destruct (generateMockPoints_head sampleCos sampleSin sampleRandom defaultParams)
    as [rest1 H1]; [vm_compute; discriminate|].
  destruct (generateMockPoints_head sampleCos sampleSin otherRandom defaultParams)
    as [rest2 H2]; [vm_compute; discriminate|].
  assert (E : generateMockPoints sampleCos sampleSin sampleRandom defaultParams
              = generateMockPoints sampleCos sampleSin otherRandom defaultParams).
  { apply (Hdet defaultParams).
    - exists sampleRandom. split; [exact sampleRandom_valid|reflexivity].
    - exists otherRandom. split; [exact otherRandom_valid|reflexivity]. }
  rewrite H1, H2 in E.
  apply (f_equal (fun l => option_map p_feature_type (hd_error l))) in E.
  vm_compute in E. discriminate E.
Qed.

(** C3, as the code has it.

    The feature-detection path is deterministic.  Its detectors and its
    filter are loops over the pixels and the candidates; its sort is the
    one step that is left to the engine, and every sort that ECMAScript
    allows gives the same array: the features by descending confidence,
    those of one confidence in detection order.  So any two runs on one
    image with the same options return the same features, and
    [detectFeaturesFromImageData] is such a run.

    When the API call has failed and the detection has found a feature,
    the points that the query resolves with are the detected points,
    whatever [Math.random] draws and whatever the time is (only the id of
    the result contains the time).

    The mock path is determined by the parameters and the draws: two runs
    whose first [drawsOf params] draws agree return the same points. *)
Theorem extraction_determined_by_inputs_and_draws
        (Math_cos Math_sin : Q -> Q) (r1 r2 : nat -> Q)
        (imageId imageUrl : option string) (load : ImageLoad) (params : Params)
        (same_draws : forall n, (n < drawsOf params)%nat -> r1 n = r2 n)
        (has_image_id : truthy imageId = true)
        (has_image_url : truthy imageUrl = true)
        (detected :
           detectGeometricFeatures load
             (mkOptions (threshold params) (minSpacing params) (density params)) <> []) :
  Deterministic detectionRun
  /\ (forall imageData options,
         detectionRun (imageData, options)
           (detectFeaturesFromImageData imageData options))
  /\ (forall cosA sinA cosB sinB randomA randomB nowA nowB,
         exists dA dB,
           queryFn cosA sinA randomA imageId imageUrl true ApiError load nowA params
           = Resolved dA
           /\ queryFn cosB sinB randomB imageId imageUrl true ApiError load nowB params
              = Resolved dB
           /\ q_points dA = q_points dB)
  /\ generateMockPoints Math_cos Math_sin r1 params
     = generateMockPoints Math_cos Math_sin r2 params.
Proof.
  split; [exact detectionRun_deterministic|].
  split; [exact detectionRun_function|].
  split.
  - intros cosA sinA cosB sinB randomA randomB nowA nowB.
    eexists. eexists.
    split; [now apply queryFn_detected|].
    split; [now apply queryFn_detected|reflexivity].
  - now apply generateMockPoints_ext.
Qed.

Lemma extraction_determined_by_inputs_and_draws_witness :
  (exists dA dB,
      queryFn sampleCos sampleSin sampleRandom (Some "image-1"%string)
        (Some "blob:pattern"%string) true ApiError
        (OnLoad (dotsImage 12 12 [(6, 5)%Z])) "1700000000000"%string defaultParams
      = Resolved dA
      /\ queryFn sampleSin sampleCos otherRandom (Some "image-1"%string)
           (Some "blob:pattern"%string) true ApiError
           (OnLoad (dotsImage 12 12 [(6, 5)%Z])) "1700000000001"%string defaultParams
         = Resolved dB
      /\ q_points dA = q_points dB)
  /\ generateMockPoints sampleCos sampleSin sampleRandom defaultParams
     = generateMockPoints sampleCos sampleSin
         (fun n => if (n <? drawsOf defaultParams)%nat then sampleRandom n else otherRandom n)
         defaultParams.
Proof.
  assert (Hdraws : forall n, (n < drawsOf defaultParams)%nat ->
                     sampleRandom n
                     = (fun n => if (n <? drawsOf defaultParams)%nat
                                 then sampleRandom n else otherRandom n) n).
  { intros n Hn. apply Nat.ltb_lt in Hn. cbv beta. now rewrite Hn. }
  assert (Hid : truthy (Some "image-1"%string) = true) by reflexivity.
  assert (Hurl : truthy (Some "blob:pattern"%string) = true) by reflexivity.
  assert (Hd : detectGeometricFeatures (OnLoad (dotsImage 12 12 [(6, 5)%Z]))
                 (mkOptions (threshold defaultParams) (minSpacing defaultParams)
                    (density defaultParams)) <> [])
    by (vm_compute; discriminate).
  destruct (extraction_determined_by_inputs_and_draws
              sampleCos sampleSin sampleRandom
              (fun n => if (n <? drawsOf defaultParams)%nat
                        then sampleRandom n else otherRandom n)
              (Some "image-1"%string) (Some "blob:pattern"%string)
              (OnLoad (dotsImage 12 12 [(6, 5)%Z])) defaultParams
              Hdraws Hid Hurl Hd)
    as [_ [_ [Hquery Hmock]]].
  split.
  - exact (Hquery sampleCos sampleSin sampleSin sampleCos sampleRandom otherRandom
             "1700000000000"%string "1700000000001"%string).
  - exact Hmock.
Defined.

(** C4, as stated, fails.  No parameter is validated (the number inputs
    of the form accept any value).  With density -10.5 the maximum is
    [floor(-21 + 20) = -1] and [slice(0, -1)] still returns one of the two
    accepted features; with threshold -1 every interior pixel of a blank
    image is an edge and every window a corner, and features are returned.
    The maximum is computed in doubles and is not always the floor of the
    exact value: for density 113 it is 245, where [floor(113 / 100 * 200 +
    20)] is 246, and for density -7 it is 5, not 6. *)
Lemma count_bound_needs_parameter_ranges :
  (maxPointsOf (-21 # 2) = -1)%Z
  /\ length (detectFeaturesFromImageData (dotsImage 12 12 [(6, 5)%Z])
               (mkOptions 100 5 (-21 # 2))) = 1%nat
  /\ Forall (eq 7%Z) (toGray 12 12 (data (blankImage 12 12 7)))
  /\ length (detectFeaturesFromImageData (blankImage 12 12 7)
               (mkOptions (-1) 5 50)) = 2%nat
  /\ (maxPointsOf 113 = 245)%Z
  /\ (Qfloor (113 / 100 * (220 - 20) + 20) = 246)%Z
  /\ (maxPointsOf (-7) = 5)%Z
  /\ (Qfloor (-7 / 100 * (220 - 20) + 20) = 6)%Z.
Proof.
  split; [vm_compute; reflexivity|].
  split; [vm_compute; reflexivity|].
  split; [vm_compute; repeat constructor|].
  split; [vm_compute; reflexivity|].
  repeat split; vm_compute; reflexivity.
Qed.

(** C4, as the code has it.  The maximum point count is
    [Math.floor((density / 100) * 200 + 20)] in the arithmetic of the
    engine, the density being the slider value in percent; 200 is
    [220 - 20].  Whenever this maximum is not negative, the number of
    features returned does not exceed it; it is not negative for every
    density that is not negative.  For the whole percentages from 0 to 100
    (the slider ranges over 10 to 100 in steps of 5) the maximum is
    [floor(density / 100 * (220 - 20) + 20) = 2 * density + 20].  For an
    image of constant intensity (in particular an image of one colour) and
    a threshold that is not negative no feature is returned. *)
Theorem count_bound_and_blank_image
        (imageData : ImageData) (options : Options)
        (density_finite : finite (GeometryDetection.density options))
        (maximum_range : (0 <= maxPointsOf (GeometryDetection.density options))%Z)
        (blank : ImageData) (blankOptions : Options) (g : Z)
        (threshold_range : 0 <= GeometryDetection.threshold blankOptions)
        (constant_intensity :
           Forall (eq g) (toGray (width blank) (height blank) (data blank))) :
  (Z.of_nat (length (detectFeaturesFromImageData imageData options))
   <= maxPointsOf (GeometryDetection.density options))%Z
  /\ (forall density, 0 <= density -> (0 <= maxPointsOf density)%Z)
  /\ (forall percent : Z,
         (0 <= percent <= 100)%Z ->
         maxPointsOf (inject_Z percent)
         = Qfloor (inject_Z percent / 100 * (220 - 20) + 20)
         /\ maxPointsOf (inject_Z percent) = (2 * percent + 20)%Z)
  /\ detectFeaturesFromImageData blank blankOptions = []
  /\ (forall w h r g b alphas,
         Z.of_nat (length alphas) = (w * h)%Z ->
         detectFeaturesFromImageData (mkImage w h (uniformData r g b alphas))
           blankOptions = []).
Proof.
  split; [now apply detect_count|].
  split; [exact maxPointsOf_nonneg|].
  split.
  { intros percent Hp. split; [|now apply maxPointsOf_percent].
    rewrite (@maxPointsOf_percent percent Hp).
    change (220 - 20) with (inject_Z (100 * 2)).
    rewrite (@percent_formula percent 2). lia. }
  split; [now apply (detect_blank blank blankOptions (g := g))|].
  intros w h r g0 b alphas Hn.
  apply (detect_blank (mkImage w h (uniformData r g0 b alphas)) blankOptions
           (g := grayOf r g0 b)); [assumption|].
  now apply uniform_colour_constant_intensity.
Qed.

Lemma count_bound_and_blank_image_witness :
  (Z.of_nat (length (detectFeaturesFromImageData (dotsImage 12 12 [(6, 5)%Z])
                       defaultOptions)) <= maxPointsOf 50)%Z
  /\ detectFeaturesFromImageData (blankImage 12 12 7) defaultOptions = [].
Proof.
  assert (Hf : finite (GeometryDetection.density defaultOptions))
    by (vm_compute; discriminate).
  assert (Hd : (0 <= maxPointsOf (GeometryDetection.density defaultOptions))%Z)
    by (vm_compute; discriminate).
  assert (Ht : 0 <= GeometryDetection.threshold defaultOptions)
    by (vm_compute; discriminate).
  assert (Hc : Forall (eq 7%Z)
                 (toGray (width (blankImage 12 12 7)) (height (blankImage 12 12 7))
                    (data (blankImage 12 12 7))))
    by (vm_compute; repeat constructor).
  destruct (count_bound_and_blank_image (dotsImage 12 12 [(6, 5)%Z]) defaultOptions Hf Hd
              (blankImage 12 12 7) defaultOptions 7%Z Ht Hc)
    as [Hcount [_ [_ [Hblank _]]]].
  split; assumption.
Defined.

(** The detection resolves with no point for an image of constant intensity. *)
Lemma detectGeometricFeatures_blank (blank : ImageData) (options : Options) (g : Z) :
  0 <= GeometryDetection.threshold options ->
  Forall (eq g) (toGray (width blank) (height blank) (data blank)) ->
  detectGeometricFeatures (OnLoad blank) options = [].
Proof.
  intros Ht Hc. unfold detectGeometricFeatures.
  now rewrite (detect_blank blank options (g := g)).
Qed.

(** C7, as stated, fails in the query of the hook: for a blank image the
    detection resolves with no point, and the query then returns the mock
    points, which are not empty. *)
Lemma blank_image_query_returns_mock_points :
  detectGeometricFeatures (OnLoad (blankImage 12 12 7)) (mkOptions 100 5 50) = []
  /\ exists d,
      queryFn sampleCos sampleSin sampleRandom (Some "image-1"%string)
        (Some "blob:pattern"%string) true ApiError (OnLoad (blankImage 12 12 7))
        "1700000000000"%string defaultParams = Resolved d
      /\ q_points d <> [].
Proof.
  assert (Hd : detectGeometricFeatures (OnLoad (blankImage 12 12 7)) (mkOptions 100 5 50) = [])
    by (vm_compute; reflexivity).
  split; [exact Hd|].
  eexists. split.
  - apply queryFn_empty_detection; [reflexivity|exact Hd].
  - apply generateMockPoints_nonempty. vm_compute. discriminate.
Qed.

(** C7, as the code has it.  [detectGeometricFeatures] never raises: it
    resolves with no point when the image fails to load, when there is no
    2D context, and for an image of constant intensity (threshold not
    negative).  With an image id the query never raises either; but when the
    API call has failed and the detection is empty it does not return the
    empty set: it returns the mock points, which are not empty as soon as
    at least one point is requested. *)
Theorem empty_detection_is_replaced_by_mock_points
        (Math_cos Math_sin : Q -> Q) (Math_random : nat -> Q)
        (imageId imageUrl : option string) (useGeometricDetection : bool)
        (load : ImageLoad) (now : string) (params : Params)
        (has_image_id : truthy imageId = true)
        (empty_detection :
           detectGeometricFeatures load
             (mkOptions (threshold params) (minSpacing params) (density params)) = [])
        (points_requested : (1 <= totalPointsOf (density params))%Z)
        (blank : ImageData) (g : Z)
        (threshold_range : 0 <= threshold params)
        (constant_intensity :
           Forall (eq g) (toGray (width blank) (height blank) (data blank))) :
  let options := mkOptions (threshold params) (minSpacing params) (density params) in
  detectGeometricFeatures OnError options = []
  /\ detectGeometricFeatures OnLoadNoContext options = []
  /\ detectGeometricFeatures (OnLoad blank) options = []
  /\ (forall api, exists d,
         queryFn Math_cos Math_sin Math_random imageId imageUrl useGeometricDetection
           api load now params = Resolved d)
  /\ queryFn Math_cos Math_sin Math_random imageId imageUrl useGeometricDetection
       ApiError load now params
     = Resolved (mkQueryData ("mock-" ++ now)
                   (generateMockPoints Math_cos Math_sin Math_random params))
  /\ generateMockPoints Math_cos Math_sin Math_random params <> [].
Proof.
  intros options.
  split; [reflexivity|]. split; [reflexivity|].
  split; [now apply (detectGeometricFeatures_blank blank options g)|].
  split; [intros api; now apply queryFn_never_rejects_with_id|].
  split; [now apply queryFn_empty_detection|].
  now apply generateMockPoints_nonempty.
Qed.

Lemma empty_detection_is_replaced_by_mock_points_witness :
  queryFn sampleCos sampleSin sampleRandom (Some "image-1"%string)
    (Some "blob:pattern"%string) true ApiError (OnLoad (blankImage 12 12 7))
    "1700000000000"%string defaultParams
  = Resolved (mkQueryData "mock-1700000000000"
                (generateMockPoints sampleCos sampleSin sampleRandom defaultParams))
  /\ generateMockPoints sampleCos sampleSin sampleRandom defaultParams <> [].
Proof.
  assert (Hid : truthy (Some "image-1"%string) = true) by reflexivity.
  assert (Hd : detectGeometricFeatures (OnLoad (blankImage 12 12 7))
                 (mkOptions (threshold defaultParams) (minSpacing defaultParams)
                    (density defaultParams)) = [])
    by (vm_compute; reflexivity).
  assert (Hn : (1 <= totalPointsOf (density defaultParams))%Z)
    by (vm_compute; discriminate).
  assert (Ht : 0 <= threshold defaultParams) by (vm_compute; discriminate).
  assert (Hc : Forall (eq 7%Z)
                 (toGray (width (blankImage 12 12 7)) (height (blankImage 12 12 7))
                    (data (blankImage 12 12 7))))
    by (vm_compute; repeat constructor).
  destruct (empty_detection_is_replaced_by_mock_points
              sampleCos sampleSin sampleRandom (Some "image-1"%string)
              (Some "blob:pattern"%string) true (OnLoad (blankImage 12 12 7))
              "1700000000000"%string defaultParams Hid Hd Hn (blankImage 12 12 7) 7%Z Ht Hc)
    as [_ [_ [_ [_ [Hq Hne]]]]].
  split; assumption.
Defined.

(** ** Mock meshes *)

Import Mesh MeshFacts.

(** Vertices, distinct undirected edges and faces of the three index grids. *)
Lemma grid_16_16_counts :
  (edgeCount (gridFaces 16 16), length (gridFaces 16 16)) = (800%nat, 512%nat).
Proof. vm_compute. reflexivity. Qed.

Lemma grid_32_16_counts :
  (edgeCount (gridFaces 32 16), length (gridFaces 32 16)) = (1584%nat, 1024%nat).
Proof. vm_compute. reflexivity. Qed.

Lemma grid_48_24_counts :
  (edgeCount (gridFaces 48 24), length (gridFaces 48 24)) = (3528%nat, 2304%nat).
Proof. vm_compute. reflexivity. Qed.

Lemma grid_euler (rows cols : Z) (point : Z -> Z -> Vec3 * Vec3) (e f : nat) :
  (0 <= rows)%Z -> (0 <= cols)%Z ->
  (edgeCount (gridFaces rows cols), length (gridFaces rows cols)) = (e, f) ->
  eulerCharacteristic
    (mkGeometry (fst (gridVertices rows cols point)) (gridFaces rows cols)
       (snd (gridVertices rows cols point)))
  = ((rows + 1) * (cols + 1) - Z.of_nat e + Z.of_nat f)%Z.
Proof.
  intros Hr Hc Hcounts. inversion Hcounts as [[He Hf]].
  unfold eulerCharacteristic. simpl. rewrite gridVertices_vertices by assumption.
  reflexivity.
Qed.

Lemma sphere_euler (c s : Q -> Q) :
  eulerCharacteristic (geometry (generateSphereModel c s)) = 1%Z.
Proof.
  rewrite generateSphereModel_geometry.
  rewrite (grid_euler 16 16 _ 800 512); [reflexivity|lia|lia|apply grid_16_16_counts].
Qed.

Lemma torus_euler (c s : Q -> Q) :
  eulerCharacteristic (geometry (generateTorusModel c s)) = 1%Z.
Proof.
  rewrite generateTorusModel_geometry.
  rewrite (grid_euler 32 16 _ 1584 1024); [reflexivity|lia|lia|apply grid_32_16_counts].
Qed.

Lemma displaced_torus_euler (c s : Q -> Q) (a : Q -> Q -> Q) (points : list Point2D) :
  eulerCharacteristic (generateMockTorusFromPoints c s a points) = 1%Z.
Proof.
  rewrite generateMockTorusFromPoints_geometry.
  rewrite (grid_euler 48 24 _ 3528 2304); [reflexivity|lia|lia|apply grid_48_24_counts].
Qed.

(** C5, as stated, fails: the sphere mesh does not have V - E + F = 2 and
    the torus meshes do not have V - E + F = 0 when edges are counted on
    vertex indices. *)
Lemma mesh_euler_characteristic_is_not_that_of_the_surface :
  eulerCharacteristic (geometry (generateSphereModel sampleCos sampleSin)) <> 2%Z
  /\ eulerCharacteristic (geometry (generateTorusModel sampleCos sampleSin)) <> 0%Z
  /\ eulerCharacteristic
       (generateMockTorusFromPoints sampleCos sampleSin sampleAtan2
          [mkPoint (1 # 4) (3 # 4) 1 "edge"]) <> 0%Z.
Proof.
  rewrite sphere_euler, torus_euler, displaced_torus_euler.
  repeat split; discriminate.
Qed.

(** C5, as the code has it.  Each generator emits an index grid of
    [(rows + 1) * (cols + 1)] vertices in which the seam (and, for the
    sphere, each pole) is a row or column of separate vertices; counted on
    vertex indices such a mesh is a disc, and V - E + F = 1: 289 - 800 + 512
    for the sphere, 561 - 1584 + 1024 for the torus, 1225 - 3528 + 2304 for
    the torus displaced by the points.  The generators take no subdivision
    level. *)
Theorem mesh_euler_characteristic_is_one
        (Math_cos Math_sin : Q -> Q) (Math_atan2 : Q -> Q -> Q)
        (points : list Point2D) :
  eulerCharacteristic (geometry (generateSphereModel Math_cos Math_sin)) = 1%Z
  /\ eulerCharacteristic (geometry (generateTorusModel Math_cos Math_sin)) = 1%Z
  /\ eulerCharacteristic
       (generateMockTorusFromPoints Math_cos Math_sin Math_atan2 points) = 1%Z.
Proof.
  split; [apply sphere_euler|]. split; [apply torus_euler|apply displaced_torus_euler].
Qed.

(** C6.  In the mesh of each generator the three indices of every face are
    valid vertex indices, there are as many normals as vertices, the normal
    at an index is the one pushed together with the vertex at that index,
    and every component of every normal lies in [[-1, 1]] (so it is finite). *)
Theorem meshes_are_well_formed
        (Math_cos Math_sin : Q -> Q) (Math_atan2 : Q -> Q -> Q)
        (points : list Point2D)
        (cos_range : forall a, unitRange (Math_cos a))
        (sin_range : forall a, unitRange (Math_sin a)) :
  WellFormed (spherePoint Math_cos Math_sin 1 16 16)
    (geometry (generateSphereModel Math_cos Math_sin))
  /\ WellFormed (torusPoint Math_cos Math_sin 1 (fun _ => 3 # 10) 32 16)
       (geometry (generateTorusModel Math_cos Math_sin))
  /\ WellFormed (displacedPoint Math_cos Math_sin Math_atan2 points)
       (generateMockTorusFromPoints Math_cos Math_sin Math_atan2 points)
  /\ vertex_count (generateSphereModel Math_cos Math_sin) = 289%Z
  /\ vertex_count (generateTorusModel Math_cos Math_sin) = 561%Z.
Proof.
  split; [|split; [|split; [|split]]].
  - rewrite generateSphereModel_geometry. apply grid_WellFormed; try lia.
    intros i j. now apply spherePoint_bounded.
  - rewrite generateTorusModel_geometry. apply grid_WellFormed; try lia.
    intros i j. now apply torusPoint_bounded.
  - rewrite generateMockTorusFromPoints_geometry. apply grid_WellFormed; try lia.
    intros i j. now apply torusPoint_bounded.
  - unfold generateSphereModel.
    pose proof (@gridVertices_vertices 16 16 (spherePoint Math_cos Math_sin 1 16 16)) as H.
    destruct (gridVertices 16 16 _). simpl in *. apply H; lia.
  - unfold generateTorusModel.
    pose proof (@gridVertices_vertices 32 16
                  (torusPoint Math_cos Math_sin 1 (fun _ => 3 # 10) 32 16)) as H.
    destruct (gridVertices 32 16 _). simpl in *. apply H; lia.
Qed.

Lemma meshes_are_well_formed_witness :
  WellFormed (spherePoint sampleCos sampleSin 1 16 16)
    (geometry (generateSphereModel sampleCos sampleSin))
  /\ WellFormed
       (displacedPoint sampleCos sampleSin sampleAtan2 [mkPoint (1 # 4) (3 # 4) 1 "edge"])
       (generateMockTorusFromPoints sampleCos sampleSin sampleAtan2
          [mkPoint (1 # 4) (3 # 4) 1 "edge"]).
Proof.
  destruct (meshes_are_well_formed sampleCos sampleSin sampleAtan2
              [mkPoint (1 # 4) (3 # 4) 1 "edge"] sampleCos_range sampleSin_range)
    as [Hs [_ [Hd _]]].
  split; assumption.
Defined.

(** C8, as stated, fails: with the API call failing, a request for an
    unknown shape resolves with the mock sphere instead of an error. *)
Lemma unknown_shape_resolves_with_a_sphere :
  mutationFn sampleCos sampleSin (Response := unit) (Some "points-1"%string)
    "dodecahedron" (Rejected "422 unsupported target_shape") "1700000000000"
  = Resolved
      (FromMock unit
         (mkMockModel "mock-1700000000000" "sphere"
            (generateSphereModel sampleCos sampleSin))).
Proof. reflexivity. Qed.

(** C8, as the code has it.  The only error that [mutationFn] reports is a
    missing points extraction id.  With an id, a response of the API is
    returned as it is, and any failure of the API call (a rejected shape
    included) is replaced by a mock model: the torus for the shape "torus",
    and the sphere, labelled "sphere", for every other shape. *)
Theorem unknown_shape_falls_back_to_mock_sphere
        (Math_cos Math_sin : Q -> Q) (Response : Type)
        (pointsExtractionId : option string) (shape message now : string)
        (has_id : truthy pointsExtractionId = true)
        (not_torus : shape <> "torus"%string) :
  mutationFn Math_cos Math_sin pointsExtractionId shape (Rejected message) now
  = Resolved
      (FromMock Response
         (mkMockModel ("mock-" ++ now) "sphere" (generateSphereModel Math_cos Math_sin)))
  /\ mutationFn Math_cos Math_sin pointsExtractionId "torus" (Rejected message) now
     = Resolved
         (FromMock Response
            (mkMockModel ("mock-" ++ now) "torus" (generateTorusModel Math_cos Math_sin)))
  /\ (forall r : Response,
         mutationFn Math_cos Math_sin pointsExtractionId shape (Resolved r) now
         = Resolved (FromApi r))
  /\ (forall api : Outcome Response,
         mutationFn Math_cos Math_sin None shape api now
         = Rejected "No points extraction ID provided").
Proof.
  unfold mutationFn, generateMockModel. rewrite has_id. simpl.
  apply String.eqb_neq in not_torus. rewrite not_torus.
  repeat split.
Qed.

Lemma unknown_shape_falls_back_to_mock_sphere_witness :
  mutationFn sampleCos sampleSin (Response := unit) (Some "points-1"%string)
    "cube" (Rejected "500") "1700000000000"
  = Resolved
      (FromMock unit
         (mkMockModel "mock-1700000000000" "sphere"
            (generateSphereModel sampleCos sampleSin))).
Proof.
  refine (proj1 (unknown_shape_falls_back_to_mock_sphere sampleCos sampleSin unit
                   (Some "points-1"%string) "cube" "500" "1700000000000" _ _)).
  - reflexivity.
  - discriminate.
Defined.

(** C9.  [generateMockTorusFromPoints], the generator whose mesh depends on
    the points, is total, and on the empty list the displacement is zero at
    every vertex: the mesh is the parametric torus of major radius 1.2 and
    minor radius 0.4 sampled on the 48 x 24 grid.  It has 49 * 25 = 1225
    vertices and as many normals, the vertex [i * 25 + j] being
    [((R + r cos phi) cos theta, r sin phi, (R + r cos phi) sin theta)]
    for [theta = 2 pi i / 48] and [phi = 2 pi j / 24], and 2 * 48 * 24 =
    2304 triangles.  (In the 3D view the generator is called when there is
    at least one adjusted point; with none the view leaves the model data
    as they are.) *)
Theorem empty_points_give_the_parametric_torus
        (Math_cos Math_sin : Q -> Q) (Math_atan2 : Q -> Q -> Q) :
  let torus := generateMockTorusFromPoints Math_cos Math_sin Math_atan2 [] in
  (forall theta, displacementAt Math_atan2 [] theta = 0)
  /\ torus = parametricTorus Math_cos Math_sin (12 # 10) (4 # 10) 48 24
  /\ length (vertices torus) = 1225%nat
  /\ length (normals torus) = 1225%nat
  /\ length (faces torus) = 2304%nat
  /\ (forall i j : nat,
         (i <= 48)%nat -> (j <= 24)%nat ->
         nth_error (vertices torus) (i * 25 + j)
         = Some (torusVertex Math_cos Math_sin (12 # 10) (4 # 10) 48 24 i j)
         /\ nth_error (normals torus) (i * 25 + j)
            = Some (torusNormal Math_cos Math_sin 48 24 i j))
  /\ (forall modelData,
         modelDataEffect Math_cos Math_sin Math_atan2 [] modelData = modelData).
Proof.
  intros torus. subst torus. rewrite parametricTorus_empty.
  split; [reflexivity|]. split; [reflexivity|].
  unfold parametricTorus. cbn [vertices normals faces].
  split; [now rewrite length_map, gridPositions_length|].
  split; [now rewrite length_map, gridPositions_length|].
  split; [vm_compute; reflexivity|].
  split; [|reflexivity].
  intros i j Hi Hj.
  rewrite !nth_error_map.
  rewrite (@gridPositions_nth 49 25 i j) by lia.
  split; reflexivity.
Qed.

(** ** The points history *)

Import Store StoreFacts.

(** C10.  [setAdjustedPoints p] followed by [undo] and [redo] gives back
    the state reached by [setAdjustedPoints p], whose adjusted points are
    [p] and whose history ends with [p]; neither action raises.  [undo]
    with the history index at the first entry leaves the state unchanged. *)
Theorem undo_redo_round_trip
        (p : list Point2D) (s first : AppState)
        (at_first_entry : pointsHistoryIndex first = 0%Z) :
  andThen (undo (setAdjustedPoints p s)) redo = Resolved (setAdjustedPoints p s)
  /\ adjustedPoints (setAdjustedPoints p s) = p
  /\ (exists h, pointsHistory (setAdjustedPoints p s) = h ++ [p])
  /\ undo first = Resolved first.
Proof.
  split; [|split; [|split]].
  - destruct (setAdjustedPoints_shape p s) as [h ->].
    set (H := h ++ [p]). assert (HL : (1 <= Z.of_nat (length H))%Z).
    { subst H. rewrite length_app. simpl. lia. }
    unfold undo. simpl.
    destruct (Z.ltb_spec 0 (Z.of_nat (length H) - 1)) as [Hlt|Hge].
    + destruct (@historyAt_some H (Z.of_nat (length H) - 1 - 1)%Z) as [q Hq]; [lia|].
      rewrite Hq. simpl. unfold redo. simpl.
      destruct (Z.ltb_spec (Z.of_nat (length H) - 1 - 1) (Z.of_nat (length H) - 1)); [|lia].
      replace (Z.of_nat (length H) - 1 - 1 + 1)%Z with (Z.of_nat (length H) - 1)%Z by lia.
      subst H. rewrite historyAt_last. f_equal. f_equal.
      * symmetry. apply Z.ltb_lt. lia.
      * apply Z.ltb_irrefl.
    + simpl. unfold redo. simpl. rewrite Z.ltb_irrefl. reflexivity.
  - reflexivity.
  - destruct (setAdjustedPoints_shape p s) as [h ->]. now exists h.
  - unfold undo. rewrite at_first_entry. reflexivity.
Qed.

Lemma undo_redo_round_trip_witness :
  andThen (undo (setAdjustedPoints [mkPoint (1 # 2) (1 # 2) 1 "center"]
                   (setAdjustedPoints [] initialState))) redo
  = Resolved (setAdjustedPoints [mkPoint (1 # 2) (1 # 2) 1 "center"]
                (setAdjustedPoints [] initialState))
  /\ undo (clearPointsHistory initialState) = Resolved (clearPointsHistory initialState).
Proof.
  destruct (undo_redo_round_trip [mkPoint (1 # 2) (1 # 2) 1 "center"]
              (setAdjustedPoints [] initialState) (clearPointsHistory initialState)
              eq_refl) as [Hrt [_ [_ Hfirst]]].
  split; assumption.
Defined.

(** * Further properties of the code *)

(** ** Feature detection *)



(** X3.  [filterBySpacing] is idempotent, and with a minimum spacing of 0
    it keeps every feature. *)
Theorem filterBySpacing_idempotent (features : list GeometricFeature) (minSpacing : Q) :
  filterBySpacing (filterBySpacing features minSpacing) minSpacing
  = filterBySpacing features minSpacing
  /\ filterBySpacing features 0 = features.
Proof.
  split.
  - apply FilterFacts.filterBySpacing_spaced_id. apply filterBySpacing_far.
  - apply FilterFacts.filterBySpacing_spaced_id. apply FilterFacts.FOP_far_zero.
    reflexivity.
Qed.

(** X4.  The edge map of [applySobelFilter] has one cell for each pixel,
    every cell is 0 or 255, and the cells of the border of the image are
    0. *)
Theorem sobel_edge_map_shape
        (gray : list Z) (w h : Z) (threshold : Q) (x y : Z)
        (in_image : (0 <= x < w)%Z /\ (0 <= y < h)%Z)
        (on_border : (x = 0 \/ x = w - 1 \/ y = 0 \/ y = h - 1)%Z) :
  length (applySobelFilter gray w h threshold) = Z.to_nat (w * h)
  /\ Forall (fun v => v = 0%Z \/ v = 255%Z) (applySobelFilter gray w h threshold)
  /\ get 0%Z (applySobelFilter gray w h threshold) (y * w + x) = 0%Z.
Proof.
  split; [apply FilterFacts.applySobelFilter_length|].
  split; [apply FilterFacts.applySobelFilter_cells|].
  apply FilterFacts.applySobelFilter_border; tauto.
Qed.

Lemma sobel_edge_map_shape_witness :
  get 0%Z (applySobelFilter (toGray 12 12 (data (dotsImage 12 12 [(1, 1)%Z]))) 12 12 100)
    (0 * 12 + 1) = 0%Z.
Proof.
  refine (proj2 (proj2 (sobel_edge_map_shape
                          (toGray 12 12 (data (dotsImage 12 12 [(1, 1)%Z])))
                          12 12 100 1 0 _ _))).
  - lia.
  - right. right. left. reflexivity.
Defined.

(** ** Snapping *)

(** X5.  When [findNearestFeature] returns a feature, it is the first of
    the features whose computed distance from [(x, y)] is the least, and
    that distance is less than [maxDistance]: the features before it have a
    greater computed distance, the features after it do not have a smaller
    one.  The distances are those that the code computes, every operation
    rounded; a feature that is nearer by less than the rounding can be
    passed over. *)
Theorem findNearestFeature_returns_the_first_nearest
        (x y maxDistance : Q) (features : list GeometricFeature)
        (nearest : GeometricFeature)
        (found : NearestFeature.findNearestFeature x y features maxDistance
                 = Some nearest) :
  NearestFeature.distTo x y nearest < maxDistance
  /\ exists pre post,
      features = pre ++ nearest :: post
      /\ Forall (fun g => NearestFeature.distTo x y nearest < NearestFeature.distTo x y g)
           pre
      /\ Forall (fun g => NearestFeature.distTo x y nearest <= NearestFeature.distTo x y g)
           post.
Proof.
  pose proof (NearestFeatureFacts.computed_nearestLoop_nearestOf x y features maxDistance) as H.
  unfold NearestFeature.findNearestFeature in found. unfold NearestFeature.nearestOf in H.
  rewrite found in H. destruct H as [_ [Hw Hsplit]]. split; assumption.
Qed.

(** From (0, 0) the features (1, 2 ^ -26) and (1, 0) both have the computed
    distance 1; the first one is returned, the second one is nearer. *)
Lemma findNearestFeature_returns_the_first_nearest_witness :
  NearestFeature.distTo 0 0 (mkFeature corner 1 (2 ^ (-26)) 1) < 2
  /\ NearestFeature.distTo 0 0 (mkFeature corner 1 (2 ^ (-26)) 1)
     == NearestFeature.distTo 0 0 (mkFeature corner 1 0 1)
  /\ NearestFeature.exactDistSq 0 0 (mkFeature corner 1 0 1)
     < NearestFeature.exactDistSq 0 0 (mkFeature corner 1 (2 ^ (-26)) 1).
Proof.
  split; [|split; vm_compute; reflexivity].
  refine (proj1 (findNearestFeature_returns_the_first_nearest
                   0 0 2
                   [mkFeature corner 1 (2 ^ (-26)) 1; mkFeature corner 1 0 1]
                   (mkFeature corner 1 (2 ^ (-26)) 1) _)).
  vm_compute. reflexivity.
Defined.

(** X6.  [findNearestFeature] returns [null] exactly when the computed
    distance of every feature of the list from [(x, y)] is at least
    [maxDistance]. *)
Theorem findNearestFeature_null_iff_none_within_reach
        (x y maxDistance : Q) (features : list GeometricFeature) :
  NearestFeature.findNearestFeature x y features maxDistance = None
  <-> Forall (fun g => maxDistance <= NearestFeature.distTo x y g) features.
Proof.
  pose proof (NearestFeatureFacts.computed_nearestLoop_nearestOf x y features maxDistance) as H.
  unfold NearestFeature.findNearestFeature. unfold NearestFeature.nearestOf in H.
  destruct (fst (NearestFeature.nearestLoop x y features maxDistance)) as [best|].
  - split; [discriminate|]. intros Hall.
    destruct H as [_ [Hw [pre [post [Hsplit _]]]]].
    rewrite Forall_forall in Hall.
    assert (Hin : In best features)
      by (rewrite Hsplit; apply in_or_app; right; now left).
    apply Hall in Hin. lra.
  - split; [intros _; apply H|reflexivity].
Qed.

(** The computed distance decides, not the Euclidean one: with the default
    reach 0.03 of the click handler, a feature whose Euclidean distance is
    below the reach by less than the rounding is not returned. *)
Example findNearestFeature_rounds_the_distance :
  let reach := fl (3 # 100) in
  let feature :=
    mkFeature corner (- fl (29999999999999995 # 1000000000000000000))
      (- fl (37646634376435967 # 100000000000000000000000000)) 1 in
  NearestFeature.findNearestFeature 0 0 [feature] reach = None
  /\ NearestFeature.exactDistSq 0 0 feature < reach * reach.
Proof. split; vm_compute; reflexivity. Qed.

(** ** Mock points *)

(** X7.  Whatever [Math.random], [Math.cos] and [Math.sin] return,
    [generateMockPoints] returns at most [totalPoints] points (none when
    [totalPoints] is negative), each in the unit square, with the weight
    [weighting] and of type "edge" or "center". *)
Theorem mock_points_are_bounded
        (Math_cos Math_sin : Q -> Q) (Math_random : nat -> Q) (params : Params) :
  (length (generateMockPoints Math_cos Math_sin Math_random params)
   <= Z.to_nat (totalPointsOf (density params)))%nat
  /\ Forall (MockBounds.mockPoint (weighting params))
       (generateMockPoints Math_cos Math_sin Math_random params).
Proof.
  split.
  - apply MockShapeFacts.generateMockPoints_length.
  - apply MockShapeFacts.generateMockPoints_shape.
Qed.

(** X8.  With a minimum spacing that is not positive no candidate is too
    close to a placed point, and [generateMockPoints] returns exactly
    [totalPoints] points, [Math.floor((density / 100) * 180 + 20)] in the
    arithmetic of the engine.  For the whole percentages from 0 to 100 this
    is [floor(density / 100 * 180 + 20)]; for density 115 it is 226, where
    the exact quotient gives 227. *)
Theorem mock_points_count_without_spacing
        (Math_cos Math_sin : Q -> Q) (Math_random : nat -> Q) (params : Params)
        (no_spacing : minSpacing params <= 0)
        (density_finite : finite (density params)) :
  length (generateMockPoints Math_cos Math_sin Math_random params)
  = Z.to_nat (totalPointsOf (density params))
  /\ (forall percent : Z,
         (0 <= percent <= 100)%Z ->
         totalPointsOf (inject_Z percent) = Qfloor (inject_Z percent / 100 * 180 + 20))
  /\ (totalPointsOf 115 = 226)%Z
  /\ (Qfloor (115 / 100 * 180 + 20) = 227)%Z.
Proof.
  split.
  - unfold generateMockPoints.
    rewrite MockShapeFacts.placeAll_nonpos; [reflexivity|].
    unfold divF. apply FloatFacts.fl_nonpos.
    apply Qle_shift_div_r; [reflexivity|]. rewrite Qmult_0_l. exact no_spacing.
  - split; [exact MockShapeFacts.totalPointsOf_percent|].
    split; vm_compute; reflexivity.
Qed.

Lemma mock_points_count_without_spacing_witness :
  length (generateMockPoints sampleCos sampleSin sampleRandom (mkParams 50 100 0 1))
  = Z.to_nat (totalPointsOf (density (mkParams 50 100 0 1))).
Proof.
  refine (proj1 (mock_points_count_without_spacing sampleCos sampleSin sampleRandom
                   (mkParams 50 100 0 1) _ _)).
  - vm_compute. discriminate.
  - vm_compute. discriminate.
Defined.

(** ** The points history *)

(** X9.  In every state that the actions of the store lead to from the
    initial state, [undo] and [redo] do not raise, and the points history
    is either empty with the index at -1 or has an entry at the index, with
    [canUndo] and [canRedo] telling whether an entry precedes and follows
    it. *)
Theorem undo_and_redo_never_raise
        (s : Store.AppState) (reachable : PointsHistory.Reachable s) :
  PointsHistory.HistoryOK s
  /\ (exists s', Store.undo s = Resolved s' /\ PointsHistory.HistoryOK s')
  /\ (exists s', Store.redo s = Resolved s' /\ PointsHistory.HistoryOK s').
Proof.
  pose proof (PointsHistoryFacts.Reachable_HistoryOK reachable) as H.
  split; [exact H|]. split.
  - exact (PointsHistoryFacts.HistoryOK_undo H).
  - exact (PointsHistoryFacts.HistoryOK_redo H).
Qed.

Lemma undo_and_redo_never_raise_witness :
  exists s',
    Store.undo (Store.setAdjustedPoints [mkPoint (1 # 2) (1 # 2) 1 "center"]
                  (PointsHistory.reset (Store.setAdjustedPoints [] Store.initialState)))
    = Resolved s'.
Proof.
  destruct (undo_and_redo_never_raise
              (Store.setAdjustedPoints [mkPoint (1 # 2) (1 # 2) 1 "center"]
                 (PointsHistory.reset (Store.setAdjustedPoints [] Store.initialState)))
              (PointsHistory.reach_setAdjustedPoints _
                 (PointsHistory.reach_reset
                    (PointsHistory.reach_setAdjustedPoints []
                       PointsHistory.reach_initialState))))
    as [_ [[s' [Hundo _]] _]].
  exists s'. exact Hundo.
Defined.

(** X10.  [undo] reverts the last edit: after [setAdjustedPoints p] and
    [setAdjustedPoints q], from any state, [undo] makes [p] the adjusted
    points again, keeps the history and enables [redo]. *)
Theorem undo_reverts_the_last_edit (p q : list Point2D) (s : Store.AppState) :
  exists s',
    Store.undo (Store.setAdjustedPoints q (Store.setAdjustedPoints p s)) = Resolved s'
    /\ Store.adjustedPoints s' = p
    /\ Store.pointsHistory s'
       = Store.pointsHistory (Store.setAdjustedPoints q (Store.setAdjustedPoints p s))
    /\ Store.canRedo s' = true.
Proof.
  destruct (PointsHistoryFacts.setAdjustedPoints_twice p q s) as [h ->].
  unfold Store.undo. cbn [Store.pointsHistoryIndex Store.pointsHistory].
  destruct (Z.ltb_spec 0 (Z.of_nat (length h) + 1)); [|lia].
  replace (Z.of_nat (length h) + 1 - 1)%Z with (Z.of_nat (length h)) by lia.
  rewrite PointsHistoryFacts.historyAt_middle.
  eexists. split; [reflexivity|]. repeat split.
Qed.

(** X11.  An edit made after an [undo] replaces the undone entry: the
    history then ends with the new list in place of the undone one, and
    [redo] leaves the state unchanged. *)
Theorem edit_after_undo_discards_the_undone_edit
        (p q r : list Point2D) (s : Store.AppState) :
  exists h s',
    Store.undo (Store.setAdjustedPoints q (Store.setAdjustedPoints p s)) = Resolved s'
    /\ Store.pointsHistory s' = (h ++ [p]) ++ [q]
    /\ Store.pointsHistory (Store.setAdjustedPoints r s') = (h ++ [p]) ++ [r]
    /\ Store.redo (Store.setAdjustedPoints r s')
       = Resolved (Store.setAdjustedPoints r s').
Proof.
  destruct (PointsHistoryFacts.setAdjustedPoints_twice p q s) as [h ->].
  exists h. unfold Store.undo. cbn [Store.pointsHistoryIndex Store.pointsHistory].
  destruct (Z.ltb_spec 0 (Z.of_nat (length h) + 1)); [|lia].
  replace (Z.of_nat (length h) + 1 - 1)%Z with (Z.of_nat (length h)) by lia.
  rewrite PointsHistoryFacts.historyAt_middle.
  eexists. split; [reflexivity|]. split; [reflexivity|].
  assert (E : slice0 ((h ++ [p]) ++ [q]) (Z.of_nat (length h) + 1) = h ++ [p]).
  { unfold slice0. destruct (Z.ltb_spec (Z.of_nat (length h) + 1) 0); [lia|].
    replace (Z.to_nat (Z.of_nat (length h) + 1)) with (length (h ++ [p]) + 0)%nat
      by (rewrite length_app; simpl; lia).
    rewrite firstn_app_2. simpl. now rewrite app_nil_r. }
  split.
  - unfold Store.setAdjustedPoints, Store.addPointsToHistory.
    cbn [Store.pointsHistoryIndex Store.pointsHistory]. now rewrite E.
  - unfold Store.redo, Store.setAdjustedPoints, Store.addPointsToHistory.
    cbn [Store.pointsHistoryIndex Store.pointsHistory].
    now rewrite Z.ltb_irrefl.
Qed.

(** X12.  The first edit can be undone only after [clearPointsHistory]:
    from the initial state the list set first becomes the only entry of
    the history and [undo] leaves it in place, while after
    [clearPointsHistory] the history starts with the empty list and [undo]
    goes back to it. *)
Theorem first_edit_is_undone_only_after_clearPointsHistory
        (p : list Point2D) (s : Store.AppState) :
  Store.canUndo (Store.setAdjustedPoints p Store.initialState) = false
  /\ Store.undo (Store.setAdjustedPoints p Store.initialState)
     = Resolved (Store.setAdjustedPoints p Store.initialState)
  /\ Store.canUndo (Store.setAdjustedPoints p (Store.clearPointsHistory s)) = true
  /\ exists s',
      Store.undo (Store.setAdjustedPoints p (Store.clearPointsHistory s)) = Resolved s'
      /\ Store.adjustedPoints s' = [].
Proof.
  split; [reflexivity|]. split; [reflexivity|]. split; [reflexivity|].
  eexists. split; reflexivity.
Qed.

(** X13.  [reset] empties the points history and keeps [canUndo]: after
    two edits and a [reset] the flag is still set although [undo] leaves
    the state unchanged; the next edit clears the flag. *)
Theorem reset_keeps_the_undo_flag (p q r : list Point2D) (s : Store.AppState) :
  let s' := PointsHistory.reset
              (Store.setAdjustedPoints q (Store.setAdjustedPoints p s)) in
  Store.canUndo s' = true
  /\ Store.adjustedPoints s' = []
  /\ Store.pointsHistory s' = []
  /\ Store.undo s' = Resolved s'
  /\ Store.canUndo (Store.setAdjustedPoints r s') = false.
Proof.
  destruct (PointsHistoryFacts.setAdjustedPoints_twice p q s) as [h ->].
  cbv zeta. repeat split.
Qed.

(** ** Navigation between the steps *)

(** X14.  In every state that the actions of the store lead to from the
    initial state, [goBack] and [goForward] do not raise, and the step
    history is either empty with the index at -1 or has an entry at the
    index, with [canGoBack] and [canGoForward] telling whether an entry
    precedes and follows it. *)
Theorem goBack_and_goForward_never_raise
        (File : Type) (s : AppStore.AppState File)
        (reachable : AppStore.Reachable s) :
  AppStore.HistoryOK s
  /\ (exists s', AppStore.goBack s = Resolved s' /\ AppStore.HistoryOK s')
  /\ (exists s', AppStore.goForward s = Resolved s' /\ AppStore.HistoryOK s').
Proof.
  pose proof (AppStoreFacts.Reachable_navOK reachable) as H.
  split; [exact H|]. split.
  - exact (AppStoreFacts.navOK_goBack H).
  - exact (AppStoreFacts.navOK_goForward H).
Qed.

Lemma goBack_and_goForward_never_raise_witness :
  exists s',
    AppStore.goBack
      (AppStore.setCurrentStep "adjust"
         (AppStore.setCurrentStep "analyze" (AppStore.initialState unit)))
    = Resolved s'.
Proof.
  destruct (goBack_and_goForward_never_raise unit
              (AppStore.setCurrentStep "adjust"
                 (AppStore.setCurrentStep "analyze" (AppStore.initialState unit)))
              (AppStore.reach_setCurrentStep "adjust"
                 (AppStore.reach_setCurrentStep "analyze"
                    (AppStore.reach_initialState unit))))
    as [_ [[s' [Hback _]] _]].
  exists s'. exact Hback.
Defined.

(** X15.  Going back restores the snapshot of the history entry, not the
    state that was left: when the index is at the entry [e] and
    [setCurrentStep b] is called, [goBack] assigns the step and the fields
    recorded in [e], whatever the fields have become since [e] was
    recorded, and [goForward] then gives back the state reached by
    [setCurrentStep b]. *)
Theorem goBack_restores_the_recorded_snapshot
        (File : Type) (s : AppStore.AppState File) (e : AppStore.StepState File)
        (b : string)
        (current_entry :
           AppStore.entryAt (AppStore.stepHistory s) (AppStore.currentHistoryIndex s)
           = Some e) :
  exists back,
    AppStore.goBack (AppStore.setCurrentStep b s) = Resolved back
    /\ AppStore.currentStep back = AppStore.step e
    /\ AppStore.fields back = AppStore.data e
    /\ AppStore.canGoForward back = true
    /\ AppStore.goForward back = Resolved (AppStore.setCurrentStep b s).
Proof.
  destruct (AppStoreFacts.setCurrentStep_shape b s current_entry) as [h [-> Hh]].
  unfold AppStore.goBack.
  cbn [AppStore.currentHistoryIndex AppStore.stepHistory].
  destruct (Z.ltb_spec 0 (Z.of_nat (length h) + 1)); [|lia].
  replace (Z.of_nat (length h) + 1 - 1)%Z with (Z.of_nat (length h)) by lia.
  rewrite AppStoreFacts.entryAt_middle.
  eexists. split; [reflexivity|]. split; [reflexivity|]. split; [reflexivity|].
  split; [reflexivity|].
  unfold AppStore.goForward.
  cbn [AppStore.currentHistoryIndex AppStore.stepHistory AppStore.modelColor
       AppStore.modelColor2 AppStore.useGradient].
  assert (L : (Z.of_nat (length ((h ++ [e]) ++ [AppStore.mkStepState b (AppStore.fields s)]))
               = Z.of_nat (length h) + 2)%Z)
    by (rewrite !length_app; simpl; lia).
  rewrite L.
  destruct (Z.ltb_spec (Z.of_nat (length h)) (Z.of_nat (length h) + 2 - 1)); [|lia].
  replace (Z.of_nat (length h) + 1)%Z with (Z.of_nat (length (h ++ [e])))
    by (rewrite length_app; simpl; lia).
  rewrite AppStoreFacts.entryAt_last.
  cbn [AppStore.step AppStore.data]. f_equal. f_equal.
  apply Z.ltb_ge. rewrite length_app. simpl. lia.
Qed.

Lemma goBack_restores_the_recorded_snapshot_witness :
  exists back,
    AppStore.goBack
      (AppStore.setCurrentStep "adjust"
         (AppStore.setCurrentStep "analyze" (AppStore.initialState unit)))
    = Resolved back
    /\ AppStore.currentStep back = "analyze"%string.
Proof.
  destruct (goBack_restores_the_recorded_snapshot unit
              (AppStore.setCurrentStep "analyze" (AppStore.initialState unit))
              (AppStore.mkStepState "analyze" (AppStore.initialFields unit))
              "adjust" eq_refl)
    as [back [Hback [Hstep _]]].
  exists back. split; [exact Hback|exact Hstep].
Defined.

(** ** Projects *)

(** X16.  Saving and loading a project.  [loadProjectData] of the object
    returned by [getProjectData] for a state [s] with model colours that
    are not empty gives, in any state [s0], a state for which
    [getProjectData] returns the same object (up to its date), and loaded
    into [s] itself it gives [s] back.  An empty model colour in the
    loaded object is replaced by the default colour. *)
Theorem project_round_trip
        (File : Type) (s s0 : AppStore.AppState File) (now later : string)
        (color_set : AppStore.modelColor s <> EmptyString)
        (color2_set : AppStore.modelColor2 s <> EmptyString) :
  AppStore.getProjectData later
    (AppStore.loadProjectData (AppStore.getProjectData now s) s0)
  = AppStore.getProjectData later s
  /\ AppStore.loadProjectData (AppStore.getProjectData now s) s = s
  /\ (let emptied :=
        AppStore.mkState (AppStore.currentStep s) (AppStore.fields s)
          (AppStore.stepHistory s) (AppStore.currentHistoryIndex s)
          (AppStore.canGoBack s) (AppStore.canGoForward s)
          EmptyString EmptyString (AppStore.useGradient s) in
      let loaded := AppStore.loadProjectData (AppStore.getProjectData now emptied) s0 in
      AppStore.modelColor loaded = "#00CCCC"%string
      /\ AppStore.modelColor2 loaded = "#1560BD"%string).
Proof.
  split; [|split; [|split; reflexivity]].
  - unfold AppStore.loadProjectData, AppStore.getProjectData.
    cbn [ProjectFile.currentStep ProjectFile.uploadedImage ProjectFile.patternAnalysis
         ProjectFile.adjustedPoints ProjectFile.pointDensity ProjectFile.detectionThreshold
         ProjectFile.minimumSpacing ProjectFile.weightingFactor ProjectFile.frameCount
         ProjectFile.lineWidth ProjectFile.modelColor ProjectFile.modelColor2
         ProjectFile.useGradient
         AppStore.currentStep AppStore.fields AppStore.modelColor AppStore.modelColor2
         AppStore.useGradient AppStore.uploadedImage AppStore.patternAnalysis
         AppStore.adjustedPoints AppStore.pointDensity AppStore.detectionThreshold
         AppStore.minimumSpacing AppStore.weightingFactor AppStore.frameCount
         AppStore.lineWidth].
    rewrite !AppStoreFacts.orElse_id by assumption. rewrite orb_false_r. reflexivity.
  - unfold AppStore.loadProjectData, AppStore.getProjectData.
    cbn [ProjectFile.currentStep ProjectFile.uploadedImage ProjectFile.patternAnalysis
         ProjectFile.adjustedPoints ProjectFile.pointDensity ProjectFile.detectionThreshold
         ProjectFile.minimumSpacing ProjectFile.weightingFactor ProjectFile.frameCount
         ProjectFile.lineWidth ProjectFile.modelColor ProjectFile.modelColor2
         ProjectFile.useGradient].
    rewrite !AppStoreFacts.orElse_id by assumption. rewrite orb_false_r.
    destruct s as [st [] hist idx back fwd c1 c2 g]. reflexivity.
Qed.

Lemma project_round_trip_witness :
  AppStore.loadProjectData
    (AppStore.getProjectData "2024-01-01T00:00:00.000Z"
       (AppStore.setCurrentStep "analyze" (AppStore.initialState unit)))
    (AppStore.setCurrentStep "analyze" (AppStore.initialState unit))
  = AppStore.setCurrentStep "analyze" (AppStore.initialState unit).
Proof.
  refine (proj1 (proj2 (project_round_trip unit
                   (AppStore.setCurrentStep "analyze" (AppStore.initialState unit))
                   (AppStore.initialState unit)
                   "2024-01-01T00:00:00.000Z" "2024-01-02T00:00:00.000Z" _ _)));
    simpl; discriminate.
Defined.

(** X17.  What a project does not hold.  A project saved from a state [s]
    and loaded after [reset] comes back at its step with its image and its
    points, but without the image id, with an empty step history on which
    [goBack] does nothing, and with the flag [canGoBack] that [s] had; the
    query function of [useAdjustPoints] called with that image id is
    rejected. *)
Theorem reloaded_project_has_no_image_id
        (File : Type) (s : AppStore.AppState File) (now : string)
        (Math_cos Math_sin : Q -> Q) (Math_random : nat -> Q)
        (imageUrl : option string) (useGeometricDetection : bool)
        (api : ApiOutcome) (load : ImageLoad) (date : string) (params : Params) :
  let reloaded :=
    AppStore.loadProjectData (AppStore.getProjectData now s) (AppStore.reset s) in
  AppStore.currentStep reloaded = AppStore.currentStep s
  /\ AppStore.uploadedImage (AppStore.fields reloaded)
     = AppStore.uploadedImage (AppStore.fields s)
  /\ AppStore.adjustedPoints (AppStore.fields reloaded)
     = AppStore.adjustedPoints (AppStore.fields s)
  /\ AppStore.imageId (AppStore.fields reloaded) = None
  /\ AppStore.stepHistory reloaded = []
  /\ AppStore.canGoBack reloaded = AppStore.canGoBack s
  /\ AppStore.goBack reloaded = Resolved reloaded
  /\ queryFn Math_cos Math_sin Math_random
       (AppStore.imageId (AppStore.fields reloaded))
       imageUrl useGeometricDetection api load date params
     = Rejected "No image ID provided".
Proof.
  cbv zeta. repeat split.
Qed.

(** ** Mock meshes *)

(** X18.  The bounding box that [generateSphereModel] and
    [generateTorusModel] declare contains every vertex of the mesh, for a
    cosine and a sine with values in [[-1, 1]]. *)
Theorem declared_bounding_box_contains_the_vertices
        (Math_cos Math_sin : Q -> Q)
        (cos_range : forall a, unitRange (Math_cos a))
        (sin_range : forall a, unitRange (Math_sin a)) :
  Forall (MeshBounds.inBox (bounding_box (generateSphereModel Math_cos Math_sin)))
    (vertices (geometry (generateSphereModel Math_cos Math_sin)))
  /\ Forall (MeshBounds.inBox (bounding_box (generateTorusModel Math_cos Math_sin)))
       (vertices (geometry (generateTorusModel Math_cos Math_sin))).
Proof.
  split.
  - rewrite generateSphereModel_geometry. cbn [vertices].
    replace (bounding_box (generateSphereModel Math_cos Math_sin))
      with (- (1), - (1), - (1), 1, 1, 1)
      by (unfold generateSphereModel; now destruct (gridVertices 16 16 _)).
    apply (@MeshBoundsFacts.Aligned_vertices
             (MeshBounds.inBox (- (1), - (1), - (1), 1, 1, 1))
             (spherePoint Math_cos Math_sin 1 16 16)).
    + intros i j. now apply MeshBoundsFacts.spherePoint_inBox.
    + apply gridVertices_aligned.
  - rewrite generateTorusModel_geometry. cbn [vertices].
    replace (bounding_box (generateTorusModel Math_cos Math_sin))
      with (- (1) - (3 # 10), - (3 # 10), - (1) - (3 # 10),
            1 + (3 # 10), 3 # 10, 1 + (3 # 10))
      by (unfold generateTorusModel; now destruct (gridVertices 32 16 _)).
    apply (@MeshBoundsFacts.Aligned_vertices
             (MeshBounds.inBox (- (1) - (3 # 10), - (3 # 10), - (1) - (3 # 10),
                                1 + (3 # 10), 3 # 10, 1 + (3 # 10)))
             (torusPoint Math_cos Math_sin 1 (fun _ => 3 # 10) 32 16)).
    + intros i j.
      apply (@MeshBoundsFacts.torusPoint_inBox Math_cos Math_sin cos_range sin_range
               1 (3 # 10) (fun _ => 3 # 10) 32 16 i j).
      * discriminate.
      * intros _. split; discriminate.
    + apply gridVertices_aligned.
Qed.

Lemma declared_bounding_box_contains_the_vertices_witness :
  Forall (MeshBounds.inBox (bounding_box (generateTorusModel sampleCos sampleSin)))
    (vertices (geometry (generateTorusModel sampleCos sampleSin))).
Proof.
  exact (proj2 (declared_bounding_box_contains_the_vertices sampleCos sampleSin
                  sampleCos_range sampleSin_range)).
Defined.



(** X20.  No face of a generated mesh is degenerate: the three vertex
    indices of every face of the sphere, of the torus and of the displaced
    torus are different.  The models declare the numbers of vertices and
    faces of their grids: 289 and 512 for the sphere, 561 and 1024 for the
    torus. *)
Theorem faces_are_proper_triangles
        (Math_cos Math_sin : Q -> Q) (Math_atan2 : Q -> Q -> Q)
        (points : list Point2D) :
  Forall MeshBounds.properFace (faces (geometry (generateSphereModel Math_cos Math_sin)))
  /\ Forall MeshBounds.properFace
       (faces (geometry (generateTorusModel Math_cos Math_sin)))
  /\ Forall MeshBounds.properFace
       (faces (generateMockTorusFromPoints Math_cos Math_sin Math_atan2 points))
  /\ (vertex_count (generateSphereModel Math_cos Math_sin),
      face_count (generateSphereModel Math_cos Math_sin)) = (289, 512)%Z
  /\ (vertex_count (generateTorusModel Math_cos Math_sin),
      face_count (generateTorusModel Math_cos Math_sin)) = (561, 1024)%Z.
Proof.
  split; [|split; [|split; [|split]]].
  - rewrite generateSphereModel_geometry. apply MeshBoundsFacts.gridFaces_proper.
  - rewrite generateTorusModel_geometry. apply MeshBoundsFacts.gridFaces_proper.
  - rewrite generateMockTorusFromPoints_geometry. apply MeshBoundsFacts.gridFaces_proper.
  - unfold generateSphereModel.
    pose proof (gridVertices_length 16 16 (spherePoint Math_cos Math_sin 1 16 16)) as Hv.
    destruct (gridVertices 16 16 _) as [vs ns]. cbn [vertex_count face_count fst] in *.
    rewrite Hv, gridFaces_length. reflexivity.
  - unfold generateTorusModel.
    pose proof (gridVertices_length 32 16
                  (torusPoint Math_cos Math_sin 1 (fun _ => 3 # 10) 32 16)) as Hv.
    destruct (gridVertices 32 16 _) as [vs ns]. cbn [vertex_count face_count fst] in *.
    rewrite Hv, gridFaces_length. reflexivity.
Qed.

(** X21.  The faces of the generated meshes are consistently oriented: no
    side is run through in the same direction by two faces of the sphere,
    of the torus or of the displaced torus. *)
Theorem faces_are_consistently_oriented
        (Math_cos Math_sin : Q -> Q) (Math_atan2 : Q -> Q -> Q)
        (points : list Point2D) :
  NoDup (flat_map MeshBounds.directedEdges
           (faces (geometry (generateSphereModel Math_cos Math_sin))))
  /\ NoDup (flat_map MeshBounds.directedEdges
              (faces (geometry (generateTorusModel Math_cos Math_sin))))
  /\ NoDup (flat_map MeshBounds.directedEdges
              (faces (generateMockTorusFromPoints Math_cos Math_sin Math_atan2 points))).
Proof.
  rewrite generateSphereModel_geometry, generateTorusModel_geometry,
    generateMockTorusFromPoints_geometry. cbn [faces].
  split; [|split]; apply MeshBoundsFacts.directedEdgeCount_NoDup.
  - apply MeshBoundsFacts.grid_16_16_directed.
  - apply MeshBoundsFacts.grid_32_16_directed.
  - apply MeshBoundsFacts.grid_48_24_directed.
Qed.

(** ** The 3D view *)

(** X22.  The animation cycles through the frames: with an integer frame
    count [n >= 1], after [k] ticks from frame 0 the current frame is
    [k mod n]; the animation progress of that frame lies in [[0, 1]] and
    the scale along z in [[0.05, 1]]. *)
Theorem animation_cycles_through_the_frames
        (n : Z) (k : nat) (frames : (1 <= n)%Z) :
  let frame := View3D.frameAfter k 0 (inject_Z n) in
  let progress := View3D.animationProgress frame (inject_Z n) in
  frame = inject_Z (Z.of_nat k mod n)
  /\ (0 <= progress /\ progress <= 1)
  /\ (5 # 100 <= View3D.scaleZ progress /\ View3D.scaleZ progress <= 1).
Proof.
  cbv zeta.
  assert (E : View3D.frameAfter k 0 (inject_Z n) = inject_Z (Z.of_nat k mod n)).
  { change 0 with (inject_Z 0). rewrite View3DFacts.frameAfter_integer by lia.
    reflexivity. }
  split; [exact E|]. rewrite E.
  assert (Hm : (0 <= Z.of_nat k mod n < n)%Z) by (apply Z.mod_pos_bound; lia).
  pose proof (@View3DFacts.animationProgress_range (Z.of_nat k mod n) n Hm) as [H0 H1].
  split; [split; assumption|]. unfold View3D.scaleZ. split; lra.
Qed.

Lemma animation_cycles_through_the_frames_witness :
  View3D.frameAfter 31 0 (inject_Z 30) = inject_Z 1.
Proof.
  assert (Hn : (1 <= 30)%Z) by lia.
  exact (proj1 (animation_cycles_through_the_frames 30 31 Hn)).
Defined.

(** X23.  The zoom stays between 0.5 and 3 under any sequence of wheel
    events, and the distance of the camera between 2 and 12. *)
Theorem zoom_stays_in_range
        (zoom : Q) (deltas : list Q) (in_range : 5 # 10 <= zoom /\ zoom <= 3) :
  let zoomed := fold_left View3D.handleWheel deltas zoom in
  (5 # 10 <= zoomed /\ zoomed <= 3)
  /\ (2 <= View3D.cameraDistance zoomed /\ View3D.cameraDistance zoomed <= 12).
Proof.
  cbv zeta.
  assert (H : 5 # 10 <= fold_left View3D.handleWheel deltas zoom
              /\ fold_left View3D.handleWheel deltas zoom <= 3).
  { revert zoom in_range. induction deltas as [|d l IH]; intros zoom Hz; simpl.
    - exact Hz.
    - apply IH. now apply View3DFacts.handleWheel_range. }
  split; [exact H|]. destruct H as [Hlo Hhi]. unfold View3D.cameraDistance. cbv zeta.
  split.
  - apply Qle_shift_div_l; lra.
  - apply Qle_shift_div_r; lra.
Qed.

Lemma zoom_stays_in_range_witness :
  5 # 10 <= fold_left View3D.handleWheel [-(100); -(100); 100] 1
  /\ fold_left View3D.handleWheel [-(100); -(100); 100] 1 <= 3.
Proof.
  refine (proj1 (zoom_stays_in_range 1 [-(100); -(100); 100] _)).
  split; discriminate.
Defined.

(** ** Editing the points by hand *)



(** X25.  With the delete tool in manual mode [handleDeletePoint] sets the
    adjusted points without the one at [index], the others in their
    order; deleting at the position of a point that a click has just
    appended gives back the points before the click. *)
Theorem delete_removes_the_point_at_index
        (index : Z) (adjustedPoints : list Point2D) (p : Point2D)
        (in_range : (0 <= index < Z.of_nat (length adjustedPoints))%Z) :
  AdjustSection.handleDeletePoint "manual" (Some "delete"%string) index adjustedPoints
  = Some (firstn (Z.to_nat index) adjustedPoints
          ++ skipn (S (Z.to_nat index)) adjustedPoints)
  /\ AdjustSection.handleDeletePoint "manual" (Some "delete"%string)
       (Z.of_nat (length adjustedPoints)) (adjustedPoints ++ [p])
     = Some adjustedPoints.
Proof.
  unfold AdjustSection.handleDeletePoint. simpl negb. cbv iota. cbn [orb]. cbv zeta.
  split; f_equal.
  - rewrite AdjustSectionFacts.filterFrom_remove by lia.
    now rewrite Z.sub_0_r.
  - rewrite AdjustSectionFacts.filterFrom_remove by lia.
    rewrite Z.sub_0_r, Nat2Z.id.
    rewrite firstn_app, Nat.sub_diag, firstn_all. simpl firstn. rewrite app_nil_r.
    rewrite skipn_all2 by (rewrite length_app; simpl; lia).
    now rewrite app_nil_r.
Qed.

Lemma delete_removes_the_point_at_index_witness :
  AdjustSection.handleDeletePoint "manual" (Some "delete"%string) 1
    [mkPoint (1 # 4) (1 # 4) 1 "edge"; mkPoint (1 # 2) (1 # 2) 1 "center";
     mkPoint (3 # 4) (3 # 4) 1 "edge"]
  = Some [mkPoint (1 # 4) (1 # 4) 1 "edge"; mkPoint (3 # 4) (3 # 4) 1 "edge"].
Proof.
  assert (Hi : (0 <= 1 < Z.of_nat
                  (length [mkPoint (1 # 4) (1 # 4) 1 "edge";
                           mkPoint (1 # 2) (1 # 2) 1 "center";
                           mkPoint (3 # 4) (3 # 4) 1 "edge"]))%Z) by (simpl; lia).
  exact (proj1 (delete_removes_the_point_at_index 1
                  [mkPoint (1 # 4) (1 # 4) 1 "edge"; mkPoint (1 # 2) (1 # 2) 1 "center";
                   mkPoint (3 # 4) (3 # 4) 1 "edge"]
                  (mkPoint 0 0 0 "edge") Hi)).
Defined.

(** ** The wireframe and the animated lines *)

(** X26.  The wireframe draws every edge once: the list of edges that
    [CymaticGeometry] extracts from the faces has no duplicates, holds
    exactly the sides of the faces with the smaller index first, and has
    as many entries as there are distinct undirected edges, 800 for the
    sphere, 1584 for the torus and 3528 for the displaced torus. *)
Theorem wireframe_draws_every_edge_once
        (fs : list Face) (Math_cos Math_sin : Q -> Q) (Math_atan2 : Q -> Q -> Q)
        (points : list Point2D) :
  NoDup (CymaticGeometry.edges fs)
  /\ (forall e, In e (CymaticGeometry.edges fs) <-> In e (flat_map faceEdges fs))
  /\ Forall (fun e => (fst e <= snd e)%Z) (CymaticGeometry.edges fs)
  /\ length (CymaticGeometry.edges fs) = edgeCount fs
  /\ length (CymaticGeometry.edges
               (faces (geometry (generateSphereModel Math_cos Math_sin)))) = 800%nat
  /\ length (CymaticGeometry.edges
               (faces (geometry (generateTorusModel Math_cos Math_sin)))) = 1584%nat
  /\ length (CymaticGeometry.edges
               (faces (generateMockTorusFromPoints Math_cos Math_sin Math_atan2 points)))
     = 3528%nat.
Proof.
  destruct (CymaticGeometryFacts.edges_spec fs) as [Hnd Hin].
  split; [exact Hnd|]. split; [exact Hin|]. split.
  { apply Forall_forall. intros e He. apply Hin in He.
    apply in_flat_map in He. destruct He as [[[a b] c] [_ He]].
    unfold faceEdges, undirected in He. simpl in He.
    destruct He as [<-|[<-|[<-|[]]]]; simpl; lia. }
  split; [apply CymaticGeometryFacts.edges_length|].
  rewrite !CymaticGeometryFacts.edges_length.
  rewrite generateSphereModel_geometry, generateTorusModel_geometry,
    generateMockTorusFromPoints_geometry. cbn [faces].
  split; [exact (@CymaticGeometryFacts.pair_fst _ _ _ _ _ _ grid_16_16_counts)|].
  split; [exact (@CymaticGeometryFacts.pair_fst _ _ _ _ _ _ grid_32_16_counts)
         |exact (@CymaticGeometryFacts.pair_fst _ _ _ _ _ _ grid_48_24_counts)].
Qed.

(** X27.  The lines shown in the render mode "lines" are a prefix of the
    lines computed: for a progress in [[0, 1]] their number is
    [floor(length * progress)], between 0 and the number of lines; every
    line is shown at progress 1, which is the progress of the last of
    [n >= 2] frames, and none at progress 0, which is the progress of
    the only frame when the frame count is 1. *)
Theorem visible_lines_follow_the_progress
        (Line : Type) (cymaticLines : list Line) (animationProgress : Q) (n : Z)
        (k : nat)
        (progress_range : 0 <= animationProgress /\ animationProgress <= 1)
        (frames : (2 <= n)%Z) :
  let count :=
    CymaticGeometry.visibleLineCount (Z.of_nat (length cymaticLines)) animationProgress in
  CymaticGeometry.visibleLines cymaticLines animationProgress
  = firstn (Z.to_nat count) cymaticLines
  /\ (0 <= count <= Z.of_nat (length cymaticLines))%Z
  /\ CymaticGeometry.visibleLines cymaticLines
       (View3D.animationProgress (inject_Z (n - 1)) (inject_Z n)) = cymaticLines
  /\ CymaticGeometry.visibleLines cymaticLines
       (View3D.animationProgress (View3D.frameAfter k 0 1) 1) = [].
Proof.
  cbv zeta.
  pose proof (@CymaticGeometryFacts.visibleLineCount_range
                (Z.of_nat (length cymaticLines)) animationProgress
                ltac:(lia) progress_range) as Hc.
  split; [|split; [exact Hc|split]].
  - unfold CymaticGeometry.visibleLines, slice0.
    destruct (Z.ltb_spec
                (CymaticGeometry.visibleLineCount (Z.of_nat (length cymaticLines))
                   animationProgress) 0); [lia|reflexivity].
  - assert (E : View3D.animationProgress (inject_Z (n - 1)) (inject_Z n) == 1).
    { unfold View3D.animationProgress.
      assert (E1 : inject_Z n - 1 == inject_Z (n - 1)).
      { unfold Z.sub. rewrite inject_Z_plus. reflexivity. }
      assert (H1 : 1 <= inject_Z (n - 1)).
      { change 1 with (inject_Z 1). rewrite <- Zle_Qle. lia. }
      rewrite E1. rewrite (Q.max_r 1 (inject_Z (n - 1))) by exact H1.
      field. intros H0. rewrite H0 in H1. lra. }
    unfold CymaticGeometry.visibleLines, CymaticGeometry.visibleLineCount, Math_floor.
    assert (F : Qfloor (inject_Z (Z.of_nat (length cymaticLines))
                        * View3D.animationProgress (inject_Z (n - 1)) (inject_Z n))
                = Z.of_nat (length cymaticLines)).
    { rewrite E, Qmult_1_r. apply Qfloor_Z. }
    rewrite F. unfold slice0.
    destruct (Z.ltb_spec (Z.of_nat (length cymaticLines)) 0); [lia|].
    rewrite Nat2Z.id. apply firstn_all.
  - change 1 with (inject_Z 1) at 1 2. change 0 with (inject_Z 0).
    rewrite View3DFacts.frameAfter_integer by lia.
    rewrite Z.mod_1_r.
    unfold CymaticGeometry.visibleLines, CymaticGeometry.visibleLineCount, Math_floor.
    assert (F : Qfloor (inject_Z (Z.of_nat (length cymaticLines))
                        * View3D.animationProgress (inject_Z 0) (inject_Z 1)) = 0%Z).
    { assert (E : inject_Z (Z.of_nat (length cymaticLines))
                  * View3D.animationProgress (inject_Z 0) (inject_Z 1) == 0).
      { unfold View3D.animationProgress. change (inject_Z 0) with 0.
        unfold Qdiv. rewrite Qmult_0_l. apply Qmult_0_r. }
      rewrite E. reflexivity. }
    rewrite F. reflexivity.
Qed.

Lemma visible_lines_follow_the_progress_witness :
  CymaticGeometry.visibleLines [1%Z; 2%Z; 3%Z; 4%Z] (1 # 2) = [1%Z; 2%Z].
Proof.
  refine (proj1 (visible_lines_follow_the_progress Z [1%Z; 2%Z; 3%Z; 4%Z] (1 # 2)
                   30 0 _ _)).
  - split; discriminate.
  - lia.
Defined.

(** ** The model hooks *)

(** X28.  With a model id the query of [useModelPreview] never rejects: it
    resolves with the preview of the API or, when the API fails, with the
    mock sphere; the mutation of [useUpdateModelParams] has no such
    fallback and rejects with the error of the API.  Without a model id
    both reject. *)
Theorem preview_falls_back_and_update_does_not
        (Math_cos Math_sin : Q -> Q) (Preview Response : Type)
        (modelId : option string) (now : string)
        (has_model_id : truthy modelId = true) :
  (forall preview : Preview,
      ModelHooks.previewQueryFn Math_cos Math_sin modelId (Resolved preview) now
      = Resolved (FromApi preview))
  /\ (forall error,
         exists mock,
           ModelHooks.previewQueryFn Math_cos Math_sin modelId
             (@Rejected Preview error) now
           = Resolved (FromMock Preview mock)
           /\ m_shape mock = "sphere"%string
           /\ m_data mock = generateSphereModel Math_cos Math_sin)
  /\ (forall result : Response,
         ModelHooks.updateMutationFn modelId (Resolved result) = Resolved result)
  /\ (forall error,
         ModelHooks.updateMutationFn modelId (@Rejected Response error)
         = Rejected error)
  /\ (forall api,
         ModelHooks.previewQueryFn Math_cos Math_sin None api now
         = @Rejected (Generated Preview) "No model ID provided")
  /\ (forall api,
         ModelHooks.updateMutationFn None api
         = @Rejected Response "No model ID provided").
Proof.
  unfold ModelHooks.previewQueryFn, ModelHooks.updateMutationFn.
  rewrite has_model_id. simpl negb. cbv iota.
  split; [reflexivity|]. split.
  - intros error. eexists. split; [reflexivity|]. split; reflexivity.
  - repeat split.
Qed.

Lemma preview_falls_back_and_update_does_not_witness :
  ModelHooks.updateMutationFn (Some "model-1"%string)
    (@Rejected unit "Request failed with status code 500")
  = Rejected "Request failed with status code 500".
Proof.
  assert (Hid : truthy (Some "model-1"%string) = true) by reflexivity.
  exact (proj1 (proj2 (proj2 (proj2
           (preview_falls_back_and_update_does_not sampleCos sampleSin unit unit
              (Some "model-1"%string) "1700000000000" Hid))))
           "Request failed with status code 500"%string).
Defined.

(** ** The statistics of the adjust section *)

(** X29.  The numbers of edge points and of center points shown never
    exceed the number of points.  When the API call has failed, the points
    that the query resolves with (detected or mock) are all of type "edge"
    or "center": the two numbers add up to the number of points, and with
    at least one point requested these points are the points shown in
    automatic mode. *)
Theorem statistics_add_up_without_the_api
        (Math_cos Math_sin : Q -> Q) (Math_random : nat -> Q)
        (imageId imageUrl : option string) (useGeometricDetection : bool)
        (load : ImageLoad) (now : string) (params : Params) (d : QueryData)
        (shown adjustedPoints : list Point2D) (detected_points : option (list Point2D))
        (api_failed :
           queryFn Math_cos Math_sin Math_random imageId imageUrl useGeometricDetection
             ApiError load now params = Resolved d)
        (points_requested : (1 <= totalPointsOf (density params))%Z) :
  (PointStatistics.edgePoints shown + PointStatistics.centerPoints shown
   <= PointStatistics.totalPoints shown)%nat
  /\ (PointStatistics.edgePoints (q_points d) + PointStatistics.centerPoints (q_points d)
      = PointStatistics.totalPoints (q_points d))%nat
  /\ PointStatistics.displayPoints "automatic" adjustedPoints (q_points d) detected_points
     = q_points d.
Proof.
  split; [apply PointStatisticsFacts.statistics_le|].
  assert (H : Forall PointStatistics.counted (q_points d) /\ q_points d <> []).
  { unfold queryFn in api_failed.
    destruct (negb (truthy imageId)); [discriminate|].
    assert (Hmock : Forall PointStatistics.counted
                      (generateMockPoints Math_cos Math_sin Math_random params)
                    /\ generateMockPoints Math_cos Math_sin Math_random params <> []).
    { split.
      - eapply Forall_impl;
          [|apply (MockShapeFacts.generateMockPoints_shape
                     Math_cos Math_sin Math_random params)].
        apply PointStatisticsFacts.mockPoint_counted.
      - now apply generateMockPoints_nonempty. }
    destruct (useGeometricDetection && truthy imageUrl).
    - destruct (Z.ltb_spec 0
                  (Z.of_nat
                     (length
                        (detectGeometricFeatures load
                           (mkOptions (threshold params) (minSpacing params)
                              (density params)))))) as [Hlen|Hlen];
        inversion api_failed; subst d; cbn [q_points]; [|exact Hmock].
      split.
      + eapply Forall_impl;
          [|apply (DetectedPointFacts.detectGeometricFeatures_detected load
                     (mkOptions (threshold params) (minSpacing params)
                        (density params)))].
        apply PointStatisticsFacts.detectedPoint_counted.
      + intros E. rewrite E in Hlen. simpl in Hlen. lia.
    - inversion api_failed; subst d; cbn [q_points]. exact Hmock. }
  destruct H as [Hc Hne]. split.
  - now apply PointStatisticsFacts.statistics_counted.
  - unfold PointStatistics.displayPoints. simpl String.eqb. cbv iota.
    destruct (Z.ltb_spec 0 (Z.of_nat (length (q_points d)))) as [|Hz]; [reflexivity|].
    destruct (q_points d); [contradiction|simpl in Hz; lia].
Qed.

Lemma statistics_add_up_without_the_api_witness :
  PointStatistics.displayPoints "automatic" []
    (q_points
       (mkQueryData "mock-1700000000000"
          (generateMockPoints sampleCos sampleSin sampleRandom defaultParams)))
    None
  = q_points
      (mkQueryData "mock-1700000000000"
         (generateMockPoints sampleCos sampleSin sampleRandom defaultParams)).
Proof.
  assert (Hq : queryFn sampleCos sampleSin sampleRandom (Some "image-1"%string)
                 (Some "blob:pattern"%string) true ApiError
                 (OnLoad (blankImage 12 12 7)) "1700000000000"%string defaultParams
               = Resolved (mkQueryData "mock-1700000000000"
                             (generateMockPoints sampleCos sampleSin sampleRandom
                                defaultParams))).
  { apply queryFn_empty_detection; [reflexivity|vm_compute; reflexivity]. }
  assert (Hn : (1 <= totalPointsOf (density defaultParams))%Z)
    by (vm_compute; discriminate).
  exact (proj2 (proj2 (statistics_add_up_without_the_api
                         sampleCos sampleSin sampleRandom (Some "image-1"%string)
                         (Some "blob:pattern"%string) true
                         (OnLoad (blankImage 12 12 7)) "1700000000000"%string
                         defaultParams
                         (mkQueryData "mock-1700000000000"
                            (generateMockPoints sampleCos sampleSin sampleRandom
                               defaultParams))
                         [] [] None Hq Hn))).
Defined.
